(** * DAO-Proposal-Auditor: call-graph construction and structural analysis

    A shallow embedding of [src/graph/graph_builder.py] (class [GraphBuilder]),
    of the system-contract check of [src/auditor/auditor.py] and of the two
    call-tree flattening traversals of [src/simulator/simulator.py], together
    with the properties the specification states about them.

    Conventions of the embedding:
    - a Python [str] is a [string] (a sequence of bytes); addresses, selectors
      and call kinds are ASCII text, on which [len], slicing and [lower]
      agree with Python's; f-string literals are kept as UTF-8 bytes;
    - a Python [int] is a [Z];
    - a JSON object read with [.get(key, default)] is a record of [option]
      fields, [None] meaning that the key is absent; a key that is present
      holds a value of the field's type (never JSON [null]);
    - a [dict] or [Counter] whose iteration order is observable is an
      association list in insertion order; a [dict] or [set] used only for
      lookups is a [gmap] or a [gset];
    - [raise] and mutation of [self] are threaded through a state-and-error
      monad over the [GraphBuilder] record; the simulator's logger calls are
      returned as a list of log records;
    - networkx, [collections.Counter], [str] methods and [int()] are library
      code: they are modelled after their documented behaviour, [int()] and
      the selector lookup service as parameters. *)

From Stdlib Require Import ZArith String Ascii List Lia Sorted DecimalString.
From stdpp Require Import gmap strings list fin_maps sorting.
From Equations Require Import Equations.
Import ListNotations.

#[local] Set Warnings "-clear-no-such-hyp,-register-all".

Open Scope string_scope.
Open Scope list_scope.
Open Scope Z_scope.

(** ** Python string primitives *)

Module PyStr.

Definition lower_ascii (c : ascii) : ascii :=
  let n := nat_of_ascii c in
  if ((65 <=? n)%nat && (n <=? 90)%nat)%bool then ascii_of_nat (n + 32) else c.

(** [s.lower()] *)
Fixpoint lower (s : string) : string :=
  match s with
  | EmptyString => EmptyString
  | String c s' => String (lower_ascii c) (lower s')
  end.

(** [s.startswith(p)] *)
Definition startswith (p s : string) : bool := String.prefix p s.

(** [sub in s] *)
Fixpoint contains (sub s : string) : bool :=
  (String.prefix sub s
   || match s with
      | EmptyString => false
      | String _ s' => contains sub s'
      end)%bool.

(** [s.split(sep)[0]] for a one-character separator *)
Fixpoint split_head (sep : ascii) (s : string) : string :=
  match s with
  | EmptyString => EmptyString
  | String c s' => if Ascii.eqb c sep then EmptyString else String c (split_head sep s')
  end.

(** [s[:n]] *)
Definition slice_to (n : nat) (s : string) : string := String.substring 0 n s.

(** [s[-n:]] for [n > 0] *)
Definition slice_last (n : nat) (s : string) : string :=
  String.substring (String.length s - n) n s.

(** [s[-1]]; [None] is [IndexError] on the empty string *)
Fixpoint last_char (s : string) : option ascii :=
  match s with
  | EmptyString => None
  | String c EmptyString => Some c
  | String _ s' => last_char s'
  end.

(** [sep.join(l)] *)
Definition join (sep : string) (l : list string) : string := String.concat sep l.

(** [str(n)] for an [int] *)
Definition of_int (n : Z) : string := NilZero.string_of_int (Z.to_int n).

Lemma lower_empty s : lower s = "" <-> s = "".
Proof. destruct s; simpl; split; congruence. Qed.

End PyStr.

(** ** Input documents *)

(** The [value] of a call entry: an [int] in one tracer's output, a decimal
    [str] in the other's. The builder copies it onto the edge untouched. *)
Inductive JValue :=
| JInt (n : Z)
| JStr (s : string).

(** One entry of [trace_summary["calls"]]. *)
Record CallEntry := {
  call_from : option string;
  call_to : option string;
  call_type : option string;
  call_function_signature : option string;
  call_function_selector : option string;
  call_value : option JValue;
  call_depth : option Z
}.

(** [trace_summary] / [summary]: the [calls] key and whether any other key
    is present (an empty dict is falsy). *)
Record Summary := {
  summary_calls : option (list CallEntry);
  summary_other_keys : bool
}.

(** [original_transaction] / [trace]: only [from] and [to] are read. *)
Record TxInfo := {
  tx_from : option string;
  tx_to : option string;
  tx_other_keys : bool
}.

(** The parsed [trace_report.json]. *)
Record TraceDocument := {
  doc_trace_summary : option Summary;
  doc_summary : option Summary;
  doc_original_transaction : option TxInfo;
  doc_trace : option TxInfo
}.

Definition summary_truthy (s : Summary) : bool :=
  (bool_decide (is_Some (summary_calls s)) || summary_other_keys s)%bool.

Definition txinfo_truthy (t : TxInfo) : bool :=
  (bool_decide (is_Some (tx_from t)) || bool_decide (is_Some (tx_to t)) || tx_other_keys t)%bool.

Definition empty_summary : Summary :=
  {| summary_calls := None; summary_other_keys := false |}.

(** ** networkx.MultiDiGraph

    The graph is kept as the list of its nodes in insertion order and the
    list of its edges in insertion order; the views the builder reads
    ([successors], [in_degree], [edges(data=True)], [G[u][v]]) are derived
    from them the way networkx's adjacency dicts order them. The node
    attribute [label] always equals the node itself and is not stored. *)

Record EdgeAttrs := {
  attr_type : string;
  attr_function : string;
  attr_value : JValue;
  attr_depth : Z
}.

Record Edge := {
  e_from : string;
  e_to : string;
  e_key : nat;
  e_attrs : EdgeAttrs
}.

Record MultiDiGraph := {
  nodes : list string;
  edges : list Edge
}.

Module nx.

Definition empty : MultiDiGraph := {| nodes := []; edges := [] |}.

Definition has_node (g : MultiDiGraph) (n : string) : bool := bool_decide (n ∈ nodes g).

(** [G.add_node(n)]: a node already present keeps its position. *)
Definition add_node (g : MultiDiGraph) (n : string) : MultiDiGraph :=
  if has_node g n then g else {| nodes := nodes g ++ [n]; edges := edges g |}.

(** [G[u][v]]: the parallel edges from [u] to [v], by key. *)
Definition between (g : MultiDiGraph) (u v : string) : list Edge :=
  List.filter (fun e => bool_decide (e_from e = u) && bool_decide (e_to e = v))%bool (edges g).

(** [G.add_edge(u, v, **attrs)]: both endpoints are added when missing and
    the new edge gets the first unused integer key for the pair. *)
Definition add_edge (g : MultiDiGraph) (u v : string) (a : EdgeAttrs) : MultiDiGraph :=
  let g' := add_node (add_node g u) v in
  {| nodes := nodes g';
     edges := edges g' ++ [{| e_from := u; e_to := v;
                              e_key := length (between g' u v); e_attrs := a |}] |}.

Definition number_of_nodes (g : MultiDiGraph) : Z := Z.of_nat (length (nodes g)).
Definition number_of_edges (g : MultiDiGraph) : Z := Z.of_nat (length (edges g)).

(** [G.in_degree(n)]: incoming edges, counted with multiplicity. *)
Definition in_degree (g : MultiDiGraph) (n : string) : Z :=
  Z.of_nat (length (List.filter (fun e => bool_decide (e_to e = n)) (edges g))).

(** Keys of a dict in order of first insertion. *)
Fixpoint first_seen (seen : gset string) (l : list string) : list string :=
  match l with
  | [] => []
  | x :: l' => if bool_decide (x ∈ seen) then first_seen seen l'
               else x :: first_seen ({[x]} ∪ seen) l'
  end.

(** [G.successors(u)]: the distinct targets of [u]'s out-edges, in the
    order in which the first edge to each was added. *)
Definition successors (g : MultiDiGraph) (u : string) : list string :=
  first_seen ∅ (map e_to (List.filter (fun e => bool_decide (e_from e = u)) (edges g))).

(** [G.edges(data=True)]: grouped by source node, then by target. *)
Definition edges_data (g : MultiDiGraph) : list Edge :=
  flat_map (fun u => flat_map (fun v => between g u v) (successors g u)) (nodes g).

End nx.

(** ** The builder object and its monad *)

Inductive PyExn :=
| ValueError (msg : string)
| FileNotFoundError (msg : string).

Inductive Result (A : Type) :=
| Ok (a : A)
| Raise (e : PyExn).
Arguments Ok {A} a.
Arguments Raise {A} e.

(** [self]: the path, the document stored at that path ([None] when the
    file does not exist), and the two attributes set by the methods. *)
Record GraphBuilder := {
  trace_report_path : string;
  trace_report_file : option TraceDocument;
  graph : option MultiDiGraph;
  trace_data : option TraceDocument
}.

Definition M (A : Type) : Type := GraphBuilder -> Result A * GraphBuilder.

#[export] Instance M_ret : MRet M := fun A a b => (Ok a, b).
#[export] Instance M_bind : MBind M := fun A B k m b =>
  match m b with
  | (Ok a, b') => k a b'
  | (Raise e, b') => (Raise e, b')
  end.
Definition raise {A} (e : PyExn) : M A := fun b => (Raise e, b).
Definition get_self : M GraphBuilder := fun b => (Ok b, b).

(** [self.graph = g] and [self.trace_data = d] *)
Definition with_graph (b : GraphBuilder) (g : MultiDiGraph) : GraphBuilder :=
  {| trace_report_path := trace_report_path b;
     trace_report_file := trace_report_file b;
     graph := Some g; trace_data := trace_data b |}.
Definition with_trace_data (b : GraphBuilder) (d : TraceDocument) : GraphBuilder :=
  {| trace_report_path := trace_report_path b;
     trace_report_file := trace_report_file b;
     graph := graph b; trace_data := Some d |}.

Definition set_graph (g : MultiDiGraph) : M unit := fun b => (Ok tt, with_graph b g).
Definition set_trace_data (d : TraceDocument) : M unit := fun b => (Ok tt, with_trace_data b d).

Definition not_built {A} : M A := raise (ValueError "Graph not built. Call build_graph() first.").

(** [load_trace_report] *)
Definition load_trace_report : M TraceDocument :=
  self ← get_self;
  match trace_report_file self with
  | None => raise (FileNotFoundError ("Trace report not found: " ++ trace_report_path self))
  | Some d => set_trace_data d;; mret d
  end.

(** [self.trace_data.get("trace_summary") or self.trace_data.get("summary", {})] *)
Definition summary_of (d : TraceDocument) : Summary :=
  match doc_trace_summary d with
  | Some s => if summary_truthy s then s else default empty_summary (doc_summary d)
  | None => default empty_summary (doc_summary d)
  end.

(** [trace_summary.get("calls", [])] *)
Definition calls_of (d : TraceDocument) : list CallEntry :=
  default [] (summary_calls (summary_of d)).

(** [get_trace_summary] *)
Definition get_trace_summary : M Summary :=
  self ← get_self;
  match trace_data self with
  | None => d ← load_trace_report; mret (summary_of d)
  | Some d => mret (summary_of d)
  end.

(** ** [build_graph] *)

Definition from_addr (c : CallEntry) : string := PyStr.lower (default "" (call_from c)).
Definition to_addr (c : CallEntry) : string := PyStr.lower (default "" (call_to c)).

(** [call.get("function_signature", call.get("function_selector", "unknown"))] *)
Definition call_function (c : CallEntry) : string :=
  match call_function_signature c with
  | Some f => f
  | None => default "unknown" (call_function_selector c)
  end.

Definition edge_attrs_of (c : CallEntry) : EdgeAttrs :=
  {| attr_type := default "CALL" (call_type c);
     attr_function := call_function c;
     attr_value := default (JInt 0) (call_value c);
     attr_depth := default 0 (call_depth c) |}.

(** The body of the [for call in calls] loop. *)
Definition add_call (g : MultiDiGraph) (c : CallEntry) : MultiDiGraph :=
  if (bool_decide (from_addr c = "") || bool_decide (to_addr c = ""))%bool then g
  else
    let g1 := if nx.has_node g (from_addr c) then g else nx.add_node g (from_addr c) in
    let g2 := if nx.has_node g1 (to_addr c) then g1 else nx.add_node g1 (to_addr c) in
    nx.add_edge g2 (from_addr c) (to_addr c) (edge_attrs_of c).

Definition build_from_calls (calls : list CallEntry) : MultiDiGraph :=
  match calls with
  | [] => nx.empty
  | _ => fold_left add_call calls nx.empty
  end.

Definition build_graph : M MultiDiGraph :=
  self ← get_self;
  match trace_data self with
  | None => load_trace_report;; mret tt
  | Some _ => mret tt
  end;;
  set_graph nx.empty;;
  trace_summary ← get_trace_summary;
  let g := build_from_calls (default [] (summary_calls trace_summary)) in
  set_graph g;;
  mret g.

(** ** Termination order of the depth work queue

    A visited node is never enqueued again, but a node can be enqueued many
    times before its first pop. The loop is therefore measured by the pair
    (number of nodes not yet visited, number of leading queue entries whose
    node is already visited), ordered lexicographically. *)

Definition lexlt (p q : nat * nat) : Prop :=
  (fst p < fst q)%nat \/ ((fst p <= fst q)%nat /\ (snd p < snd q)%nat).

Lemma lexlt_wf : well_founded lexlt.
Proof.
  intros [a b]. revert b.
  induction a as [a IHa] using (well_founded_induction lt_wf).
  intros b. induction b as [b IHb] using (well_founded_induction lt_wf).
  constructor. intros [a' b'] H.
  destruct (lt_dec a' a) as [Hlt|Hge].
  - apply IHa. exact Hlt.
  - destruct (Nat.eq_dec a' a) as [Heq|Hne].
    + rewrite Heq. apply IHb. unfold lexlt in H; simpl in H. lia.
    + exfalso. unfold lexlt in H; simpl in H. lia.
Defined.

#[export] Instance lexlt_WellFounded : WellFounded lexlt := lexlt_wf.

(** ** [calculate_graph_depth] *)

Record DepthState := {
  depths : gmap string Z;
  queue : list string;
  visited_in_path : gset string;
  max_depth : Z
}.

(** [max(xs) if xs else 0] *)
Definition max_or_zero (xs : list Z) : Z :=
  match xs with
  | [] => 0
  | x :: xs' => fold_left Z.max xs' x
  end.

(** The body of [for successor in self.graph.successors(current)]. *)
Definition relax (g : MultiDiGraph) (current : string) (current_depth : Z)
    (s : DepthState) (successor : string) : DepthState :=
  if bool_decide (successor = current) then s
  else
    let edge_depths := map (fun e => attr_depth (e_attrs e)) (nx.between g current successor) in
    let max_edge_depth := max_or_zero edge_depths in
    let new_depth := current_depth + 1 in
    if (bool_decide (successor ∈ visited_in_path s)
        && (new_depth <=? default 0 (depths s !! successor)))%bool
    then s
    else
      {| depths := <[successor := new_depth]> (depths s);
         queue := if bool_decide (successor ∈ visited_in_path s) then queue s
                  else queue s ++ [successor];
         visited_in_path := visited_in_path s;
         max_depth := max_depth s |}.

(** One iteration of [while queue], after [queue.pop(0)] returned [current]
    and [depths[current]] returned [current_depth]. *)
Definition depth_body (g : MultiDiGraph) (current : string) (current_depth : Z)
    (s : DepthState) : DepthState :=
  let s1 := {| depths := depths s; queue := queue s;
               visited_in_path := {[current]} ∪ visited_in_path s;
               max_depth := max_depth s |} in
  let s2 := fold_left (relax g current current_depth) (nx.successors g current) s1 in
  {| depths := depths s2; queue := queue s2; visited_in_path := visited_in_path s2;
     max_depth := Z.max (max_depth s2) current_depth |}.

Fixpoint leading_visited (vis : gset string) (q : list string) : nat :=
  match q with
  | [] => 0
  | x :: q' => if bool_decide (x ∈ vis) then S (leading_visited vis q') else 0
  end.

Definition depth_measure (g : MultiDiGraph) (s : DepthState) : nat * nat :=
  (size ((list_to_set (queue s ++ map e_to (edges g)) : gset string) ∖ visited_in_path s),
   leading_visited (visited_in_path s) (queue s)).

Lemma leading_visited_app vis q app :
  Forall (fun x => x ∉ vis) app -> leading_visited vis (q ++ app) = leading_visited vis q.
Proof.
  intros Happ. induction q as [|x q IH]; simpl.
  - destruct Happ as [|y app Hy _]; simpl; [reflexivity|].
    rewrite bool_decide_eq_false_2 by exact Hy. reflexivity.
  - destruct (bool_decide (x ∈ vis)); [rewrite IH|]; reflexivity.
Qed.

Lemma first_seen_subset seen l x : x ∈ nx.first_seen seen l -> x ∈ l.
Proof.
  revert seen. induction l as [|y l IH]; intros seen; simpl; [auto|].
  destruct (bool_decide (y ∈ seen)).
  - intros H. right. eauto.
  - intros [->|H]%elem_of_cons; [left|right; eauto].
Qed.

Lemma successors_target g u x : x ∈ nx.successors g u -> x ∈ map e_to (edges g).
Proof.
  intros H%first_seen_subset. apply list_elem_of_In in H. apply list_elem_of_In.
  apply in_map_iff in H as (e & <- & He). apply filter_In in He as [He _].
  apply in_map. exact He.
Qed.

Lemma relax_fold_queue g current cd l s :
  exists app,
    queue (fold_left (relax g current cd) l s) = queue s ++ app /\
    visited_in_path (fold_left (relax g current cd) l s) = visited_in_path s /\
    max_depth (fold_left (relax g current cd) l s) = max_depth s /\
    Forall (fun x => (x ∉ visited_in_path s) /\ x ∈ l) app.
Proof.
  revert s. induction l as [|v l IH]; intros s; simpl.
  - exists []. rewrite app_nil_r. auto.
  - assert (Hr : visited_in_path (relax g current cd s v) = visited_in_path s /\
                 max_depth (relax g current cd s v) = max_depth s /\
                 exists a, queue (relax g current cd s v) = queue s ++ a /\
                           Forall (fun x => (x ∉ visited_in_path s) /\ x ∈ v :: l) a).
    { unfold relax. destruct (bool_decide (v = current)).
      { do 2 (split; [reflexivity|]). exists []. rewrite app_nil_r. auto. }
      destruct (bool_decide (v ∈ visited_in_path s)) eqn:Hb; simpl.
      - destruct (cd + 1 <=? default 0 (depths s !! v)); simpl;
          (do 2 (split; [reflexivity|]); exists []; rewrite app_nil_r; auto).
      - do 2 (split; [reflexivity|]). exists [v]. split; [reflexivity|].
        constructor; [|constructor]. apply bool_decide_eq_false in Hb.
        split; [exact Hb|left]. }
    destruct Hr as (Hv1 & Hm1 & a & Hq1 & Ha).
    destruct (IH (relax g current cd s v)) as (app & Hq & Hv & Hm & Hall).
    exists (a ++ app). rewrite Hq, Hq1, Hv, Hv1, Hm, Hm1, app_assoc.
    do 3 (split; [reflexivity|]).
    apply Forall_app. split; [exact Ha|].
    eapply Forall_impl; [exact Hall|]. simpl. intros x [H1 H2].
    rewrite Hv1 in H1. split; [exact H1|right; exact H2].
Qed.

Lemma depth_body_decreases g current cd d rest v m :
  lexlt (depth_measure g (depth_body g current cd
           {| depths := d; queue := rest; visited_in_path := v; max_depth := m |}))
        (depth_measure g
           {| depths := d; queue := current :: rest; visited_in_path := v; max_depth := m |}).
Proof.
  unfold depth_body, depth_measure. simpl.
  destruct (relax_fold_queue g current cd (nx.successors g current)
     {| depths := d; queue := rest; visited_in_path := {[current]} ∪ v; max_depth := m |})
    as (app & Hq & Hv & _ & Hall).
  simpl in *. rewrite Hq, Hv.
  assert (Hsub : forall x, x ∈ app -> x ∈ map e_to (edges g)).
  { intros x Hx. rewrite Forall_forall in Hall. apply Hall in Hx as [_ Hx].
    eapply successors_target; eauto. }
  destruct (decide (current ∈ v)) as [Hin|Hnin].
  - right. simpl. split.
    + apply subseteq_size. intros x.
      rewrite !elem_of_difference, !elem_of_list_to_set, !elem_of_app.
      intros [[[?|?]|?] ?]; set_solver.
    + rewrite bool_decide_eq_true_2 by exact Hin.
      assert (HV : {[current]} ∪ v = v) by set_solver. rewrite HV in *.
      rewrite leading_visited_app; [lia|].
      eapply Forall_impl; [exact Hall|]. simpl. tauto.
  - left. simpl. apply subset_size. split.
    + intros x. rewrite !elem_of_difference, !elem_of_list_to_set, !elem_of_app.
      intros [[[?|?]|?] ?]; set_solver.
    + intros Hcontra. specialize (Hcontra current).
      rewrite !elem_of_difference, !elem_of_list_to_set in Hcontra. set_solver.
Qed.

(** [while queue: ...]. A missing [depths[current]] is a [KeyError], which
    the enclosing [except Exception] turns into the end of this root's run. *)
Equations depth_while (g : MultiDiGraph) (s : DepthState) : DepthState
  by wf (depth_measure g s) lexlt :=
  depth_while g (Build_DepthState d nil v m) := Build_DepthState d nil v m;
  depth_while g (Build_DepthState d (cons current rest) v m) with d !! current := {
    | Some current_depth =>
        depth_while g (depth_body g current current_depth (Build_DepthState d rest v m));
    | None => Build_DepthState d rest v m }.
Next Obligation. apply depth_body_decreases. Qed.

(** [in_degree_zero], replaced by all nodes when it is empty. *)
Definition roots (g : MultiDiGraph) : list string :=
  match List.filter (fun n => nx.in_degree g n =? 0) (nodes g) with
  | [] => nodes g
  | in_degree_zero => in_degree_zero
  end.

(** The run started at one root, with [max_depth] as left by earlier roots. *)
Definition depth_run (g : MultiDiGraph) (start_node : string) (m : Z) : DepthState :=
  depth_while g {| depths := {[start_node := 0]}; queue := [start_node];
                   visited_in_path := ∅; max_depth := m |}.

Definition graph_depth (g : MultiDiGraph) : Z :=
  if nx.number_of_nodes g =? 0 then 0
  else fold_left (fun m start_node => max_depth (depth_run g start_node m)) (roots g) 0.

Definition calculate_graph_depth : M Z :=
  self ← get_self;
  match graph self with
  | None => not_built
  | Some g => mret (graph_depth g)
  end.

(** ** [calculate_graph_breadth] *)

Record BreadthState := {
  levels : gmap Z (list string);
  visited : gset string;
  level_queue : list (string * Z);
  max_breadth : Z
}.

(** [levels[k]] on a [defaultdict(list)] *)
Definition level_at (lv : gmap Z (list string)) (k : Z) : list string := default [] (lv !! k).

(** The body of [for successor in self.graph.successors(current)]. *)
Definition discover (current : string) (level : Z) (s : BreadthState)
    (successor : string) : BreadthState :=
  if bool_decide (successor = current) then s
  else if bool_decide (successor ∈ visited s) then s
  else
    let next_level := level + 1 in
    {| levels := <[next_level := level_at (levels s) next_level ++ [successor]]> (levels s);
       visited := {[successor]} ∪ visited s;
       level_queue := level_queue s ++ [(successor, next_level)];
       max_breadth := max_breadth s |}.

(** One iteration of [while queue], after [queue.pop(0)]. *)
Definition breadth_body (g : MultiDiGraph) (current : string) (level : Z)
    (s : BreadthState) : BreadthState :=
  let s2 := fold_left (discover current level) (nx.successors g current) s in
  {| levels := levels s2; visited := visited s2; level_queue := level_queue s2;
     max_breadth := Z.max (max_breadth s2) (Z.of_nat (length (level_at (levels s2) level))) |}.

(** Every pop removes one entry, and every entry added marks a fresh node
    as visited. *)
Definition breadth_measure (g : MultiDiGraph) (s : BreadthState) : nat :=
  (size ((list_to_set (map e_to (edges g)) : gset string) ∖ visited s)
   + length (level_queue s))%nat.

Lemma discover_fold_measure g current level l s :
  (forall x, x ∈ l -> x ∈ map e_to (edges g)) ->
  (breadth_measure g (fold_left (discover current level) l s) <= breadth_measure g s)%nat.
Proof.
  revert s. induction l as [|x l IH]; intros s Hl; simpl; [lia|].
  etransitivity; [apply IH; intros y Hy; apply Hl; right; exact Hy|].
  unfold discover. destruct (bool_decide (x = current)); [lia|].
  destruct (bool_decide (x ∈ visited s)) eqn:Hx; [lia|].
  apply bool_decide_eq_false in Hx.
  unfold breadth_measure. simpl. rewrite length_app. simpl.
  assert (Hsz : (size ((list_to_set (map e_to (edges g)) : gset string) ∖ ({[x]} ∪ visited s))
                 < size ((list_to_set (map e_to (edges g)) : gset string) ∖ visited s))%nat).
  { apply subset_size. split; [set_solver|].
    intros Hc. specialize (Hc x). rewrite !elem_of_difference, elem_of_list_to_set in Hc.
    assert (Hin : x ∈ map e_to (edges g)) by (apply Hl; left).
    set_solver. }
  lia.
Qed.

Lemma breadth_body_decreases g current level lv vis rest m :
  (breadth_measure g (breadth_body g current level
      {| levels := lv; visited := vis; level_queue := rest; max_breadth := m |})
   < breadth_measure g
      {| levels := lv; visited := vis; level_queue := (current, level) :: rest;
         max_breadth := m |})%nat.
Proof.
  pose proof (discover_fold_measure g current level (nx.successors g current)
    {| levels := lv; visited := vis; level_queue := rest; max_breadth := m |}
    (successors_target g current)) as H.
  unfold breadth_body, breadth_measure in *. simpl in *. lia.
Qed.

Equations breadth_while (g : MultiDiGraph) (s : BreadthState) : BreadthState
  by wf (breadth_measure g s) lt :=
  breadth_while g (Build_BreadthState lv vis nil m) := Build_BreadthState lv vis nil m;
  breadth_while g (Build_BreadthState lv vis (cons (current, level) rest) m) :=
    breadth_while g (breadth_body g current level (Build_BreadthState lv vis rest m)).
Next Obligation. apply breadth_body_decreases. Qed.

Definition breadth_run (g : MultiDiGraph) (start_node : string) (m : Z) : BreadthState :=
  breadth_while g {| levels := {[0 := [start_node]]}; visited := {[start_node]};
                     level_queue := [(start_node, 0)]; max_breadth := m |}.

Definition graph_breadth (g : MultiDiGraph) : Z :=
  if nx.number_of_nodes g =? 0 then 0
  else fold_left (fun m start_node => max_breadth (breadth_run g start_node m)) (roots g) 0.

Definition calculate_graph_breadth : M Z :=
  self ← get_self;
  match graph self with
  | None => not_built
  | Some g => mret (graph_breadth g)
  end.

(** ** [identify_central_nodes] *)

(** A [Counter] is its items in order of first insertion. *)
Definition Counter := list (string * Z).

(** [c[k] += 1] *)
Fixpoint counter_incr (k : string) (c : Counter) : Counter :=
  match c with
  | [] => [(k, 1)]
  | (k', n) :: c' => if bool_decide (k' = k) then (k', n + 1) :: c'
                     else (k', n) :: counter_incr k c'
  end.

Definition counter_has (k : string) (c : Counter) : bool := bool_decide (k ∈ map fst c).

(** [sorted(items, key=itemgetter(1), reverse=True)]: a stable sort, so items
    with equal counts keep their insertion order. *)
Fixpoint insert_by_count (p : string * Z) (l : list (string * Z)) : list (string * Z) :=
  match l with
  | [] => [p]
  | q :: l' => if snd q <=? snd p then p :: q :: l' else q :: insert_by_count p l'
  end.

Fixpoint sort_by_count (l : list (string * Z)) : list (string * Z) :=
  match l with
  | [] => []
  | p :: l' => insert_by_count p (sort_by_count l')
  end.

(** [Counter.most_common(n)], documented as [sorted(...)[:n]] with equal
    counts in the order first encountered. *)
Definition most_common (n : nat) (c : Counter) : list (string * Z) :=
  take n (sort_by_count c).

(** The [in_degree_counter] filled by the loop over [self.graph.nodes()]. *)
Definition in_degree_counter (g : MultiDiGraph) : Counter :=
  List.filter (fun p => 0 <? snd p) (map (fun n => (n, nx.in_degree g n)) (nodes g)).

Definition central_nodes (g : MultiDiGraph) (top_k : nat) : list (string * Z) :=
  most_common top_k (in_degree_counter g).

Definition identify_central_nodes (top_k : nat) : M (list (string * Z)) :=
  self ← get_self;
  match graph self with
  | None => not_built
  | Some g => mret (central_nodes g top_k)
  end.

(** ** Knowledge tables of the graph builder *)

Definition Dict := list (string * string).

(** [d.get(k)] *)
Fixpoint dict_get (k : string) (d : Dict) : option string :=
  match d with
  | [] => None
  | (k', v) :: d' => if bool_decide (k' = k) then Some v else dict_get k d'
  end.

Definition KNOWN_CONTRACTS : Dict := [
  ("0x3e5c63644e683549055b9be8653de26e0b4cd36e", "Gnosis Safe: Proxy Factory");
  ("0xd9db270c1b5e3bd161e8c8503c55ceabee709552", "Gnosis Safe: Master Copy");
  ("0xa6b71e26c5e0845f74c812102ca7114b6a896ab2", "Gnosis Safe: Proxy Factory v1.3.0");
  ("0xf07ded9dc292157749b6fd268e37df6ea38395b9", "Arbitrum Governor");
  ("0xb4c064f466931b8d0f637654c916e3f203c46f13", "Arbitrum Governor (Proposer)");
  ("0x408ed6354d4973f66138c91495f2f2fcbd8724c3", "Uniswap Governor");
  ("0x0000000000000000000000000000000000000001", "Ethereum Precompile: ECRecover");
  ("0x0000000000000000000000000000000000000002", "Ethereum Precompile: SHA256");
  ("0x0000000000000000000000000000000000000003", "Ethereum Precompile: RIPEMD160");
  ("0x0000000000000000000000000000000000000004", "Ethereum Precompile: Identity");
  ("0x0000000000000000000000000000000000000005", "Ethereum Precompile: ModExp");
  ("0x0000000000000000000000000000000000000064", "Arbitrum: L1 ArbSys");
  ("0x0000000000000000000000000000000000000065", "Arbitrum: L2 ArbSys")
].

Definition FUNCTION_PATTERNS : Dict := [
  ("execTransaction", "Gnosis Safe: Multi-sig execution");
  ("propose", "Governor: Proposal creation");
  ("execute", "Governor: Proposal execution");
  ("castVote", "Governor: Voting");
  ("getPastVotes", "Governor: Vote weight query");
  ("delegate", "Governor: Delegation");
  ("upgradeTo", "Proxy: Upgrade");
  ("upgradeToAndCall", "Proxy: Upgrade and call")
].

(** [identify_contract] *)
Definition identify_contract (address : string) : option string :=
  let addr_lower := PyStr.lower address in
  dict_get addr_lower KNOWN_CONTRACTS.

(** [f.split("(")[0] if "(" in f else f] *)
Definition function_name (f : string) : string :=
  if PyStr.contains "(" f then PyStr.split_head "("%char f else f.

(** [identify_function_semantic] *)
Definition identify_function_semantic (function_signature : string) : option string :=
  if (bool_decide (function_signature = "") || bool_decide (function_signature = "unknown"))%bool
  then None
  else
    let func_name := function_name function_signature in
    snd <$> List.find (fun pd => PyStr.contains (PyStr.lower (fst pd)) (PyStr.lower func_name))
                      FUNCTION_PATTERNS.

(** ** System contracts of the auditor ([src/auditor/auditor.py]) *)

Definition SYSTEM_CONTRACTS : Dict := [
  ("0x0000000000000000000000000000000000000001", "Ethereum Precompile: ECRecover");
  ("0x0000000000000000000000000000000000000002", "Ethereum Precompile: SHA256");
  ("0x0000000000000000000000000000000000000003", "Ethereum Precompile: RIPEMD160");
  ("0x0000000000000000000000000000000000000004", "Ethereum Precompile: Identity");
  ("0x0000000000000000000000000000000000000005", "Ethereum Precompile: ModExp");
  ("0x0000000000000000000000000000000000000006", "Ethereum Precompile: BN256Add");
  ("0x0000000000000000000000000000000000000007", "Ethereum Precompile: BN256Mul");
  ("0x0000000000000000000000000000000000000008", "Ethereum Precompile: BN256Pairing");
  ("0x0000000000000000000000000000000000000009", "Ethereum Precompile: Blake2F");
  ("0x0000000000000000000000000000000000000064", "Arbitrum System Contract: L1 ArbSys");
  ("0x0000000000000000000000000000000000000065", "Arbitrum System Contract: L2 ArbSys")
].

(** [c in "123456789"] for a one-character [c] *)
Definition is_nonzero_digit (c : ascii) : bool :=
  PyStr.contains (String c EmptyString) "123456789".

(** [is_system_contract] *)
Definition is_system_contract (address : string) : bool :=
  let addr_lower := PyStr.lower address in
  if (PyStr.startswith "0x000000000000000000000000000000000000000" addr_lower
      && match PyStr.last_char addr_lower with
         | Some last_char => is_nonzero_digit last_char
         | None => false
         end)%bool
  then true
  else if bool_decide (is_Some (dict_get addr_lower SYSTEM_CONTRACTS)) then true
  else false.

(** [get_system_contract_description] *)
Definition get_system_contract_description (address : string) : option string :=
  dict_get (PyStr.lower address) SYSTEM_CONTRACTS.

(** ** [extract_call_paths] *)

Definition call_depth_of (c : CallEntry) : Z := default 0 (call_depth c).

Definition important_functions : list string :=
  ["execTransaction"; "propose"; "execute"; "upgradeTo"].

Definition is_important_call (c : CallEntry) : bool :=
  let func := default "" (call_function_signature c) in
  existsb (fun imp_func => PyStr.contains imp_func func) important_functions.

Definition call_paths (calls : list CallEntry) (max_paths : nat) : list (list CallEntry) :=
  let deepest :=
    match calls with
    | [] => []
    | c :: cs =>
        let max_depth := fold_left Z.max (map call_depth_of cs) (call_depth_of c) in
        [take 3 (List.filter (fun c' => call_depth_of c' =? max_depth) calls)]
    end in
  let paths :=
    fold_left (fun paths call =>
                 if is_important_call call then
                   if (length paths <? max_paths)%nat then paths ++ [[call]] else paths
                 else paths)
              calls deepest in
  take max_paths paths.

Definition extract_call_paths (max_paths : nat) : M (list (list CallEntry)) :=
  self ← get_self;
  match graph self, trace_data self with
  | Some _, Some _ =>
      trace_summary ← get_trace_summary;
      mret (call_paths (default [] (summary_calls trace_summary)) max_paths)
  | _, _ => mret []
  end.

(** ** [generate_description] *)

Section Description.

(** The order in which CPython iterates a [set] of [str] built by the
    given sequence of distinct insertions. It is fixed within one process
    by the string hash seed. *)
Variable set_iter : list string -> list string.

Local Open Scope string_scope.

(** [x if x else y] on an optional name *)
Definition name_or (name : option string) (fallback : string) : string :=
  match name with
  | Some s => if bool_decide (s = "") then fallback else s
  | None => fallback
  end.

(** [s.add(x)], the set kept as its sequence of distinct insertions *)
Definition set_add (x : string) (s : list string) : list string :=
  if bool_decide (x ∈ s) then s else (s ++ [x])%list.

(** [d[k].add(x)] on a [defaultdict(set)] *)
Fixpoint dset_add (k x : string) (d : list (string * list string))
  : list (string * list string) :=
  match d with
  | [] => [(k, [x])]
  | (k', s) :: d' => if bool_decide (k' = k) then (k', set_add x s) :: d'
                     else (k', s) :: dset_add k x d'
  end.

(** [d.get(k, set())] *)
Fixpoint dset_get (k : string) (d : list (string * list string)) : list string :=
  match d with
  | [] => []
  | (k', s) :: d' => if bool_decide (k' = k) then s else dset_get k d'
  end.

(** The loop filling [function_calls] and [address_functions]. *)
Definition count_call (acc : Counter * list (string * list string)) (call : CallEntry)
  : Counter * list (string * list string) :=
  let func := call_function call in
  if (bool_decide (func = "") || bool_decide (func = "unknown"))%bool then acc
  else
    let func_name := function_name func in
    let function_calls := counter_incr func_name (fst acc) in
    let to_addr_call := to_addr call in
    if bool_decide (to_addr_call = "") then (function_calls, snd acc)
    else (function_calls, dset_add to_addr_call func_name (snd acc)).

Definition describe_function (p : string * Z) : string :=
  let (func_name, count) := p in
  match identify_function_semantic func_name with
  | Some func_semantic =>
      if bool_decide (func_semantic = "") then func_name ++ " (" ++ PyStr.of_int count ++ "次)"
      else func_name ++ " (" ++ func_semantic ++ ", " ++ PyStr.of_int count ++ "次)"
  | None => func_name ++ " (" ++ PyStr.of_int count ++ "次)"
  end.

Definition describe_type (p : string * Z) : string :=
  let (call_type, count) := p in call_type ++ " " ++ PyStr.of_int count ++ " 次".

Definition func_info_of (address_functions : list (string * list string)) (node : string)
  : string :=
  let funcs := dset_get (PyStr.lower node) address_functions in
  match funcs with
  | [] => ""
  | _ => "，调用函数：" ++ PyStr.join ", " (take 3 (set_iter funcs))
  end.

Definition describe_central (address_functions : list (string * list string))
    (p : string * Z) : string :=
  let (node, count) := p in
  match identify_contract node with
  | Some contract_name =>
      if bool_decide (contract_name = "") then
        let short_addr :=
          if (18 <? String.length node)%nat
          then PyStr.slice_to 10 node ++ "..." ++ PyStr.slice_last 8 node else node in
        "合约 " ++ short_addr ++ " (" ++ node ++ ")（被调用 " ++ PyStr.of_int count ++ " 次"
          ++ func_info_of address_functions node ++ "）"
      else
        contract_name ++ " (" ++ node ++ ")（被调用 " ++ PyStr.of_int count ++ " 次"
          ++ func_info_of address_functions node ++ "）"
  | None =>
      let short_addr :=
        if (18 <? String.length node)%nat
        then PyStr.slice_to 10 node ++ "..." ++ PyStr.slice_last 8 node else node in
      "合约 " ++ short_addr ++ " (" ++ node ++ ")（被调用 " ++ PyStr.of_int count ++ " 次"
        ++ func_info_of address_functions node ++ "）"
  end.

Definition describe_path (first_call : CallEntry) : string :=
  let from_p := PyStr.slice_to 10 (default "" (call_from first_call)) ++ "..." in
  let to_p := PyStr.slice_to 10 (default "" (call_to first_call)) ++ "..." in
  let func_p := default "unknown" (call_function_signature first_call) in
  let func_name_p := function_name func_p in
  let depth_p := call_depth_of first_call in
  let to_contract_p := identify_contract (default "" (call_to first_call)) in
  let to_desc_p := name_or to_contract_p to_p in
  from_p ++ " -> " ++ to_desc_p ++ " 调用 " ++ func_name_p
    ++ " (深度 " ++ PyStr.of_int depth_p ++ ")".

(** The names collected in [delegatecall_info]. *)
Definition delegatecall_targets (calls : list CallEntry) : list string :=
  flat_map (fun call =>
              if bool_decide (call_type call = Some "DELEGATECALL") then
                match identify_contract (default "" (call_to call)) with
                | Some contract_dc => if bool_decide (contract_dc = "") then [] else [contract_dc]
                | None => []
                end
              else [])
           calls.

(** [from_addr, to_addr] of the initiating call. *)
Definition initiator (d : TraceDocument) : string * string :=
  let original_tx := default {| tx_from := None; tx_to := None; tx_other_keys := false |}
                             (doc_original_transaction d) in
  let trace_info := default {| tx_from := None; tx_to := None; tx_other_keys := false |}
                            (doc_trace d) in
  if txinfo_truthy original_tx then
    (default "unknown" (tx_from original_tx), default "unknown" (tx_to original_tx))
  else if txinfo_truthy trace_info then
    (default "unknown" (tx_from trace_info), default "unknown" (tx_to trace_info))
  else
    match calls_of d with
    | first_call :: _ =>
        (default "unknown" (call_from first_call), default "unknown" (call_to first_call))
    | [] => ("unknown", "unknown")
    end.

(** The text assembled by [generate_description] once the graph, the
    document, the metrics and the call paths are at hand. *)
Definition description_text (g : MultiDiGraph) (d : TraceDocument)
    (graph_depth graph_breadth : Z) (central_nodes : list (string * Z))
    (call_paths : list (list CallEntry)) : string :=
  let num_nodes := nx.number_of_nodes g in
  let num_edges := nx.number_of_edges g in
  let '(from_addr, to_addr) := initiator d in
  let from_contract := identify_contract from_addr in
  let to_contract := identify_contract to_addr in
  let from_desc := name_or from_contract ("地址 " ++ from_addr) in
  let to_desc := name_or to_contract ("合约 " ++ to_addr) in
  let part_start :=
    ["该提案启动后，首先由 " ++ from_desc ++ " (" ++ from_addr ++ ") 调用了 "
       ++ to_desc ++ " (" ++ to_addr ++ ")。"] in
  let calls := calls_of d in
  let '(function_calls, address_functions) := fold_left count_call calls ([], []) in
  let part_functions :=
    match function_calls with
    | [] => []
    | _ =>
        match map describe_function (most_common 5 function_calls) with
        | [] => []
        | important => ["关键函数调用包括：" ++ PyStr.join ", " important ++ "。"]
        end
    end in
  let call_types :=
    fold_left (fun c e => counter_incr (attr_type (e_attrs e)) c) (nx.edges_data g) [] in
  let part_types :=
    match call_types with
    | [] => []
    | _ => ["调用类型包括：" ++ PyStr.join ", " (map describe_type call_types) ++ "。"]
    end in
  let part_central :=
    match central_nodes with
    | [] => []
    | _ => ["中心节点为："
              ++ PyStr.join ", " (map (describe_central address_functions) central_nodes)
              ++ "。"]
    end in
  let part_structure :=
    ["共涉及 " ++ PyStr.of_int num_nodes ++ " 个节点的 " ++ PyStr.of_int num_edges
       ++ " 次交互，" ++ "图的最大深度为 " ++ PyStr.of_int graph_depth
       ++ "，最大宽度为 " ++ PyStr.of_int graph_breadth ++ "。"] in
  let part_paths :=
    match flat_map (fun path => match path with
                                | first_call :: _ => [describe_path first_call]
                                | [] => []
                                end) call_paths with
    | [] => []
    | path_descriptions => ["关键调用路径：" ++ PyStr.join "; " path_descriptions ++ "。"]
    end in
  let part_delegatecall :=
    if counter_has "DELEGATECALL" call_types then
      match delegatecall_targets calls with
      | [] => ["该提案使用了 DELEGATECALL 机制，表明存在代理合约模式，"
                 ++ "核心逻辑通过委托调用触达实现合约。"]
      | delegatecall_info =>
          ["该提案使用了 DELEGATECALL 机制，涉及 "
             ++ PyStr.join ", " (set_iter (nx.first_seen ∅ delegatecall_info)) ++ "，"
             ++ "表明存在代理合约模式，核心逻辑通过委托调用触达实现合约。"]
      end
    else [] in
  let part_staticcall :=
    if counter_has "STATICCALL" call_types
    then ["该提案包含 STATICCALL 调用，用于读取合约状态而不修改链上数据。"]
    else [] in
  let has_exec_transaction :=
    existsb (fun call => PyStr.contains "execTransaction"
                           (default "" (call_function_signature call))) calls in
  let has_propose :=
    existsb (fun call => PyStr.contains "propose"
                           (PyStr.lower (default "" (call_function_signature call)))) calls in
  let part_governance :=
    if (has_exec_transaction && has_propose)%bool then
      ["执行轨迹显示这是标准的 DAO 治理流程：通过多签钱包（Gnosis Safe）执行交易，"
         ++ "调用 Governor 合约创建提案。这是提案创建阶段，而非提案执行阶段。"]
    else if has_exec_transaction then
      ["执行轨迹包含多签执行（execTransaction），表明这是通过多签钱包发起的操作。"]
    else if has_propose then
      ["执行轨迹包含提案创建（propose），表明这是 DAO 治理提案的创建流程。"]
    else [] in
  PyStr.join " "
    (part_start ++ part_functions ++ part_types ++ part_central ++ part_structure
       ++ part_paths ++ part_delegatecall ++ part_staticcall ++ part_governance)%list.

Definition generate_description : M string :=
  self ← get_self;
  match graph self with
  | None => not_built
  | Some g =>
      d ← match trace_data self with
          | None => load_trace_report
          | Some d => mret d
          end;
      graph_depth ← calculate_graph_depth;
      graph_breadth ← calculate_graph_breadth;
      central_nodes ← identify_central_nodes 5;
      call_paths ← extract_call_paths 2;
      mret (description_text g d graph_depth graph_breadth central_nodes call_paths)
  end.

End Description.

(** ** Call-tree flattening of the simulator ([src/simulator/simulator.py]) *)

(** A numeric field of a tracer node: a number, or a decimal or [0x]
    hexadecimal string. *)
Inductive RawNum :=
| RawInt (n : Z)
| RawStr (s : string).

(** A node of the nested [callTracer] result. *)
Inductive TraceNode := mkTraceNode {
  node_type : option string;
  node_from : option string;
  node_to : option string;
  node_value : option RawNum;
  node_input : option string;
  node_output : option string;
  node_gasUsed : option RawNum;
  node_gas : option RawNum;
  node_error : option string;
  node_calls : option (list TraceNode)
}.

(** An entry of [calls] in [extract_calls_and_transfers]. *)
Record CallInfo := {
  ci_type : string;
  ci_from : string;
  ci_to : string;
  ci_value : Z;
  ci_input : string;
  ci_output : string;
  ci_gas_used : Z;
  ci_depth : Z;
  ci_error : option string
}.

(** An entry of [transfers]; the floating-point [value_eth] is left out. *)
Record TransferInfo := {
  ti_from : string;
  ti_to : string;
  ti_value : Z;
  ti_call_type : string;
  ti_depth : Z
}.

(** An entry of the list returned by [_extract_calls_from_call_tracer]. *)
Record TracedCall := {
  tc_type : string;
  tc_from : string;
  tc_to : string;
  tc_value : string;
  tc_input : string;
  tc_function_selector : string;
  tc_function_signature : string;
  tc_gas : string;
  tc_depth : Z
}.

(** The summary returned by [extract_calls_and_transfers], without its
    floating-point total. *)
Record TraceSummary := {
  ts_total_calls : Z;
  ts_total_transfers : Z;
  ts_total_value_transferred : Z;
  ts_calls : list CallInfo;
  ts_transfers : list TransferInfo
}.

(** What the simulator hands to its logger. *)
Inductive LogLevel := DEBUG | INFO | WARNING | ERROR.

Record LogRecord := {
  log_level : LogLevel;
  log_message : string
}.

Definition is_ascii_digit (c : ascii) : bool :=
  let n := nat_of_ascii c in ((48 <=? n)%nat && (n <=? 57)%nat)%bool.

(** [s.isdigit()] on ASCII text *)
Definition isdigit (s : string) : bool :=
  (negb (bool_decide (s = "")) && forallb is_ascii_digit (list_ascii_of_string s))%bool.

Section Tracer.

(** Python's [int(s, base)]; [None] stands for its [ValueError]. *)
Variable py_int : Z -> string -> option Z.

(** [resolve_function_signature], which consults a table and a web
    service. *)
Variable resolve_function_signature : string -> string.

Definition invalid_literal {A} : Result A :=
  Raise (ValueError "invalid literal for int()").

(** [int(raw, 16) if raw.startswith("0x") else int(raw)] for a string,
    the number itself otherwise *)
Definition parse_num (raw : RawNum) : option Z :=
  match raw with
  | RawInt n => Some n
  | RawStr s => if PyStr.startswith "0x" s then py_int 16 s else py_int 10 s
  end.

(** The [gas] field of [traverse]: strings that are neither hexadecimal nor
    all digits count as 0. *)
Definition parse_gas (raw : RawNum) : option Z :=
  match raw with
  | RawInt n => Some n
  | RawStr s => if PyStr.startswith "0x" s then py_int 16 s
                else if isdigit s then py_int 10 s else Some 0
  end.

Definition call_kinds : list string := ["CALL"; "DELEGATECALL"; "STATICCALL"; "CALLCODE"].
Definition traced_kinds : list string := ["CALL"; "STATICCALL"; "DELEGATECALL"].

(** [traverse_trace] of [extract_calls_and_transfers], threading the two
    output lists. *)
Fixpoint traverse_trace (node : TraceNode) (depth : Z)
    (acc : list CallInfo * list TransferInfo) {struct node}
  : Result (list CallInfo * list TransferInfo) :=
  if 50 <? depth then Ok acc
  else
    match node with
    | mkTraceNode type from to value_raw input output gas_used_raw _ error children =>
        let call_type := default "" type in
        let from_addr := default "" from in
        let to_addr := default "" to in
        match parse_num (default (RawStr "0x0") value_raw) with
        | None => invalid_literal
        | Some value =>
            let input_data := default "0x" input in
            let output_data := default "0x" output in
            match parse_num (default (RawStr "0x0") gas_used_raw) with
            | None => invalid_literal
            | Some gas_used =>
                let acc1 :=
                  if bool_decide (call_type ∈ call_kinds) then
                    let call_info :=
                      {| ci_type := call_type; ci_from := from_addr; ci_to := to_addr;
                         ci_value := value; ci_input := input_data;
                         ci_output := output_data; ci_gas_used := gas_used;
                         ci_depth := depth; ci_error := error |} in
                    (fst acc ++ [call_info],
                     if 0 <? value then
                       snd acc ++ [{| ti_from := from_addr; ti_to := to_addr;
                                      ti_value := value; ti_call_type := call_type;
                                      ti_depth := depth |}]
                     else snd acc)
                  else acc in
                match children with
                | None => Ok acc1
                | Some calls =>
                    (fix each (l : list TraceNode) (a : list CallInfo * list TransferInfo)
                       : Result (list CallInfo * list TransferInfo) :=
                       match l with
                       | [] => Ok a
                       | child :: l' =>
                           match traverse_trace child (depth + 1) a with
                           | Ok a' => each l' a'
                           | Raise e => Raise e
                           end
                       end) calls acc1
                end
            end
        end
    end.

(** [extract_calls_and_transfers], with the records it sends to the logger:
    one [info] line after the traversal; the traversal itself logs nothing. *)
Definition extract_calls_and_transfers (trace : TraceNode)
  : Result TraceSummary * list LogRecord :=
  match traverse_trace trace 0 ([], []) with
  | Ok (calls, transfers) =>
      (Ok {| ts_total_calls := Z.of_nat (length calls);
             ts_total_transfers := Z.of_nat (length transfers);
             ts_total_value_transferred := fold_left Z.add (map ti_value transfers) 0;
             ts_calls := calls;
             ts_transfers := transfers |},
       [{| log_level := INFO;
           log_message := ("提取完成: " ++ PyStr.of_int (Z.of_nat (length calls))
                             ++ " 个调用, " ++ PyStr.of_int (Z.of_nat (length transfers))
                             ++ " 个转账")%string |}])
  | Raise e => (Raise e, [])
  end.

(** [traverse] of [_extract_calls_from_call_tracer], threading the output
    list. *)
Fixpoint traverse (node : TraceNode) (depth : Z) (acc : list TracedCall) {struct node}
  : Result (list TracedCall) :=
  match node with
  | mkTraceNode type from to value_raw input _ _ gas_raw _ children =>
      let call_type := default "" type in
      let step : Result (list TracedCall) :=
        if bool_decide (call_type ∈ traced_kinds) then
          match parse_num (default (RawStr "0x0") value_raw) with
          | None => invalid_literal
          | Some value =>
              let input_data := default "0x" input in
              let function_selector :=
                if (10 <=? String.length input_data)%nat
                then PyStr.slice_to 10 input_data else "0x" in
              let function_signature := resolve_function_signature function_selector in
              match parse_gas (default (RawStr "0") gas_raw) with
              | None => invalid_literal
              | Some gas =>
                  Ok (acc ++ [{| tc_type := call_type;
                                 tc_from := default "" from;
                                 tc_to := default "" to;
                                 tc_value := PyStr.of_int value;
                                 tc_input := input_data;
                                 tc_function_selector := function_selector;
                                 tc_function_signature := function_signature;
                                 tc_gas := PyStr.of_int gas;
                                 tc_depth := depth |}])
              end
          end
        else Ok acc in
      match step with
      | Raise e => Raise e
      | Ok acc1 =>
          match children with
          | None => Ok acc1
          | Some calls =>
              (fix each (l : list TraceNode) (a : list TracedCall)
                 : Result (list TracedCall) :=
                 match l with
                 | [] => Ok a
                 | child :: l' =>
                     match traverse child (depth + 1) a with
                     | Ok a' => each l' a'
                     | Raise e => Raise e
                     end
                 end) calls acc1
          end
      end
  end.

(** [_extract_calls_from_call_tracer] *)
Definition _extract_calls_from_call_tracer (trace : TraceNode) : Result (list TracedCall) :=
  traverse trace 0 [].

End Tracer.

(** The tree cut below nesting depth [k]: nodes at depth [k] lose their
    children. *)
Fixpoint prune (k : nat) (node : TraceNode) {struct k} : TraceNode :=
  match node with
  | mkTraceNode type from to value input output gas_used gas error children =>
      mkTraceNode type from to value input output gas_used gas error
        match children with
        | None => None
        | Some calls => Some match k with
                             | O => []
                             | S k' => map (prune k') calls
                             end
        end
  end.

(** The nesting depth of the deepest node. *)
Fixpoint nesting (node : TraceNode) : nat :=
  match node with
  | mkTraceNode _ _ _ _ _ _ _ _ _ children =>
      match children with
      | None => O
      | Some calls =>
          (fix deepest (l : list TraceNode) : nat :=
             match l with
             | [] => O
             | child :: l' => Nat.max (S (nesting child)) (deepest l')
             end) calls
      end
  end.

(** A chain of [n + 1] nested [CALL] nodes, the innermost at nesting depth
    [n]. *)
Fixpoint nested_calls (n : nat) : TraceNode :=
  {| node_type := Some "CALL"; node_from := Some "0xa"; node_to := Some "0xb";
     node_value := Some (RawInt 0); node_input := None; node_output := None;
     node_gasUsed := Some (RawInt 0); node_gas := Some (RawInt 0); node_error := None;
     node_calls := match n with
                   | O => None
                   | S k => Some [nested_calls k]
                   end |}.

(** ** [resolve_function_signature] of the simulator *)

Definition COMMON_FUNCTION_SIGNATURES : Dict := [
  ("0xa9059cbb", "transfer(address,uint256)");
  ("0x23b872dd", "transferFrom(address,address,uint256)");
  ("0x095ea7b3", "approve(address,uint256)");
  ("0x40c10f19", "mint(address,uint256)");
  ("0x42966c68", "burn(uint256)");
  ("0xbc86e06b", "execute(address,uint256,bytes)");
  ("0x5c60da1b", "implementation()");
  ("0x8da5cb5b", "owner()");
  ("0x715018a6", "renounceOwnership()");
  ("0xf2fde38b", "transferOwnership(address)");
  ("0x70a08231", "balanceOf(address)");
  ("0x18160ddd", "totalSupply()");
  ("0x06fdde03", "name()");
  ("0x95d89b41", "symbol()");
  ("0x313ce567", "decimals()");
  ("0xdd62ed3e", "allowance(address,address)");
  ("0x4e71e0c8", "claim()");
  ("0x379607f5", "claimable(address)");
  ("0x2e1a7d4d", "withdraw(uint256)");
  ("0x3d18b912", "getReward()");
  ("0x5c975abb", "paused()");
  ("0x8456cb59", "pause()");
  ("0x3f4ba83a", "unpause()")
].

(** What is read of an answer of the 4byte.directory service: the status
    code and, of the JSON body, the [count] key and the [text_signature]
    key of every entry of [results]. *)
Record ApiResponse := {
  status_code : Z;
  body_count : option Z;
  body_results : option (list (option string))
}.

(** [s[n:]] *)
Definition slice_from (n : nat) (s : string) : string :=
  String.substring n (String.length s - n) s.

Section Resolver.

(** [requests.get(api_url, timeout=5)] followed by [response.json()];
    [None] stands for any exception raised inside the [try] block. *)
Variable requests_get : string -> option ApiResponse.

Definition resolve_function_signature (function_selector : string) : string :=
  if (bool_decide (function_selector = "") || bool_decide (function_selector = "0x")
      || (String.length function_selector <? 10)%nat)%bool
  then function_selector
  else
    let selector := PyStr.lower (PyStr.slice_to 10 function_selector) in
    match dict_get selector COMMON_FUNCTION_SIGNATURES with
    | Some signature => signature
    | None =>
        let selector_hex :=
          if PyStr.startswith "0x" selector then slice_from 2 selector else selector in
        let api_url :=
          ("https://www.4byte.directory/api/v1/signatures/?hex_signature=" ++ selector_hex)%string in
        match requests_get api_url with
        | Some response =>
            if status_code response =? 200 then
              if 0 <? default 0 (body_count response) then
                match default [] (body_results response) with
                | first :: _ => default selector first
                | [] => selector
                end
              else selector
            else selector
        | None => selector
        end
    end.

End Resolver.

(** * Properties *)

(** ** Graph construction *)

(** The two endpoints of a call, canonicalised. *)
Definition endpoints (c : CallEntry) : list string := [from_addr c; to_addr c].

(** The entry carries a non-empty [from] and a non-empty [to]. *)
Definition has_endpoints (c : CallEntry) : Prop :=
  default "" (call_from c) ≠ "" /\ default "" (call_to c) ≠ "".

(** The entries the loop does not skip. *)
Definition kept (calls : list CallEntry) : list CallEntry :=
  List.filter (fun c => negb (bool_decide (from_addr c = "") || bool_decide (to_addr c = "")))
              calls.

(** What an edge carries besides its key. *)
Definition edge_data (e : Edge) : string * string * EdgeAttrs := (e_from e, e_to e, e_attrs e).
Definition call_data (c : CallEntry) : string * string * EdgeAttrs :=
  (from_addr c, to_addr c, edge_attrs_of c).

(** The handle by which networkx addresses one edge. *)
Definition edge_id (e : Edge) : string * string * nat := (e_from e, e_to e, e_key e).

Definition same_pair (e e' : Edge) : bool :=
  (bool_decide (e_from e' = e_from e) && bool_decide (e_to e' = e_to e))%bool.

(** Every edge's key counts the earlier edges between the same ordered pair. *)
Definition keys_count (l : list Edge) : Prop :=
  forall i e, l !! i = Some e -> e_key e = length (List.filter (same_pair e) (take i l)).

(** Nodes are distinct and every edge joins two nodes. *)
Definition well_formed (g : MultiDiGraph) : Prop :=
  NoDup (nodes g) /\ forall e, e ∈ edges g -> e_from e ∈ nodes g /\ e_to e ∈ nodes g.

Lemma first_seen_app seen l1 l2 :
  nx.first_seen seen (l1 ++ l2)
  = nx.first_seen seen l1 ++ nx.first_seen (list_to_set l1 ∪ seen) l2.
Proof.
  revert seen. induction l1 as [|x l1 IH]; intros seen; simpl.
  - f_equal. set_solver.
  - destruct (bool_decide (x ∈ seen)) eqn:Hx.
    + apply bool_decide_eq_true in Hx. rewrite IH. do 2 f_equal. set_solver.
    + simpl. rewrite IH. do 3 f_equal. set_solver.
Qed.

Lemma first_seen_elem seen l x : x ∈ nx.first_seen seen l <-> x ∈ l /\ x ∉ seen.
Proof.
  revert seen. induction l as [|y l IH]; intros seen; simpl.
  - split; [intros H; inversion H|intros [H _]; inversion H].
  - destruct (bool_decide (y ∈ seen)) eqn:Hy.
    + apply bool_decide_eq_true in Hy. rewrite IH, elem_of_cons. naive_solver.
    + apply bool_decide_eq_false in Hy.
      rewrite !elem_of_cons, IH, elem_of_union, elem_of_singleton.
      destruct (decide (x = y)) as [->|Hne]; naive_solver.
Qed.

Lemma first_seen_NoDup seen l : NoDup (nx.first_seen seen l).
Proof.
  revert seen. induction l as [|y l IH]; intros seen; simpl; [constructor|].
  destruct (bool_decide (y ∈ seen)); [apply IH|].
  apply NoDup_cons. split; [|apply IH]. rewrite first_seen_elem. set_solver.
Qed.

Lemma first_seen_length l :
  length (nx.first_seen ∅ l) = size (list_to_set l : gset string).
Proof.
  assert (H : (list_to_set l : gset string) = list_to_set (nx.first_seen ∅ l)).
  { apply set_eq. intros x. rewrite !elem_of_list_to_set, first_seen_elem. set_solver. }
  rewrite H, size_list_to_set; [reflexivity|apply first_seen_NoDup].
Qed.

Lemma add_node_nodes g n :
  nodes (nx.add_node g n) = nodes g ++ nx.first_seen (list_to_set (nodes g)) [n].
Proof.
  unfold nx.add_node, nx.has_node. simpl.
  destruct (decide (n ∈ nodes g)) as [Hin|Hnin].
  - rewrite !bool_decide_eq_true_2 by set_solver. rewrite app_nil_r. reflexivity.
  - rewrite !bool_decide_eq_false_2 by set_solver. reflexivity.
Qed.

Lemma add_node_edges g n : edges (nx.add_node g n) = edges g.
Proof. unfold nx.add_node. destruct (nx.has_node g n); reflexivity. Qed.

Lemma add_node_present g n : n ∈ nodes g -> nx.add_node g n = g.
Proof.
  intros H. unfold nx.add_node, nx.has_node. rewrite bool_decide_eq_true_2 by exact H.
  reflexivity.
Qed.

Lemma add_call_skip g c :
  (bool_decide (from_addr c = "") || bool_decide (to_addr c = ""))%bool = true ->
  add_call g c = g.
Proof. intros H. unfold add_call. rewrite H. reflexivity. Qed.

Lemma add_call_kept g c :
  (bool_decide (from_addr c = "") || bool_decide (to_addr c = ""))%bool = false ->
  nodes (add_call g c) = nodes g ++ nx.first_seen (list_to_set (nodes g)) (endpoints c)
  /\ edges (add_call g c)
     = edges g ++ [{| e_from := from_addr c; e_to := to_addr c;
                      e_key := length (nx.between g (from_addr c) (to_addr c));
                      e_attrs := edge_attrs_of c |}].
Proof.
  intros H. unfold add_call. rewrite H.
  set (f := from_addr c). set (t := to_addr c).
  set (g1 := if nx.has_node g f then g else nx.add_node g f).
  set (g2 := if nx.has_node g1 t then g1 else nx.add_node g1 t).
  assert (H1 : g1 = nx.add_node g f).
  { unfold g1, nx.add_node. destruct (nx.has_node g f); reflexivity. }
  assert (H2 : g2 = nx.add_node g1 t).
  { unfold g2, nx.add_node. destruct (nx.has_node g1 t); reflexivity. }
  assert (Hn2 : nodes g2 = nodes g ++ nx.first_seen (list_to_set (nodes g)) [f; t]).
  { rewrite H2, add_node_nodes, H1, add_node_nodes, <- app_assoc. f_equal.
    change [f; t] with ([f] ++ [t]). rewrite first_seen_app. f_equal.
    f_equal. rewrite list_to_set_app_L.
    assert (Hfs : (list_to_set (nx.first_seen (list_to_set (nodes g)) [f]) : gset string)
                  ∪ list_to_set (nodes g) = list_to_set [f] ∪ list_to_set (nodes g)).
    { apply set_eq. intros x.
      rewrite !elem_of_union, !elem_of_list_to_set, first_seen_elem, elem_of_list_to_set.
      destruct (decide (x ∈ nodes g)); set_solver. }
    set_solver. }
  assert (Hf : f ∈ nodes g2).
  { rewrite Hn2, elem_of_app, first_seen_elem, elem_of_list_to_set.
    destruct (decide (f ∈ nodes g)); [left|right]; set_solver. }
  assert (Ht : t ∈ nodes g2).
  { rewrite Hn2, elem_of_app, first_seen_elem, elem_of_list_to_set.
    destruct (decide (t ∈ nodes g)); [left|right]; set_solver. }
  assert (He2 : edges g2 = edges g) by (rewrite H2, add_node_edges, H1, add_node_edges; reflexivity).
  unfold nx.add_edge. rewrite (add_node_present g2 f Hf), (add_node_present g2 t Ht).
  simpl. split; [exact Hn2|]. unfold nx.between. rewrite He2. reflexivity.
Qed.

Lemma fold_add_call_kept calls g :
  fold_left add_call calls g = fold_left add_call (kept calls) g.
Proof.
  revert g. induction calls as [|c calls IH]; intros g; simpl; [reflexivity|].
  destruct (bool_decide (from_addr c = "") || bool_decide (to_addr c = ""))%bool eqn:Hc; simpl.
  - rewrite add_call_skip by exact Hc. apply IH.
  - apply IH.
Qed.

Lemma kept_valid calls : Forall (fun c => from_addr c ≠ "" /\ to_addr c ≠ "") (kept calls).
Proof.
  apply Forall_forall. intros c Hc. apply list_elem_of_In, filter_In in Hc as [_ Hc].
  apply negb_true_iff, orb_false_iff in Hc as [H1 H2].
  apply bool_decide_eq_false in H1, H2. auto.
Qed.

Lemma kept_all calls : Forall has_endpoints calls -> kept calls = calls.
Proof.
  induction 1 as [|c calls [Hf Ht] _ IH]; simpl; [reflexivity|].
  unfold from_addr, to_addr.
  rewrite !bool_decide_eq_false_2 by (rewrite PyStr.lower_empty; assumption).
  simpl. f_equal. exact IH.
Qed.

Lemma keys_count_snoc l e :
  keys_count l -> e_key e = length (List.filter (same_pair e) l) -> keys_count (l ++ [e]).
Proof.
  intros Hl He i e' Hi.
  destruct (decide (i < length l)%nat) as [Hlt|Hge].
  - rewrite lookup_app_l in Hi by exact Hlt.
    rewrite take_app_le by lia. apply Hl. exact Hi.
  - rewrite lookup_app_r in Hi by lia.
    destruct (i - length l)%nat eqn:Hd; simpl in Hi; [|destruct n; discriminate].
    injection Hi as <-. assert (i = length l) as -> by lia.
    rewrite take_app_length. exact He.
Qed.

Lemma fold_add_call_spec calls g :
  Forall (fun c => from_addr c ≠ "" /\ to_addr c ≠ "") calls ->
  nodes (fold_left add_call calls g)
  = nodes g ++ nx.first_seen (list_to_set (nodes g)) (flat_map endpoints calls)
  /\ (exists new, edges (fold_left add_call calls g) = edges g ++ new
                  /\ map edge_data new = map call_data calls)
  /\ (keys_count (edges g) -> keys_count (edges (fold_left add_call calls g))).
Proof.
  intros Hall. revert g. induction Hall as [|c calls [Hf Ht] _ IH]; intros g.
  - simpl. rewrite app_nil_r. split; [reflexivity|]. split; [|auto].
    exists []. rewrite app_nil_r. auto.
  - change (flat_map endpoints (c :: calls)) with (endpoints c ++ flat_map endpoints calls).
    cbn [fold_left].
    assert (Hc : (bool_decide (from_addr c = "") || bool_decide (to_addr c = ""))%bool = false).
    { rewrite !bool_decide_eq_false_2 by assumption. reflexivity. }
    destruct (add_call_kept g c Hc) as [Hn He].
    destruct (IH (add_call g c)) as (IHn & (new & IHe & IHd) & IHk).
    split; [|split].
    + rewrite IHn, Hn, <- app_assoc. f_equal.
      rewrite first_seen_app. f_equal. f_equal. rewrite list_to_set_app_L.
      apply set_eq. intros x.
      rewrite !elem_of_union, !elem_of_list_to_set, first_seen_elem, elem_of_list_to_set.
      destruct (decide (x ∈ nodes g)); set_solver.
    + eexists (_ :: new). rewrite IHe, He, <- app_assoc. split; [reflexivity|].
      simpl. rewrite IHd. reflexivity.
    + intros Hk. apply IHk. rewrite He. apply keys_count_snoc; [exact Hk|]. reflexivity.
Qed.

Lemma filter_take_mono {A} (f : A -> bool) (l : list A) i j :
  (i <= j)%nat -> (length (List.filter f (take i l)) <= length (List.filter f (take j l)))%nat.
Proof.
  intros Hij. rewrite <- (take_drop i (take j l)), take_take, Nat.min_l by exact Hij.
  rewrite List.filter_app, length_app. lia.
Qed.

Lemma keys_count_NoDup l : keys_count l -> NoDup (map edge_id l).
Proof.
  intros Hk.
  assert (Hlt : forall i j ei ej, (i < j)%nat -> l !! i = Some ei -> l !! j = Some ej ->
                  edge_id ei = edge_id ej -> False).
  { intros i j ei ej Hij Hi Hj Heq. unfold edge_id in Heq.
    injection Heq as Hfrom Hto Hkey.
    pose proof (Hk i ei Hi) as Ki. pose proof (Hk j ej Hj) as Kj.
    pose proof (filter_take_mono (same_pair ej) l (S i) j Hij) as Hmono.
    rewrite (take_S_r l i ei Hi), List.filter_app, length_app in Hmono.
    assert (Hsame : same_pair ej ei = true).
    { unfold same_pair. rewrite !bool_decide_eq_true_2 by congruence. reflexivity. }
    simpl in Hmono. rewrite Hsame in Hmono. simpl in Hmono.
    assert (Hext : List.filter (same_pair ei) (take i l) = List.filter (same_pair ej) (take i l)).
    { apply List.filter_ext. intros e. unfold same_pair. rewrite Hfrom, Hto. reflexivity. }
    rewrite Hext in Ki. lia. }
  apply NoDup_alt. intros i j x Hi Hj.
  change (map edge_id l) with (edge_id <$> l) in Hi, Hj.
  apply list_lookup_fmap_Some in Hi as (ei & -> & Hi).
  apply list_lookup_fmap_Some in Hj as (ej & Heq & Hj).
  destruct (Nat.lt_trichotomy i j) as [H|[H|H]]; [|exact H|].
  - exfalso. eapply (Hlt i j); eauto.
  - exfalso. eapply (Hlt j i); eauto.
Qed.

Lemma keys_count_nil : keys_count [].
Proof. intros i e H. destruct i; discriminate. Qed.

(** Every graph the builder produces is well formed and has distinct edge
    handles, whatever the call list. *)
Lemma build_from_calls_fold calls : build_from_calls calls = fold_left add_call calls nx.empty.
Proof. destruct calls; reflexivity. Qed.

Lemma build_from_calls_spec calls :
  nodes (build_from_calls calls) = nx.first_seen ∅ (flat_map endpoints (kept calls))
  /\ map edge_data (edges (build_from_calls calls)) = map call_data (kept calls)
  /\ keys_count (edges (build_from_calls calls)).
Proof.
  rewrite build_from_calls_fold, fold_add_call_kept.
  destruct (fold_add_call_spec (kept calls) nx.empty (kept_valid calls))
    as (Hn & (new & He & Hd) & Hk).
  simpl in *. split; [|split].
  - rewrite Hn. f_equal.
  - rewrite He. exact Hd.
  - apply Hk, keys_count_nil.
Qed.

Lemma build_from_calls_well_formed calls : well_formed (build_from_calls calls).
Proof.
  destruct (build_from_calls_spec calls) as (Hn & He & _).
  split.
  - rewrite Hn. apply first_seen_NoDup.
  - intros e Hin.
    assert (Hd : edge_data e ∈ map call_data (kept calls)).
    { rewrite <- He. apply list_elem_of_In, in_map, list_elem_of_In, Hin. }
    apply list_elem_of_In, in_map_iff in Hd as (c & Hc & Hcin).
    unfold call_data, edge_data in Hc. injection Hc as Hf Ht _.
    rewrite Hn, !first_seen_elem.
    assert (Hsub : forall x, x ∈ endpoints c -> x ∈ flat_map endpoints (kept calls)).
    { intros x Hx. apply list_elem_of_In, in_flat_map. exists c.
      split; [exact Hcin|apply list_elem_of_In, Hx]. }
    split; (split; [apply Hsub; unfold endpoints; set_solver|set_solver]).
Qed.

(** The document [build_graph] works on: the one already loaded, or else
    the one stored at the builder's path. *)
Definition document_of (b : GraphBuilder) : option TraceDocument :=
  match trace_data b with
  | Some d => Some d
  | None => trace_report_file b
  end.

Lemma build_graph_loaded b d :
  document_of b = Some d ->
  build_graph b
  = (Ok (build_from_calls (calls_of d)),
     with_graph (with_trace_data b d) (build_from_calls (calls_of d))).
Proof.
  destruct b as [p f g [t|]]; unfold document_of; simpl.
  - intros [= ->]. reflexivity.
  - intros ->. reflexivity.
Qed.

(** C1. For a call sequence in which every entry has a non-empty [from] and
    a non-empty [to], [build_graph] returns a multigraph with exactly one
    edge per entry, in order and carrying that entry's data, parallel edges
    kept apart under distinct keys; its nodes are exactly the distinct
    lower-cased endpoints of the entries, which are also exactly the
    endpoints of its edges. *)
Theorem build_graph_nodes_and_edges (b : GraphBuilder) (d : TraceDocument) :
  document_of b = Some d ->
  Forall has_endpoints (calls_of d) ->
  exists g,
    build_graph b = (Ok g, with_graph (with_trace_data b d) g)
    /\ length (edges g) = length (calls_of d)
    /\ map edge_data (edges g) = map call_data (calls_of d)
    /\ NoDup (map edge_id (edges g))
    /\ NoDup (nodes g)
    /\ (forall a, a ∈ nodes g <->
                   exists c, c ∈ calls_of d /\ (a = from_addr c \/ a = to_addr c))
    /\ length (nodes g) = size (list_to_set (flat_map endpoints (calls_of d)) : gset string)
    /\ (forall a, a ∈ nodes g <-> exists e, e ∈ edges g /\ (a = e_from e \/ a = e_to e)).
Proof.
  intros Hd Hall. exists (build_from_calls (calls_of d)).
  split; [apply build_graph_loaded, Hd|].
  destruct (build_from_calls_spec (calls_of d)) as (Hn & He & Hk).
  rewrite (kept_all _ Hall) in Hn, He.
  assert (Hnodes : forall a, a ∈ nodes (build_from_calls (calls_of d)) <->
            exists c, c ∈ calls_of d /\ (a = from_addr c \/ a = to_addr c)).
  { intros a. rewrite Hn, first_seen_elem, list_elem_of_In, in_flat_map. split.
    - intros [(c & Hc & Ha) _]. exists c. split; [apply list_elem_of_In, Hc|].
      simpl in Ha. destruct Ha as [<-|[<-|[]]]; auto.
    - intros (c & Hc & Ha). split; [|set_solver]. exists c.
      split; [apply list_elem_of_In, Hc|]. simpl. destruct Ha as [-> | ->]; auto. }
  repeat split.
  - rewrite <- (length_map edge_data), He, length_map. reflexivity.
  - exact He.
  - apply keys_count_NoDup, Hk.
  - rewrite Hn. apply first_seen_NoDup.
  - apply Hnodes.
  - apply Hnodes.
  - rewrite Hn. apply first_seen_length.
  - intros Ha. apply Hnodes in Ha as (c & Hc & Ha).
    assert (Hin : call_data c ∈ map edge_data (edges (build_from_calls (calls_of d)))).
    { rewrite He. apply list_elem_of_In, in_map, list_elem_of_In, Hc. }
    apply list_elem_of_In, in_map_iff in Hin as (e & Hee & Hin).
    exists e. split; [apply list_elem_of_In, Hin|].
    unfold edge_data, call_data in Hee. injection Hee as H1 H2 _. rewrite H1, H2. exact Ha.
  - intros (e & Hin & Ha).
    destruct (build_from_calls_well_formed (calls_of d)) as [_ Hwf].
    destruct (Hwf e Hin) as [H1 H2]. destruct Ha as [-> | ->]; assumption.
Qed.

Definition example_call (from to : string) : CallEntry :=
  {| call_from := Some from; call_to := Some to; call_type := None;
     call_function_signature := None; call_function_selector := None;
     call_value := None; call_depth := None |}.

Definition example_document (calls : list CallEntry) : TraceDocument :=
  {| doc_trace_summary := Some {| summary_calls := Some calls; summary_other_keys := false |};
     doc_summary := None; doc_original_transaction := None; doc_trace := None |}.

Definition example_builder (calls : list CallEntry) : GraphBuilder :=
  {| trace_report_path := "data/traces/trace_report.json"; trace_report_file := None;
     graph := None; trace_data := Some (example_document calls) |}.

Lemma build_graph_nodes_and_edges_witness :
  exists g,
    build_graph (example_builder [example_call "0xA" "0xB"; example_call "0xa" "0xb"])
    = (Ok g, with_graph (example_builder [example_call "0xA" "0xB"; example_call "0xa" "0xb"]) g)
    /\ length (edges g) = 2%nat /\ length (nodes g) = 2%nat.
Proof.
  destruct (build_graph_nodes_and_edges
              (example_builder [example_call "0xA" "0xB"; example_call "0xa" "0xb"])
              (example_document [example_call "0xA" "0xB"; example_call "0xa" "0xb"]))
    as (g & Hg & He & _ & _ & _ & _ & Hn & _).
  - reflexivity.
  - repeat constructor; discriminate.
  - exists g. split; [exact Hg|]. split; [exact He|]. rewrite Hn. vm_compute. reflexivity.
Defined.


(** ** Depth and breadth: termination and range *)

(** Every queued node has a recorded depth, so [depths[current]] never
    raises. *)
Definition queue_recorded (s : DepthState) : Prop :=
  forall x, x ∈ queue s -> is_Some (depths s !! x).

Lemma relax_recorded g current cd s v :
  queue_recorded s -> queue_recorded (relax g current cd s v).
Proof.
  intros Hs. unfold relax. destruct (bool_decide (v = current)); [exact Hs|].
  destruct (bool_decide (v ∈ visited_in_path s) && (cd + 1 <=? default 0 (depths s !! v)))%bool;
    [exact Hs|].
  intros x Hx. simpl in *. destruct (decide (v = x)) as [->|Hne].
  - rewrite lookup_insert_eq. eauto.
  - rewrite lookup_insert_ne by exact Hne. apply Hs.
    destruct (bool_decide (v ∈ visited_in_path s)); [exact Hx|].
    apply elem_of_app in Hx as [Hx|Hx]; [exact Hx|].
    apply list_elem_of_singleton in Hx. congruence.
Qed.

Lemma relax_fold_recorded g current cd l s :
  queue_recorded s -> queue_recorded (fold_left (relax g current cd) l s).
Proof.
  revert s. induction l as [|v l IH]; intros s Hs; simpl; [exact Hs|].
  apply IH, relax_recorded, Hs.
Qed.

Lemma depth_body_recorded g current cd d rest v m :
  queue_recorded {| depths := d; queue := current :: rest; visited_in_path := v; max_depth := m |} ->
  queue_recorded (depth_body g current cd
    {| depths := d; queue := rest; visited_in_path := v; max_depth := m |}).
Proof.
  intros Hs. unfold depth_body. simpl.
  pose proof (relax_fold_recorded g current cd (nx.successors g current)
    {| depths := d; queue := rest; visited_in_path := {[current]} ∪ v; max_depth := m |}) as H.
  intros x Hx. simpl in *. apply H; [|exact Hx].
  intros y Hy. simpl in *. apply Hs. simpl. right. exact Hy.
Qed.

Lemma depth_body_max g current cd s :
  max_depth (depth_body g current cd s) = Z.max (max_depth s) cd.
Proof.
  unfold depth_body. simpl.
  destruct (relax_fold_queue g current cd (nx.successors g current)
    {| depths := depths s; queue := queue s;
       visited_in_path := {[current]} ∪ visited_in_path s; max_depth := max_depth s |})
    as (app & _ & _ & Hm & _).
  rewrite Hm. reflexivity.
Qed.

(** The loop only ever raises [max_depth]. *)
Lemma depth_while_max_ge g s : max_depth s <= max_depth (depth_while g s).
Proof.
  funelim (depth_while g s); simp depth_while; simpl.
  - lia.
  - match goal with IH : _ <= max_depth (depth_while _ _) |- _ =>
      etransitivity; [|exact IH] end.
    rewrite depth_body_max. simpl. lia.
  - lia.
Qed.

(** From a state whose queued nodes all have a recorded depth the loop runs
    until the queue is empty: the [except] clause is never taken. *)
Lemma depth_while_drains g s : queue_recorded s -> queue (depth_while g s) = [].
Proof.
  funelim (depth_while g s); simp depth_while; intros Hs.
  - reflexivity.
  - match goal with IH : queue_recorded _ -> _ |- _ => apply IH end.
    apply depth_body_recorded, Hs.
  - exfalso. destruct (Hs current) as [x Hx]; [left|]. simpl in Hx. congruence.
Qed.

Lemma depth_run_drains g start m : queue (depth_run g start m) = [].
Proof.
  apply depth_while_drains. intros x Hx. simpl in *.
  apply list_elem_of_singleton in Hx as ->. rewrite lookup_singleton_eq. eauto.
Qed.

Lemma fold_depth_ge g l m :
  m <= fold_left (fun m start_node => max_depth (depth_run g start_node m)) l m.
Proof.
  revert m. induction l as [|x l IH]; intros m; simpl; [lia|].
  etransitivity; [|apply IH].
  exact (depth_while_max_ge g {| depths := {[x := 0]}; queue := [x];
                                 visited_in_path := ∅; max_depth := m |}).
Qed.

Lemma graph_depth_nonneg g : 0 <= graph_depth g.
Proof.
  unfold graph_depth. destruct (nx.number_of_nodes g =? 0); [lia|]. apply fold_depth_ge.
Qed.

Lemma breadth_body_max g current level s :
  max_breadth s <= max_breadth (breadth_body g current level s).
Proof.
  unfold breadth_body. simpl.
  assert (H : forall l s0, max_breadth (fold_left (discover current level) l s0) = max_breadth s0).
  { induction l as [|x l IH]; intros s0; simpl; [reflexivity|]. rewrite IH.
    unfold discover. destruct (bool_decide (x = current)); [reflexivity|].
    destruct (bool_decide (x ∈ visited s0)); reflexivity. }
  rewrite H. lia.
Qed.

Lemma breadth_while_max_ge g s : max_breadth s <= max_breadth (breadth_while g s).
Proof.
  funelim (breadth_while g s); simp breadth_while; simpl.
  - lia.
  - match goal with IH : _ <= max_breadth (breadth_while _ _) |- _ =>
      etransitivity; [|exact IH] end.
    apply (breadth_body_max g current level
             {| levels := lv; visited := vis; level_queue := rest; max_breadth := m |}).
Qed.

Lemma breadth_while_drains g s : level_queue (breadth_while g s) = [].
Proof.
  funelim (breadth_while g s); simp breadth_while; auto.
Qed.

Lemma fold_breadth_ge g l m :
  m <= fold_left (fun m start_node => max_breadth (breadth_run g start_node m)) l m.
Proof.
  revert m. induction l as [|x l IH]; intros m; simpl; [lia|].
  etransitivity; [|apply IH].
  exact (breadth_while_max_ge g {| levels := {[0 := [x]]}; visited := {[x]};
                                   level_queue := [(x, 0)]; max_breadth := m |}).
Qed.

Lemma graph_breadth_nonneg g : 0 <= graph_breadth g.
Proof.
  unfold graph_breadth. destruct (nx.number_of_nodes g =? 0); [lia|]. apply fold_breadth_ge.
Qed.

(** A three-contract reentrancy cycle with a self-loop on one contract. *)
Definition reentrancy_cycle : MultiDiGraph :=
  build_from_calls [example_call "0xa" "0xb"; example_call "0xb" "0xc";
                    example_call "0xc" "0xc"; example_call "0xc" "0xa"].

(** C2. On every graph the model can hold, cyclic or not, with or without
    self-loops, [calculate_graph_depth] and [calculate_graph_breadth] return
    normally with non-negative integers. Both loops are total: each turn of
    the depth loop lowers [depth_measure] in the well-founded order [lexlt],
    each turn of the breadth loop lowers [breadth_measure], and every root's
    run ends with an empty work queue. On the reentrancy cycle
    a -> b -> c -> a with a self-loop on c they return 2 and 1. *)
Theorem depth_and_breadth_terminate (b : GraphBuilder) (g : MultiDiGraph) :
  calculate_graph_depth (with_graph b g) = (Ok (graph_depth g), with_graph b g)
  /\ calculate_graph_breadth (with_graph b g) = (Ok (graph_breadth g), with_graph b g)
  /\ 0 <= graph_depth g
  /\ 0 <= graph_breadth g
  /\ well_founded lexlt
  /\ (forall current current_depth d rest vis m,
        lexlt (depth_measure g (depth_body g current current_depth
                 {| depths := d; queue := rest; visited_in_path := vis; max_depth := m |}))
              (depth_measure g
                 {| depths := d; queue := current :: rest; visited_in_path := vis;
                    max_depth := m |}))
  /\ (forall current level lv vis rest m,
        (breadth_measure g (breadth_body g current level
           {| levels := lv; visited := vis; level_queue := rest; max_breadth := m |})
         < breadth_measure g
           {| levels := lv; visited := vis; level_queue := (current, level) :: rest;
              max_breadth := m |})%nat)
  /\ (forall start_node m, queue (depth_run g start_node m) = []
                            /\ level_queue (breadth_run g start_node m) = [])
  /\ graph_depth reentrancy_cycle = 2
  /\ graph_breadth reentrancy_cycle = 1.
Proof.
  split; [reflexivity|]. split; [reflexivity|].
  split; [apply graph_depth_nonneg|]. split; [apply graph_breadth_nonneg|].
  split; [apply lexlt_wf|].
  split; [intros; apply depth_body_decreases|].
  split; [intros; apply breadth_body_decreases|].
  split; [|split; vm_compute; reflexivity].
  intros start_node m. split; [apply depth_run_drains|apply breadth_while_drains].
Qed.

(** ** Depth against the recorded hop counts *)

(** The hop counts left in [depths] by the runs of all roots. *)
Definition recorded_depths (g : MultiDiGraph) : list Z :=
  flat_map (fun start_node => map snd (map_to_list (depths (depth_run g start_node 0))))
           (roots g).

(** The largest hop count recorded for any node in any root's run. *)
Definition max_recorded (g : MultiDiGraph) : Z := max_or_zero (recorded_depths g).

(** a calls b and c, and c calls b: the longest call chain a -> c -> b has
    two hops. *)
Definition diamond_calls : list CallEntry :=
  [example_call "0xa" "0xb"; example_call "0xa" "0xc"; example_call "0xc" "0xb"].

(** Two contracts calling each other. *)
Definition mutual_calls : list CallEntry :=
  [example_call "0xa" "0xb"; example_call "0xb" "0xa"].

(** C3 (fails on the code). On the acyclic graph a -> b, a -> c, c -> b the
    only root is a, and its run records the hop counts a: 0, c: 1, b: 2, so
    the largest recorded value is 2, which is also the length of the longest
    path. [calculate_graph_depth] returns 1: the improved value for b is
    stored after b was popped, b is not queued again, and [max_depth] only
    ever sees the value a node has when it is popped. The same happens on
    the cycle a -> b -> a: 2 is recorded, 1 is returned. *)
Theorem depth_below_recorded_maximum :
  let g := build_from_calls diamond_calls in
  roots g = ["0xa"]
  /\ depths (depth_run g "0xa" 0) = {[ "0xa" := 0; "0xc" := 1; "0xb" := 2 ]}
  /\ max_recorded g = 2
  /\ graph_depth g = 1
  /\ calculate_graph_depth (with_graph (example_builder diamond_calls) g)
     = (Ok 1, with_graph (example_builder diamond_calls) g)
  /\ max_recorded (build_from_calls mutual_calls) = 2
  /\ graph_depth (build_from_calls mutual_calls) = 1.
Proof.
  repeat split; vm_compute; reflexivity.
Qed.

(** ** Central nodes *)

(** [x] occurs somewhere before [y] in [l]. *)
Definition occurs_before {A} (l : list A) (x y : A) : Prop :=
  exists l1 l2 l3, l = l1 ++ x :: l2 ++ y :: l3.

(** Counts never increase along the list. *)
Definition descending (l : list (string * Z)) : Prop :=
  StronglySorted (fun p q => snd q <= snd p) l.

Lemma insert_by_count_perm p l : insert_by_count p l ≡ₚ p :: l.
Proof.
  induction l as [|q l IH]; simpl; [reflexivity|].
  destruct (snd q <=? snd p); [reflexivity|].
  rewrite IH. apply Permutation_swap.
Qed.

Lemma sort_by_count_perm l : sort_by_count l ≡ₚ l.
Proof.
  induction l as [|p l IH]; simpl; [reflexivity|].
  rewrite insert_by_count_perm, IH. reflexivity.
Qed.

Lemma insert_by_count_descending p l : descending l -> descending (insert_by_count p l).
Proof.
  unfold descending. induction 1 as [|q l Hl IH Hq]; simpl.
  - constructor; constructor.
  - destruct (snd q <=? snd p) eqn:Hle.
    + apply Z.leb_le in Hle. constructor; [constructor; assumption|].
      constructor; [exact Hle|]. eapply Forall_impl; [exact Hq|]. simpl. intros. lia.
    + apply Z.leb_gt in Hle. constructor; [exact IH|].
      rewrite insert_by_count_perm. constructor; [lia|exact Hq].
Qed.

Lemma sort_by_count_descending l : descending (sort_by_count l).
Proof.
  induction l as [|p l IH]; simpl; [constructor|]. apply insert_by_count_descending, IH.
Qed.

Lemma descending_take k l : descending l -> descending (take k l).
Proof.
  unfold descending. intros H. revert k. induction H as [|q l Hl IH Hq]; intros [|k]; simpl;
    try constructor.
  - apply IH.
  - apply Forall_take. exact Hq.
Qed.

(** Stability: the entries with a given count come out in their input
    order. *)
Lemma insert_by_count_stable n p l :
  List.filter (fun q => snd q =? n) (insert_by_count p l)
  = List.filter (fun q => snd q =? n) (p :: l).
Proof.
  induction l as [|q l IH]; [reflexivity|].
  cbn [insert_by_count]. destruct (snd q <=? snd p) eqn:Hle; [reflexivity|].
  apply Z.leb_gt in Hle. cbn [List.filter] in *.
  destruct (snd p =? n) eqn:Hp.
  - apply Z.eqb_eq in Hp. rewrite (proj2 (Z.eqb_neq (snd q) n)) by lia. exact IH.
  - destruct (snd q =? n); [f_equal|]; exact IH.
Qed.

Lemma sort_by_count_stable n l :
  List.filter (fun q => snd q =? n) (sort_by_count l) = List.filter (fun q => snd q =? n) l.
Proof.
  induction l as [|p l IH]; [reflexivity|].
  cbn [sort_by_count]. rewrite insert_by_count_stable. cbn [List.filter]. rewrite IH. reflexivity.
Qed.

Lemma filter_eq_cons {A} (f : A -> bool) l x m :
  List.filter f l = x :: m ->
  exists l1 l2, l = l1 ++ x :: l2 /\ List.filter f l2 = m.
Proof.
  induction l as [|y l IH]; simpl; [discriminate|].
  destruct (f y) eqn:Hy.
  - intros [= -> <-]. exists [], l. auto.
  - intros H. destruct (IH H) as (l1 & l2 & -> & H2). exists (y :: l1), l2. auto.
Qed.

Lemma filter_eq_app {A} (f : A -> bool) l m1 m2 :
  List.filter f l = m1 ++ m2 ->
  exists l1 l2, l = l1 ++ l2 /\ List.filter f l2 = m2.
Proof.
  revert l. induction m1 as [|x m1 IH]; intros l H.
  - exists [], l. auto.
  - simpl in H. apply filter_eq_cons in H as (l1 & l2 & -> & H2).
    destruct (IH l2 H2) as (k1 & k2 & -> & Hk). exists (l1 ++ x :: k1), k2.
    rewrite <- app_assoc. auto.
Qed.

Lemma occurs_before_filter {A} (f : A -> bool) l x y :
  occurs_before l x y -> f x = true -> f y = true -> occurs_before (List.filter f l) x y.
Proof.
  intros (l1 & l2 & l3 & ->) Hx Hy.
  exists (List.filter f l1), (List.filter f l2), (List.filter f l3).
  rewrite List.filter_app. cbn [List.filter]. rewrite Hx, List.filter_app.
  cbn [List.filter]. rewrite Hy. reflexivity.
Qed.

Lemma occurs_before_unfilter {A} (f : A -> bool) l x y :
  occurs_before (List.filter f l) x y -> occurs_before l x y.
Proof.
  intros (m1 & m2 & m3 & H).
  apply filter_eq_app in H as (l1 & l2 & -> & H).
  apply filter_eq_cons in H as (k1 & k2 & -> & H).
  apply filter_eq_app in H as (j1 & j2 & -> & H).
  apply filter_eq_cons in H as (i1 & i2 & -> & _).
  exists (l1 ++ k1), (j1 ++ i1), i2. rewrite <- !app_assoc. simpl.
  rewrite <- ?app_assoc. reflexivity.
Qed.

Lemma occurs_before_unmap {A B} (f : A -> B) l x y :
  occurs_before (map f l) (f x) (f y) -> Inj eq eq f -> occurs_before l x y.
Proof.
  intros (m1 & m2 & m3 & H) Hinj.
  apply map_eq_app in H as (l1 & r1 & -> & _ & H).
  apply map_eq_cons in H as (x' & r2 & -> & Hx & H).
  apply map_eq_app in H as (l2 & r3 & -> & _ & H).
  apply map_eq_cons in H as (y' & l3 & -> & Hy & _).
  apply Hinj in Hx, Hy. subst. exists l1, l2, l3. reflexivity.
Qed.

Lemma in_degree_counter_elem g a n :
  (a, n) ∈ in_degree_counter g <-> a ∈ nodes g /\ n = nx.in_degree g a /\ 0 < n.
Proof.
  unfold in_degree_counter. split.
  - intros H. apply list_elem_of_In, filter_In in H as [H Hn].
    apply in_map_iff in H as (x & [= -> <-] & Hx). apply Z.ltb_lt in Hn.
    split; [apply list_elem_of_In, Hx|]. split; [reflexivity|exact Hn].
  - intros (Ha & -> & Hn). apply list_elem_of_In, filter_In.
    split; [|apply Z.ltb_lt, Hn].
    apply in_map_iff. exists a. split; [reflexivity|apply list_elem_of_In, Ha].
Qed.

Lemma in_degree_counter_NoDup g : NoDup (nodes g) -> NoDup (fst <$> in_degree_counter g).
Proof.
  unfold in_degree_counter. generalize (nx.in_degree g). intros h Hnd.
  induction Hnd as [|x l Hx Hl IH]; simpl; [constructor|].
  destruct (0 <? h x); [|exact IH].
  simpl. apply NoDup_cons. split; [|exact IH].
  intros Hin. apply Hx. apply list_elem_of_fmap in Hin as ([a n] & -> & Hin).
  apply list_elem_of_In, filter_In in Hin as [Hin _].
  apply in_map_iff in Hin as (y & [= <- _] & Hy). apply list_elem_of_In, Hy.
Qed.

Lemma occurs_before_lookup {A} (l : list A) x y :
  occurs_before l x y <-> exists i j, (i < j)%nat /\ l !! i = Some x /\ l !! j = Some y.
Proof.
  split.
  - intros (l1 & l2 & l3 & ->). exists (length l1), (length l1 + S (length l2))%nat.
    split; [lia|]. split.
    + rewrite lookup_app_r by lia. rewrite Nat.sub_diag. reflexivity.
    + rewrite lookup_app_r by lia.
      replace (length l1 + S (length l2) - length l1)%nat with (S (length l2)) by lia.
      simpl. rewrite lookup_app_r by lia. rewrite Nat.sub_diag. reflexivity.
  - intros (i & j & Hij & Hi & Hj).
    apply list_elem_of_split_length in Hi as (l1 & r & -> & Hl1).
    rewrite lookup_app_r in Hj by lia.
    destruct (j - length l1)%nat as [|k] eqn:Hk; [lia|]. simpl in Hj.
    apply list_elem_of_split_length in Hj as (l2 & l3 & -> & _).
    exists l1, l2, l3. reflexivity.
Qed.

Lemma occurs_before_asym {A} (l : list A) x y :
  NoDup l -> occurs_before l x y -> occurs_before l y x -> False.
Proof.
  intros Hnd H1 H2.
  apply occurs_before_lookup in H1 as (i & j & Hij & Hi & Hj).
  apply occurs_before_lookup in H2 as (j' & i' & Hji & Hj' & Hi').
  pose proof (NoDup_lookup _ _ _ _ Hnd Hi Hi').
  pose proof (NoDup_lookup _ _ _ _ Hnd Hj Hj'). lia.
Qed.

(** The order of the ranking: a larger count first, and among equal counts
    the node inserted first. *)
Definition ranks_before (g : MultiDiGraph) (p q : string * Z) : Prop :=
  snd q < snd p \/ (snd q = snd p /\ occurs_before (nodes g) (fst p) (fst q)).

Lemma ranked_sorted g l :
  descending l ->
  (forall a a' n, occurs_before l (a, n) (a', n) -> occurs_before (nodes g) a a') ->
  StronglySorted (ranks_before g) l.
Proof.
  unfold descending. induction 1 as [|p l Hl IH Hp]; intros Htie; [constructor|].
  constructor.
  - apply IH. intros a a' n (l1 & l2 & l3 & ->). apply (Htie a a' n).
    exists (p :: l1), l2, l3. reflexivity.
  - rewrite Forall_forall in Hp |- *. intros q Hq. specialize (Hp q Hq). simpl in Hp.
    destruct (Z.eq_dec (snd q) (snd p)) as [Heq|Hne]; [|left; lia].
    right. split; [exact Heq|]. destruct p as [a n], q as [a' n']. simpl in *. subst n'.
    apply (Htie a a' n). apply list_elem_of_split in Hq as (l2 & l3 & ->).
    exists [], l2, l3. reflexivity.
Qed.

(** A duplicate-free, descending listing of the nodes of positive in-degree
    in which equal counts follow the insertion order is the ranking the
    sort produces: there is only one. *)
Lemma ranking_unique g l l' :
  NoDup (nodes g) ->
  NoDup (map fst l) -> NoDup (map fst l') ->
  (forall p, p ∈ l <-> p ∈ l') ->
  descending l -> descending l' ->
  (forall a a' n, occurs_before l (a, n) (a', n) -> occurs_before (nodes g) a a') ->
  (forall a a' n, occurs_before l' (a, n) (a', n) -> occurs_before (nodes g) a a') ->
  l = l'.
Proof.
  intros Hg Hnd Hnd' Hin Hd Hd' Ht Ht'.
  apply (StronglySorted_unique_strong (ranks_before g)).
  - intros [a n] [a' n'] _ _ [H1|[H1 H1']] [H2|[H2 H2']]; simpl in *; try lia.
    destruct (occurs_before_asym _ _ _ Hg H1' H2').
  - apply ranked_sorted; assumption.
  - apply ranked_sorted; assumption.
  - apply NoDup_Permutation; [| |exact Hin].
    + apply (NoDup_fmap_1 fst). exact Hnd.
    + apply (NoDup_fmap_1 fst). exact Hnd'.
Qed.

(** Stability of the sort on the counter of in-degrees. *)
Lemma ranking_ties g a a' n :
  occurs_before (sort_by_count (in_degree_counter g)) (a, n) (a', n) ->
  occurs_before (nodes g) a a'.
Proof.
  intros Hfull.
  apply (occurs_before_filter (fun q => snd q =? n)) in Hfull; [|apply Z.eqb_refl..].
  rewrite sort_by_count_stable in Hfull.
  apply occurs_before_unfilter in Hfull. unfold in_degree_counter in Hfull.
  apply occurs_before_unfilter in Hfull.
  assert (Ha : n = nx.in_degree g a /\ n = nx.in_degree g a').
  { destruct Hfull as (m1 & m2 & m3 & Hm).
    assert (H1 : In (a, n) (map (fun n0 => (n0, nx.in_degree g n0)) (nodes g))).
    { rewrite Hm. apply in_app_iff. right. left. reflexivity. }
    assert (H2 : In (a', n) (map (fun n0 => (n0, nx.in_degree g n0)) (nodes g))).
    { rewrite Hm. apply in_app_iff. right. right. apply in_app_iff. right. left. reflexivity. }
    apply in_map_iff in H1 as (x & [= -> <-] & _).
    apply in_map_iff in H2 as (y & [= -> Hy] & _). auto. }
  destruct Ha as [Ha Ha'].
  apply (occurs_before_unmap (fun n0 => (n0, nx.in_degree g n0))).
  - rewrite <- Ha. rewrite <- Ha'. exact Hfull.
  - intros x y [= ->]. reflexivity.
Qed.

(** On concrete graphs: the node of larger in-degree comes first although
    it was inserted later, and of two nodes that tie at the cut the one
    inserted first is returned. *)
Lemma central_nodes_at_the_cut :
  central_nodes (build_from_calls [example_call "0xa" "0xb"; example_call "0xc" "0xb";
                                   example_call "0xb" "0xa"]) 1 = [("0xb", 2)]
  /\ central_nodes (build_from_calls [example_call "0xa" "0xb"; example_call "0xb" "0xa";
                                      example_call "0xa" "0xb"; example_call "0xb" "0xa"]) 1
     = [("0xa", 2)].
Proof. split; vm_compute; reflexivity. Qed.

(** C5. On every built graph, [identify_central_nodes] returns the first
    [top_k] entries of the ranking of the nodes with positive in-degree.
    That ranking lists exactly those nodes, each once and paired with its
    in-degree, in descending order of in-degree, and of two entries with the
    same in-degree the one listed first was inserted into the graph first;
    it is the only list with these properties, so the result is the first
    [top_k] entries of any list that has them. The result depends on the
    graph alone, so two runs on the same input give the same list. *)
Theorem central_nodes_ranking (calls : list CallEntry) (top_k : nat) (b : GraphBuilder) :
  let g := build_from_calls calls in
  identify_central_nodes top_k (with_graph b g) = (Ok (central_nodes g top_k), with_graph b g)
  /\ (exists ranking,
        central_nodes g top_k = take top_k ranking
        /\ NoDup (map fst ranking)
        /\ (forall a n, (a, n) ∈ ranking <-> a ∈ nodes g /\ n = nx.in_degree g a /\ 0 < n)
        /\ descending ranking
        /\ (forall a a' n, occurs_before ranking (a, n) (a', n) -> occurs_before (nodes g) a a')
        /\ (forall other,
              NoDup (map fst other) ->
              (forall a n, (a, n) ∈ other <-> a ∈ nodes g /\ n = nx.in_degree g a /\ 0 < n) ->
              descending other ->
              (forall a a' n, occurs_before other (a, n) (a', n) ->
                              occurs_before (nodes g) a a') ->
              other = ranking /\ central_nodes g top_k = take top_k other))
  /\ descending (central_nodes g top_k)
  /\ (forall a n, (a, n) ∈ central_nodes g top_k ->
                  a ∈ nodes g /\ n = nx.in_degree g a /\ 0 < n)
  /\ (forall a a' n, occurs_before (central_nodes g top_k) (a, n) (a', n) ->
                     occurs_before (nodes g) a a')
  /\ (forall b', graph b' = Some g ->
                 fst (identify_central_nodes top_k b') = Ok (central_nodes g top_k)).
Proof.
  intros g.
  assert (Hg : NoDup (nodes g)) by apply (build_from_calls_well_formed calls).
  assert (Hrank : forall a n, (a, n) ∈ sort_by_count (in_degree_counter g) <->
                              a ∈ nodes g /\ n = nx.in_degree g a /\ 0 < n).
  { intros a n. rewrite sort_by_count_perm. apply in_degree_counter_elem. }
  assert (Hnd : NoDup (map fst (sort_by_count (in_degree_counter g)))).
  { change (map fst (sort_by_count (in_degree_counter g)))
      with (fst <$> sort_by_count (in_degree_counter g)).
    rewrite sort_by_count_perm. apply in_degree_counter_NoDup, Hg. }
  split; [reflexivity|]. split; [|split; [|split; [|split]]].
  - exists (sort_by_count (in_degree_counter g)).
    split; [reflexivity|]. split; [exact Hnd|]. split; [exact Hrank|].
    split; [apply sort_by_count_descending|]. split; [apply ranking_ties|].
    intros other Hnd' Hin' Hd' Ht'.
    assert (Heq : other = sort_by_count (in_degree_counter g)).
    { apply (ranking_unique g); try assumption.
      - intros [a n]. rewrite Hin', Hrank. reflexivity.
      - apply sort_by_count_descending.
      - apply ranking_ties. }
    split; [exact Heq|]. rewrite Heq. reflexivity.
  - apply descending_take, sort_by_count_descending.
  - intros a n Hin. apply Hrank. eapply subseteq_take. exact Hin.
  - intros a a' n (l1 & l2 & l3 & H). apply (ranking_ties g a a' n).
    exists l1, l2, (l3 ++ drop top_k (sort_by_count (in_degree_counter g))).
    rewrite <- (take_drop top_k (sort_by_count (in_degree_counter g))) at 1.
    unfold central_nodes, most_common in H. rewrite H, <- !app_assoc. simpl.
    rewrite <- ?app_assoc. reflexivity.
  - intros b' Hb'. unfold identify_central_nodes. simpl. unfold mbind, M_bind, get_self.
    rewrite Hb'. reflexivity.
Qed.


(** ** Address classification *)

(** The 20-byte address whose last hexadecimal digit is [c] and whose other
    digits are zero. *)
Definition low_address (c : ascii) : string :=
  "0x000000000000000000000000000000000000000" ++ String c EmptyString.

Definition precompile_digits : list ascii :=
  ["1"; "2"; "3"; "4"; "5"; "6"; "7"; "8"; "9"]%char.

Definition is_precompile_name (name : option string) : bool :=
  match name with
  | Some s => PyStr.startswith "Ethereum Precompile: " s
  | None => false
  end.

(** An address absent from the builder's table is unnamed. *)
Lemma identify_contract_absent address :
  dict_get (PyStr.lower address) KNOWN_CONTRACTS = None -> identify_contract address = None.
Proof. intros H. exact H. Qed.

Lemma prefix_length_succ p s :
  String.prefix p s = true -> String.length s = S (String.length p) ->
  exists c, s = (p ++ String c EmptyString)%string /\ PyStr.last_char s = Some c.
Proof.
  revert s. induction p as [|a p IH]; intros s Hp Hl.
  - destruct s as [|c [|c' s']]; simpl in Hl; try discriminate. exists c. auto.
  - destruct s as [|b s]; simpl in Hp; [discriminate|].
    destruct (Ascii.ascii_dec a b) as [->|Hne]; [|discriminate]. simpl in Hl.
    destruct (IH s Hp) as (c & -> & Hc); [lia|]. exists c. split; [reflexivity|].
    simpl. destruct (p ++ String c "")%string eqn:E; [|exact Hc].
    destruct p; discriminate.
Qed.

Lemma is_nonzero_digit_inv c : is_nonzero_digit c = true -> c ∈ precompile_digits.
Proof.
  destruct c as [[] [] [] [] [] [] [] []]; vm_compute; intros H; try discriminate;
    repeat (first [left; reflexivity | right]).
Qed.

(** A 42-character address absent from the auditor's table is not a system
    contract: on such addresses the prefix rule only fires inside the table. *)
Lemma is_system_contract_absent address :
  String.length address = 42%nat ->
  get_system_contract_description address = None ->
  is_system_contract address = false.
Proof.
  unfold get_system_contract_description, is_system_contract. intros Hlen Hnone.
  rewrite Hnone.
  assert (Hl : String.length (PyStr.lower address) = 42%nat).
  { rewrite <- Hlen. clear. induction address; simpl; congruence. }
  destruct (PyStr.startswith "0x000000000000000000000000000000000000000" (PyStr.lower address))
    eqn:Hp; [|reflexivity].
  destruct (prefix_length_succ _ _ Hp Hl) as (c & Hs & Hc).
  rewrite Hc. simpl. destruct (is_nonzero_digit c) eqn:Hd; [|reflexivity].
  exfalso. apply is_nonzero_digit_inv in Hd. rewrite Hs in Hnone.
  unfold precompile_digits in Hd.
  repeat (apply elem_of_cons in Hd as [->|Hd]; [vm_compute in Hnone; discriminate|]).
  inversion Hd.
Qed.

(** C6 (fails on the code). The auditor's [is_system_contract] recognises
    all of 0x...01 to 0x...09 and describes them as Ethereum precompiles, and
    both tables know the two Arbitrum system addresses; but the graph
    builder's [identify_contract], which annotates the description, names
    only 0x...01 to 0x...05: for 0x...06 to 0x...09 it returns [None], the
    answer it gives for an unknown address. Addresses absent from a table
    are unclassified by the function reading that table. *)
Theorem precompiles_six_to_nine_unnamed :
  Forall (fun c => is_system_contract (low_address c) = true
                   /\ is_precompile_name (get_system_contract_description (low_address c)) = true)
         precompile_digits
  /\ Forall (fun c => is_precompile_name (identify_contract (low_address c)) = true)
            ["1"; "2"; "3"; "4"; "5"]%char
  /\ Forall (fun c => identify_contract (low_address c) = None) ["6"; "7"; "8"; "9"]%char
  /\ identify_contract "0x0000000000000000000000000000000000000064" = Some "Arbitrum: L1 ArbSys"
  /\ identify_contract "0x0000000000000000000000000000000000000065" = Some "Arbitrum: L2 ArbSys"
  /\ is_system_contract "0x0000000000000000000000000000000000000064" = true
  /\ is_system_contract "0x0000000000000000000000000000000000000065" = true
  /\ (forall address,
        dict_get (PyStr.lower address) KNOWN_CONTRACTS = None ->
        identify_contract address = None)
  /\ (forall address,
        String.length address = 42%nat ->
        get_system_contract_description address = None ->
        is_system_contract address = false).
Proof.
  do 7 (split; [repeat constructor; vm_compute; reflexivity|]).
  split; [apply identify_contract_absent|apply is_system_contract_absent].
Qed.

(** ** Determinism of the description *)

(** An iteration order a [set] can have: some arrangement of its elements. *)
Definition set_order (iter : list string -> list string) : Prop :=
  forall s, NoDup s -> iter s ≡ₚ s.

Definition example_call_of (from to function : string) : CallEntry :=
  {| call_from := Some from; call_to := Some to; call_type := Some "CALL";
     call_function_signature := Some function; call_function_selector := None;
     call_value := Some (JInt 0); call_depth := Some 1 |}.

(** One contract called twice by the same caller, with two functions. *)
Definition two_function_calls : list CallEntry :=
  [example_call_of "0xa" "0xb" "approve(address,uint256)";
   example_call_of "0xa" "0xb" "transfer(address,uint256)"].

Definition two_function_builder : GraphBuilder :=
  with_graph (example_builder two_function_calls) (build_from_calls two_function_calls).

(** C7 (fails on the code). The function names of a central node are
    collected in a [set] and printed in the set's iteration order, and so
    are the names of the DELEGATECALL targets. For a contract called with
    two functions, the two possible iteration orders give two different
    descriptions of the same trace document and graph: one lists
    "approve, transfer", the other "transfer, approve". *)
Theorem description_depends_on_set_order :
  set_order id
  /\ set_order (@rev string)
  /\ build_graph (example_builder two_function_calls)
     = (Ok (build_from_calls two_function_calls), two_function_builder)
  /\ fst (generate_description id two_function_builder)
     = Ok ("该提案启动后，首先由 地址 0xa (0xa) 调用了 合约 0xb (0xb)。 "
           ++ "关键函数调用包括：approve (1次), transfer (1次)。 "
           ++ "调用类型包括：CALL 2 次。 "
           ++ "中心节点为：合约 0xb (0xb)（被调用 2 次，调用函数：approve, transfer）。 "
           ++ "共涉及 2 个节点的 2 次交互，图的最大深度为 1，最大宽度为 1。 "
           ++ "关键调用路径：0xa... -> 0xb... 调用 approve (深度 1)。")%string
  /\ fst (generate_description (@rev string) two_function_builder)
     = Ok ("该提案启动后，首先由 地址 0xa (0xa) 调用了 合约 0xb (0xb)。 "
           ++ "关键函数调用包括：approve (1次), transfer (1次)。 "
           ++ "调用类型包括：CALL 2 次。 "
           ++ "中心节点为：合约 0xb (0xb)（被调用 2 次，调用函数：transfer, approve）。 "
           ++ "共涉及 2 个节点的 2 次交互，图的最大深度为 1，最大宽度为 1。 "
           ++ "关键调用路径：0xa... -> 0xb... 调用 approve (深度 1)。")%string
  /\ fst (generate_description id two_function_builder)
     <> fst (generate_description (@rev string) two_function_builder).
Proof.
  split; [intros s _; reflexivity|].
  split; [intros s _; symmetry; apply Permutation_rev|].
  split; [reflexivity|].
  split; [vm_compute; reflexivity|].
  split; [vm_compute; reflexivity|].
  vm_compute. discriminate.
Qed.


(** ** Nesting depth of the flattening traversals *)

(** Induction on call trees, with the hypothesis for every child. *)
Lemma TraceNode_nested_ind (P : TraceNode -> Prop) :
  (forall type from to value input output gas_used gas error children,
      (forall l, children = Some l -> Forall P l) ->
      P (mkTraceNode type from to value input output gas_used gas error children)) ->
  forall node, P node.
Proof.
  intros Hnode. fix IH 1.
  intros [type from to value input output gas_used gas error [l|]]; apply Hnode.
  - intros l' [= <-]. revert l. fix IHl 1. intros [|child l].
    + constructor.
    + constructor; [apply IH|apply IHl].
  - intros l' [=].
Qed.

Lemma nesting_prune k : forall node, (nesting (prune k node) <= k)%nat.
Proof.
  induction k as [|k IH]; intros [type from to value input output gas_used gas error [l|]];
    simpl; try lia.
  induction l as [|child l IHl]; simpl; [lia|].
  specialize (IH child). lia.
Qed.

Section TracerProperties.

Variable py_int : Z -> string -> option Z.

(** [traverse_trace] only adds calls, and every call it adds lies between
    the depth it was started at and the cap. *)
Lemma traverse_trace_capped node :
  forall depth acc res,
    traverse_trace py_int node depth acc = Ok res ->
    exists new, fst res = fst acc ++ new
                /\ Forall (fun c => depth <= ci_depth c <= 50) new.
Proof.
  induction node as [type from to value input output gas_used gas error children IH]
    using TraceNode_nested_ind.
  intros depth acc res. cbn [traverse_trace].
  destruct (50 <? depth) eqn:Hcap.
  { intros [= <-]. exists []. rewrite app_nil_r. auto. }
  apply Z.ltb_ge in Hcap.
  destruct (parse_num py_int (default (RawStr "0x0") value)) as [v|]; [|discriminate].
  destruct (parse_num py_int (default (RawStr "0x0") gas_used)) as [gu|]; [|discriminate].
  match goal with |- context [match children with Some _ => _ | None => Ok ?a end] =>
    set (acc1 := a) end.
  assert (H1 : exists new, fst acc1 = fst acc ++ new
                           /\ Forall (fun c => depth <= ci_depth c <= 50) new).
  { unfold acc1. destruct (bool_decide _); simpl.
    - eexists [_]. split; [reflexivity|]. repeat constructor; simpl; lia.
    - exists []. rewrite app_nil_r. auto. }
  clearbody acc1. destruct H1 as (new1 & Hn1 & Hf1).
  destruct children as [l|].
  - specialize (IH l eq_refl). revert acc1 new1 Hn1 Hf1.
    induction IH as [|child l Hchild _ IHl]; intros acc1 new1 Hn1 Hf1.
    + intros [= <-]. exists new1. auto.
    + destruct (traverse_trace py_int child (depth + 1) acc1) as [a'|e] eqn:Hc;
        [|discriminate].
      destruct (Hchild _ _ _ Hc) as (new2 & Hn2 & Hf2).
      apply (IHl a' (new1 ++ new2)).
      * rewrite Hn2, Hn1, app_assoc. reflexivity.
      * apply Forall_app. split; [exact Hf1|].
        eapply Forall_impl; [exact Hf2|]. simpl. intros. lia.
  - intros [= <-]. exists new1. auto.
Qed.

(** Below the cap nothing is visited: the traversal cannot tell a tree from
    the same tree cut [k] levels further down, when it starts [k] levels
    above the cap. *)
Lemma traverse_trace_prune node :
  forall (k : nat) depth acc,
    depth + Z.of_nat k = 50 ->
    traverse_trace py_int node depth acc = traverse_trace py_int (prune k node) depth acc.
Proof.
  induction node as [type from to value input output gas_used gas error children IH]
    using TraceNode_nested_ind.
  intros k depth acc Hk.
  destruct children as [l|]; [|destruct k; reflexivity].
  specialize (IH l eq_refl).
  assert (Hcap : (50 <? depth) = false) by (apply Z.ltb_ge; lia).
  destruct k as [|k]; cbn [prune traverse_trace]; rewrite Hcap;
    destruct (parse_num py_int (default (RawStr "0x0") value)) as [v|]; try reflexivity;
    destruct (parse_num py_int (default (RawStr "0x0") gas_used)) as [gu|]; try reflexivity;
    match goal with |- _ l ?a = _ => generalize a end.
  - assert (Hdeep : (50 <? depth + 1) = true) by (apply Z.ltb_lt; lia).
    clear IH. induction l as [|child l IHl]; intros a; [reflexivity|].
    destruct child. cbn [traverse_trace]. rewrite Hdeep. apply IHl.
  - induction IH as [|child l Hchild _ IHl]; intros a; [reflexivity|].
    cbn [map]. rewrite <- (Hchild k (depth + 1) a) by lia.
    destruct (traverse_trace py_int child (depth + 1) a); [apply IHl|reflexivity].
Qed.

End TracerProperties.

(** C8 (as amended). Whatever the call tree, [traverse_trace], the traversal
    of [extract_calls_and_transfers], visits no node at nesting depth above
    50: its result, log included, is the one it gives on the tree cut below
    depth 50, every call it reports has a depth between 0 and 50, and the
    cut is silent, no warning being logged. *)
Theorem traverse_trace_truncates_silently
    (py_int : Z -> string -> option Z) (trace : TraceNode) :
  extract_calls_and_transfers py_int trace = extract_calls_and_transfers py_int (prune 50 trace)
  /\ (nesting (prune 50 trace) <= 50)%nat
  /\ (forall summary log,
        extract_calls_and_transfers py_int trace = (Ok summary, log) ->
        Forall (fun c => 0 <= ci_depth c <= 50) (ts_calls summary)
        /\ Forall (fun r => log_level r <> WARNING) log).
Proof.
  split; [|split].
  - unfold extract_calls_and_transfers.
    rewrite (traverse_trace_prune py_int trace 50 0 ([], [])) by reflexivity. reflexivity.
  - apply nesting_prune.
  - intros summary log. unfold extract_calls_and_transfers.
    destruct (traverse_trace py_int trace 0 ([], [])) as [[calls transfers]|e] eqn:H;
      [|discriminate].
    intros [= <- <-]. simpl.
    destruct (traverse_trace_capped py_int trace 0 _ _ H) as (new & Hn & Hf).
    simpl in Hn. subst. split; [exact Hf|]. repeat constructor. discriminate.
Qed.

(** C8 (as stated) fails. Of a chain of 53 nested calls, whose innermost
    call is at nesting depth 52, [extract_calls_and_transfers] reports the 51
    calls at depths 0 to 50 and logs a single [info] line, no warning; and
    [_extract_calls_from_call_tracer], whose traversal has no cap, reports
    all 53 calls, the last at depth 52. *)
Lemma deep_nesting_counterexample :
  nesting (nested_calls 52) = 52%nat
  /\ (exists summary,
        extract_calls_and_transfers (fun _ _ => None) (nested_calls 52)
        = (Ok summary, [{| log_level := INFO;
                           log_message := "提取完成: 51 个调用, 0 个转账" |}])
        /\ map ci_depth (ts_calls summary) = map Z.of_nat (seq 0 51))
  /\ (exists calls,
        _extract_calls_from_call_tracer (fun _ _ => None) (fun selector => selector)
          (nested_calls 52) = Ok calls
        /\ map tc_depth calls = map Z.of_nat (seq 0 53)
        /\ last (map tc_depth calls) = Some 52).
Proof.
  split; [vm_compute; reflexivity|]. split.
  - eexists. split; [vm_compute; reflexivity|]. vm_compute. reflexivity.
  - eexists. split; [vm_compute; reflexivity|]. split; vm_compute; reflexivity.
Qed.

(** ** Empty input and missing graph *)

(** The opening sentence of the description. *)
Definition opening_sentence (d : TraceDocument) : string :=
  let '(from_addr, to_addr) := initiator d in
  ("该提案启动后，首先由 " ++ name_or (identify_contract from_addr) ("地址 " ++ from_addr)
     ++ " (" ++ from_addr ++ ") 调用了 "
     ++ name_or (identify_contract to_addr) ("合约 " ++ to_addr)
     ++ " (" ++ to_addr ++ ")。")%string.

Definition no_interactions_sentence : string :=
  "共涉及 0 个节点的 0 次交互，图的最大深度为 0，最大宽度为 0。".

Lemma description_text_empty set_iter d :
  calls_of d = [] ->
  description_text set_iter nx.empty d 0 0 [] []
  = PyStr.join " " [opening_sentence d; no_interactions_sentence].
Proof.
  intros Hc. unfold description_text, opening_sentence. rewrite Hc.
  destruct (initiator d) as [from to]. reflexivity.
Qed.

(** Once graph and document are in place, the description is a function of
    the two (and of the set iteration order). *)
Lemma generate_description_built set_iter b g d :
  trace_data b = Some d ->
  generate_description set_iter (with_graph b g)
  = (Ok (description_text set_iter g d (graph_depth g) (graph_breadth g)
           (central_nodes g 5) (call_paths (calls_of d) 2)),
     with_graph b g).
Proof. destruct b as [p f g0 t]. simpl. intros ->. reflexivity. Qed.

(** C9. When the document's call list is empty or absent, [build_graph]
    returns a graph with no nodes and no edges without raising; on it
    [calculate_graph_depth] and [calculate_graph_breadth] return 0,
    [identify_central_nodes] returns the empty list, and
    [generate_description] returns a string: the opening sentence followed by
    the sentence reporting 0 nodes, 0 interactions, depth 0 and breadth 0. *)
Theorem empty_call_list_gives_empty_graph
    (set_iter : list string -> list string) (b : GraphBuilder) (d : TraceDocument)
    (top_k : nat) :
  document_of b = Some d ->
  calls_of d = [] ->
  exists g b',
    build_graph b = (Ok g, b')
    /\ b' = with_graph (with_trace_data b d) g
    /\ nx.number_of_nodes g = 0
    /\ nx.number_of_edges g = 0
    /\ calculate_graph_depth b' = (Ok 0, b')
    /\ calculate_graph_breadth b' = (Ok 0, b')
    /\ identify_central_nodes top_k b' = (Ok [], b')
    /\ generate_description set_iter b'
       = (Ok (PyStr.join " " [opening_sentence d; no_interactions_sentence]), b').
Proof.
  intros Hd Hc. exists nx.empty, (with_graph (with_trace_data b d) nx.empty).
  split. { rewrite (build_graph_loaded b d Hd), Hc. reflexivity. }
  do 5 (split; [reflexivity|]).
  split. { unfold identify_central_nodes, central_nodes, most_common. simpl.
           destruct top_k; reflexivity. }
  rewrite (generate_description_built set_iter (with_trace_data b d) nx.empty d eq_refl), Hc.
  change (graph_depth nx.empty) with 0. change (graph_breadth nx.empty) with 0.
  change (central_nodes nx.empty 5) with (@nil (string * Z)).
  change (call_paths [] 2) with (@nil (list CallEntry)).
  rewrite (description_text_empty set_iter d Hc). reflexivity.
Qed.

Definition empty_document : TraceDocument :=
  {| doc_trace_summary := None; doc_summary := None;
     doc_original_transaction := None; doc_trace := None |}.

Definition empty_builder : GraphBuilder :=
  {| trace_report_path := "data/traces/trace_report.json"; trace_report_file := None;
     graph := None; trace_data := Some empty_document |}.

Lemma empty_call_list_gives_empty_graph_witness :
  exists g b',
    build_graph empty_builder = (Ok g, b')
    /\ generate_description id b'
       = (Ok ("该提案启动后，首先由 地址 unknown (unknown) 调用了 合约 unknown (unknown)。 "
              ++ "共涉及 0 个节点的 0 次交互，图的最大深度为 0，最大宽度为 0。")%string, b').
Proof.
  destruct (empty_call_list_gives_empty_graph id empty_builder empty_document 5 eq_refl eq_refl)
    as (g & b' & Hb & _ & _ & _ & _ & _ & _ & Hdesc).
  exists g, b'. split; [exact Hb|]. rewrite Hdesc. reflexivity.
Defined.

(** C10. As long as [build_graph] has not been called, so that [self.graph]
    is [None], each of [calculate_graph_depth], [calculate_graph_breadth],
    [identify_central_nodes] and [generate_description] raises [ValueError]
    and leaves the builder untouched; none returns a value. *)
Theorem methods_raise_before_build
    (set_iter : list string -> list string) (b : GraphBuilder) (top_k : nat) :
  graph b = None ->
  calculate_graph_depth b = (Raise (ValueError "Graph not built. Call build_graph() first."), b)
  /\ calculate_graph_breadth b
     = (Raise (ValueError "Graph not built. Call build_graph() first."), b)
  /\ identify_central_nodes top_k b
     = (Raise (ValueError "Graph not built. Call build_graph() first."), b)
  /\ generate_description set_iter b
     = (Raise (ValueError "Graph not built. Call build_graph() first."), b).
Proof.
  intros Hg.
  unfold calculate_graph_depth, calculate_graph_breadth, identify_central_nodes,
    generate_description, mbind, M_bind, get_self.
  rewrite Hg. repeat split.
Qed.

Lemma methods_raise_before_build_witness :
  graph empty_builder = None
  /\ fst (calculate_graph_depth empty_builder)
     = Raise (ValueError "Graph not built. Call build_graph() first.")
  /\ fst (generate_description id empty_builder)
     = Raise (ValueError "Graph not built. Call build_graph() first.").
Proof.
  split; [reflexivity|].
  destruct (methods_raise_before_build id empty_builder 5 eq_refl) as (Hd & _ & _ & Hg).
  rewrite Hd, Hg. split; reflexivity.
Defined.


(** ** Linear chains *)

(** The calls of the chain through the given addresses: each address calls
    the next one. *)
Fixpoint consecutive (l : list string) : list (string * string) :=
  match l with
  | [] => []
  | x :: l' => match l' with
               | [] => []
               | y :: _ => (x, y) :: consecutive l'
               end
  end.

Definition call_pair (c : CallEntry) : string * string := (from_addr c, to_addr c).
Definition edge_pair (e : Edge) : string * string := (e_from e, e_to e).

Lemma filter_Permutation_bool {A} (f : A -> bool) l l' :
  l ≡ₚ l' -> List.filter f l ≡ₚ List.filter f l'.
Proof.
  induction 1 as [|x l l' _ IH|x y l|l1 l2 l3 _ IH1 _ IH2]; simpl.
  - reflexivity.
  - destruct (f x); [constructor|]; exact IH.
  - destruct (f x), (f y); try reflexivity. apply Permutation_swap.
  - etransitivity; eassumption.
Qed.

Lemma filter_none {A} (f : A -> bool) l :
  (forall x, x ∈ l -> f x = false) -> List.filter f l = [].
Proof.
  induction l as [|x l IH]; intros H; simpl; [reflexivity|].
  rewrite (H x) by left. apply IH. intros y Hy. apply H. right. exact Hy.
Qed.

Lemma filter_map_swap {A B} (f : B -> bool) (h : A -> B) l :
  List.filter f (map h l) = map h (List.filter (fun x => f (h x)) l).
Proof.
  induction l as [|x l IH]; simpl; [reflexivity|].
  destruct (f (h x)); simpl; rewrite IH; reflexivity.
Qed.

Lemma consecutive_cons x y l : consecutive (x :: y :: l) = (x, y) :: consecutive (y :: l).
Proof. reflexivity. Qed.

Lemma consecutive_elem l p : p ∈ consecutive l -> fst p ∈ l /\ snd p ∈ tail l.
Proof.
  induction l as [|x l IH]; [intros H; inversion H|].
  destruct l as [|y l]; [intros H; inversion H|].
  rewrite consecutive_cons, elem_of_cons. intros [->|H].
  - simpl. split; left.
  - destruct (IH H) as [H1 H2]. split; right; [exact H1|exact H2].
Qed.

Lemma consecutive_snoc_fst l z p : p ∈ consecutive (l ++ [z]) -> fst p ∈ l.
Proof.
  induction l as [|x l IH]; [intros H; inversion H|].
  simpl. destruct (l ++ [z]) as [|y k] eqn:E; [destruct l; discriminate|].
  rewrite elem_of_cons. intros [->|H]; [left|right; apply IH, H].
Qed.

Lemma consecutive_app pre u suffix :
  consecutive (pre ++ u :: suffix) = consecutive (pre ++ [u]) ++ consecutive (u :: suffix).
Proof.
  induction pre as [|x pre IH]; [reflexivity|].
  simpl. destruct (pre ++ u :: suffix) as [|y k] eqn:E; [destruct pre; discriminate|].
  destruct (pre ++ [u]) as [|y' k'] eqn:E'; [destruct pre; discriminate|].
  assert (y = y') as <- by (destruct pre; simpl in *; congruence).
  simpl. f_equal. exact IH.
Qed.

Lemma consecutive_length l : length (consecutive l) = (length l - 1)%nat.
Proof.
  induction l as [|x l IH]; [reflexivity|].
  destruct l as [|y l]; [reflexivity|]. rewrite consecutive_cons. simpl in *. lia.
Qed.

Lemma consecutive_covers l x :
  (2 <= length l)%nat -> x ∈ l -> exists p, p ∈ consecutive l /\ (x = fst p \/ x = snd p).
Proof.
  induction l as [|a l IH]; [simpl; lia|].
  destruct l as [|b l]; [simpl; lia|]. intros _ Hx.
  rewrite consecutive_cons.
  apply elem_of_cons in Hx as [->|Hx]; [exists (a, b); split; [left|auto]|].
  destruct l as [|c l].
  - apply list_elem_of_singleton in Hx as ->. exists (a, b). split; [left|auto].
  - destruct IH as (p & Hp & Hxp); [simpl; lia|exact Hx|].
    exists p. split; [right; exact Hp|exact Hxp].
Qed.

(** The out-edges of an address in the chain. *)
Lemma consecutive_from pre u suffix :
  NoDup (pre ++ u :: suffix) ->
  List.filter (fun p => bool_decide (fst p = u)) (consecutive (pre ++ u :: suffix))
  = match suffix with
    | [] => []
    | v :: _ => [(u, v)]
    end.
Proof.
  intros Hnd. apply NoDup_app in Hnd as (_ & Hpre & Hsuf).
  apply NoDup_cons in Hsuf as [Hu Hsuf].
  rewrite consecutive_app, List.filter_app, filter_none.
  2: { intros p Hp. apply consecutive_snoc_fst in Hp. apply bool_decide_eq_false.
       intros Heq. apply (Hpre _ Hp). rewrite Heq. left. }
  destruct suffix as [|v suffix]; [reflexivity|].
  rewrite consecutive_cons. cbn [List.filter fst].
  rewrite bool_decide_eq_true_2 by reflexivity.
  rewrite app_nil_l. f_equal. apply filter_none. intros p Hp. apply consecutive_elem in Hp as [Hp _].
  apply bool_decide_eq_false. intros Heq. apply Hu. rewrite <- Heq. exact Hp.
Qed.

(** The in-edges of an address in the chain. *)
Lemma consecutive_into l x :
  length (List.filter (fun p => bool_decide (snd p = x)) (consecutive l))
  = length (List.filter (fun y => bool_decide (y = x)) (tail l)).
Proof.
  induction l as [|a l IH]; [reflexivity|].
  destruct l as [|b l]; [reflexivity|]. rewrite consecutive_cons.
  cbn [tail List.filter snd] in *.
  destruct (bool_decide (b = x)); cbn [length]; rewrite IH; reflexivity.
Qed.

(** One turn of each loop, and its exit. *)
Lemma depth_while_step g d current rest vis m current_depth :
  d !! current = Some current_depth ->
  depth_while g {| depths := d; queue := current :: rest; visited_in_path := vis;
                   max_depth := m |}
  = depth_while g (depth_body g current current_depth
                     {| depths := d; queue := rest; visited_in_path := vis; max_depth := m |}).
Proof. intros H. simp depth_while. rewrite H. reflexivity. Qed.

Lemma depth_while_done g d vis m :
  depth_while g {| depths := d; queue := []; visited_in_path := vis; max_depth := m |}
  = {| depths := d; queue := []; visited_in_path := vis; max_depth := m |}.
Proof. simp depth_while. reflexivity. Qed.

Lemma breadth_while_step g lv vis current level rest m :
  breadth_while g {| levels := lv; visited := vis; level_queue := (current, level) :: rest;
                     max_breadth := m |}
  = breadth_while g (breadth_body g current level
                       {| levels := lv; visited := vis; level_queue := rest;
                          max_breadth := m |}).
Proof. simp breadth_while. reflexivity. Qed.

Lemma breadth_while_done g lv vis m :
  breadth_while g {| levels := lv; visited := vis; level_queue := []; max_breadth := m |}
  = {| levels := lv; visited := vis; level_queue := []; max_breadth := m |}.
Proof. simp breadth_while. reflexivity. Qed.

Section ChainGraph.

Variable g : MultiDiGraph.
Variable addrs : list string.
Hypothesis addrs_distinct : NoDup addrs.
Hypothesis chain_nodes : nodes g ≡ₚ addrs.
Hypothesis chain_edges : map edge_pair (edges g) ≡ₚ consecutive addrs.

Lemma chain_successors pre u suffix :
  addrs = pre ++ u :: suffix ->
  nx.successors g u = match suffix with
                      | [] => []
                      | v :: _ => [v]
                      end.
Proof.
  intros Haddrs. unfold nx.successors.
  assert (H : map e_to (List.filter (fun e => bool_decide (e_from e = u)) (edges g))
              = map snd (List.filter (fun p => bool_decide (fst p = u))
                                     (map edge_pair (edges g)))).
  { rewrite filter_map_swap, map_map. reflexivity. }
  rewrite H.
  pose proof (filter_Permutation_bool (fun p => bool_decide (fst p = u)) _ _ chain_edges) as HP.
  rewrite Haddrs, consecutive_from in HP by (rewrite <- Haddrs; exact addrs_distinct).
  destruct suffix as [|v suffix].
  - apply Permutation_nil_r in HP. rewrite HP. reflexivity.
  - apply Permutation_singleton_r in HP. rewrite HP. reflexivity.
Qed.

Lemma chain_in_degree x :
  nx.in_degree g x
  = Z.of_nat (length (List.filter (fun y => bool_decide (y = x)) (tail addrs))).
Proof.
  unfold nx.in_degree. f_equal.
  transitivity (length (List.filter (fun p => bool_decide (snd p = x))
                                    (map edge_pair (edges g)))).
  { rewrite filter_map_swap, length_map. reflexivity. }
  rewrite (Permutation_length
             (filter_Permutation_bool (fun p => bool_decide (snd p = x)) _ _ chain_edges)).
  apply consecutive_into.
Qed.

Lemma chain_roots a0 rest : addrs = a0 :: rest -> rest <> [] -> roots g = [a0].
Proof.
  intros Haddrs Hrest. unfold roots.
  assert (HP : List.filter (fun n => nx.in_degree g n =? 0) (nodes g) ≡ₚ [a0]).
  { rewrite (filter_Permutation_bool _ _ _ chain_nodes), Haddrs.
    assert (Hnd : NoDup (a0 :: rest)) by (rewrite <- Haddrs; exact addrs_distinct).
    apply NoDup_cons in Hnd as [Ha0 _].
    simpl. rewrite chain_in_degree, Haddrs. simpl.
    rewrite filter_none.
    2: { intros y Hy. apply bool_decide_eq_false. intros ->. exact (Ha0 Hy). }
    simpl. rewrite filter_none; [reflexivity|].
    intros y Hy. rewrite chain_in_degree, Haddrs. simpl.
    apply Z.eqb_neq. intros H0.
    assert (Hin : In y (List.filter (fun y0 => bool_decide (y0 = y)) rest)).
    { apply filter_In. split; [apply list_elem_of_In, Hy|].
      apply bool_decide_eq_true; reflexivity. }
    destruct (List.filter (fun y0 => bool_decide (y0 = y)) rest); [inversion Hin|].
    simpl in H0. lia. }
  apply Permutation_singleton_r in HP. rewrite HP. reflexivity.
Qed.

Lemma chain_nonempty a0 rest : addrs = a0 :: rest -> (nx.number_of_nodes g =? 0) = false.
Proof.
  intros Haddrs. apply Z.eqb_neq. unfold nx.number_of_nodes.
  rewrite (Permutation_length chain_nodes), Haddrs. simpl. lia.
Qed.

(** Popping the address [u] at position [length pre] of the chain, with
    nothing from [u] onwards visited yet, ends with [max_depth] raised to
    the position of the last address. *)
Lemma chain_depth_while suffix :
  forall pre u d vis m,
    addrs = pre ++ u :: suffix ->
    d !! u = Some (Z.of_nat (length pre)) ->
    (forall x, x ∈ u :: suffix -> x ∉ vis) ->
    max_depth (depth_while g {| depths := d; queue := [u]; visited_in_path := vis;
                                max_depth := m |})
    = Z.max m (Z.of_nat (length pre + length suffix)).
Proof.
  induction suffix as [|v suffix IH]; intros pre u d vis m Haddrs Hd Hvis.
  - rewrite (depth_while_step g d u [] vis m _ Hd). unfold depth_body.
    rewrite (chain_successors pre u [] Haddrs). simpl.
    rewrite depth_while_done. simpl. f_equal. lia.
  - rewrite (depth_while_step g d u [] vis m _ Hd). unfold depth_body.
    rewrite (chain_successors pre u (v :: suffix) Haddrs).
    assert (Hnd : NoDup (pre ++ u :: v :: suffix)) by (rewrite <- Haddrs; exact addrs_distinct).
    apply NoDup_app in Hnd as (_ & _ & Hnd). apply NoDup_cons in Hnd as [Hu Hnd].
    apply NoDup_cons in Hnd as [Hv _].
    assert (Hvu : v <> u) by (intros ->; apply Hu; left).
    assert (Hvvis : v ∉ {[u]} ∪ vis).
    { intros [Hin|Hin]%elem_of_union; [apply elem_of_singleton in Hin; contradiction|].
      apply (Hvis v); [right; left|exact Hin]. }
    cbn [fold_left]. unfold relax. cbn [visited_in_path depths queue max_depth].
    rewrite (bool_decide_eq_false_2 _ Hvu), (bool_decide_eq_false_2 _ Hvvis).
    cbn [andb app].
    rewrite (IH (pre ++ [u]) v).
    + rewrite length_app. simpl. lia.
    + rewrite <- app_assoc. exact Haddrs.
    + cbn [depths]. rewrite lookup_insert_eq, length_app. simpl. f_equal. lia.
    + cbn [visited_in_path]. intros x Hx Hin. apply elem_of_union in Hin as [Hin|Hin].
      * apply elem_of_singleton in Hin as ->. apply Hu. exact Hx.
      * apply (Hvis x); [right; exact Hx|exact Hin].
Qed.

(** The same for the breadth run: every level holds one address. *)
Lemma chain_breadth_while suffix :
  forall pre u lv vis level m,
    addrs = pre ++ u :: suffix ->
    length (level_at lv level) = 1%nat ->
    (forall k, level < k -> lv !! k = None) ->
    (forall x, x ∈ suffix -> x ∉ vis) ->
    max_breadth (breadth_while g {| levels := lv; visited := vis;
                                    level_queue := [(u, level)]; max_breadth := m |})
    = Z.max m 1.
Proof.
  induction suffix as [|v suffix IH]; intros pre u lv vis level m Haddrs Hlen Habove Hvis.
  - rewrite breadth_while_step. unfold breadth_body.
    rewrite (chain_successors pre u [] Haddrs). simpl.
    rewrite breadth_while_done. simpl. rewrite Hlen. reflexivity.
  - rewrite breadth_while_step. unfold breadth_body.
    rewrite (chain_successors pre u (v :: suffix) Haddrs).
    assert (Hnd : NoDup (pre ++ u :: v :: suffix)) by (rewrite <- Haddrs; exact addrs_distinct).
    apply NoDup_app in Hnd as (_ & _ & Hnd). apply NoDup_cons in Hnd as [Hu Hnd].
    apply NoDup_cons in Hnd as [Hv _].
    assert (Hvu : v <> u) by (intros ->; apply Hu; left).
    assert (Hvvis : v ∉ vis) by (apply Hvis; left).
    cbn [fold_left]. unfold discover. cbn [visited levels level_queue max_breadth].
    rewrite (bool_decide_eq_false_2 _ Hvu), (bool_decide_eq_false_2 _ Hvvis).
    cbn [app].
    assert (Hnext : level_at lv (level + 1) = []).
    { unfold level_at. rewrite Habove by lia. reflexivity. }
    rewrite Hnext. cbn [app levels visited level_queue max_breadth].
    assert (Hsame : level_at (<[level + 1 := [v]]> lv) level = level_at lv level).
    { unfold level_at. rewrite lookup_insert_ne by lia. reflexivity. }
    rewrite Hsame, Hlen.
    rewrite (IH (pre ++ [u]) v).
    + lia.
    + rewrite <- app_assoc. exact Haddrs.
    + cbn [levels]. unfold level_at. rewrite lookup_insert_eq. reflexivity.
    + cbn [levels]. intros k Hk. rewrite lookup_insert_ne by lia. apply Habove. lia.
    + cbn [visited]. intros x Hx Hin. apply elem_of_union in Hin as [Hin|Hin].
      * apply elem_of_singleton in Hin as ->. apply Hv. exact Hx.
      * apply (Hvis x); [right; exact Hx|exact Hin].
Qed.

Lemma chain_graph_depth a0 rest :
  addrs = a0 :: rest -> rest <> [] -> graph_depth g = Z.of_nat (length rest).
Proof.
  intros Haddrs Hrest. unfold graph_depth.
  rewrite (chain_nonempty a0 rest Haddrs), (chain_roots a0 rest Haddrs Hrest).
  cbn [fold_left]. unfold depth_run.
  rewrite (chain_depth_while rest [] a0); [simpl; lia|exact Haddrs| |].
  - apply lookup_singleton_eq.
  - intros x _. apply not_elem_of_empty.
Qed.

Lemma chain_graph_breadth a0 rest :
  addrs = a0 :: rest -> rest <> [] -> graph_breadth g = 1.
Proof.
  intros Haddrs Hrest. unfold graph_breadth.
  rewrite (chain_nonempty a0 rest Haddrs), (chain_roots a0 rest Haddrs Hrest).
  cbn [fold_left]. unfold breadth_run.
  rewrite (chain_breadth_while rest [] a0); [reflexivity|exact Haddrs| | |].
  - unfold level_at. rewrite lookup_singleton_eq. reflexivity.
  - intros k Hk. apply lookup_singleton_ne. lia.
  - intros x Hx Hin. apply elem_of_singleton in Hin as ->.
    pose proof addrs_distinct as Hnd. rewrite Haddrs in Hnd.
    apply NoDup_cons in Hnd as [Ha0 _]. exact (Ha0 Hx).
Qed.

End ChainGraph.

Lemma kept_all_canonical calls :
  Forall (fun c => from_addr c ≠ "" /\ to_addr c ≠ "") calls -> kept calls = calls.
Proof.
  induction 1 as [|c calls [Hf Ht] _ IH]; simpl; [reflexivity|].
  rewrite !bool_decide_eq_false_2 by assumption. simpl. f_equal. exact IH.
Qed.

(** The graph built from the calls of a chain, given in any order. *)
Lemma build_chain calls addrs :
  NoDup addrs -> "" ∉ addrs -> (2 <= length addrs)%nat ->
  map call_pair calls ≡ₚ consecutive addrs ->
  nodes (build_from_calls calls) ≡ₚ addrs
  /\ map edge_pair (edges (build_from_calls calls)) ≡ₚ consecutive addrs.
Proof.
  intros Hnd Hne Hlen Hperm.
  assert (Hpair : forall c, c ∈ calls -> from_addr c ∈ addrs /\ to_addr c ∈ addrs).
  { intros c Hc.
    assert (Hin : call_pair c ∈ consecutive addrs).
    { rewrite <- Hperm. apply list_elem_of_In, in_map, list_elem_of_In, Hc. }
    apply consecutive_elem in Hin as [H1 H2]. split; [exact H1|].
    destruct addrs; [inversion H2|right; exact H2]. }
  assert (Hkept : kept calls = calls).
  { apply kept_all_canonical, Forall_forall. intros c Hc. destruct (Hpair c Hc) as [H1 H2].
    split; intros Heq; apply Hne; rewrite <- Heq; assumption. }
  destruct (build_from_calls_spec calls) as (Hn & He & _). rewrite Hkept in Hn, He.
  assert (Hedges : map edge_pair (edges (build_from_calls calls)) = map call_pair calls).
  { change edge_pair with (fun e => fst (edge_data e)).
    change call_pair with (fun c => fst (call_data c)).
    rewrite <- (map_map edge_data fst), He, map_map. reflexivity. }
  split; [|rewrite Hedges; exact Hperm].
  apply NoDup_Permutation; [rewrite Hn; apply first_seen_NoDup|exact Hnd|].
  intros x. rewrite Hn, first_seen_elem. split.
  - intros [Hx _]. apply list_elem_of_In, in_flat_map in Hx as (c & Hc & Hx).
    destruct (Hpair c (proj2 (list_elem_of_In _ _) Hc)) as [H1 H2].
    simpl in Hx. destruct Hx as [<-|[<-|[]]]; assumption.
  - intros Hx. split; [|apply not_elem_of_empty].
    destruct (consecutive_covers addrs x Hlen Hx) as (p & Hp & Hxp).
    rewrite <- Hperm in Hp. apply list_elem_of_In, in_map_iff in Hp as (c & <- & Hc).
    apply list_elem_of_In, in_flat_map. exists c. split; [exact Hc|].
    simpl in *. destruct Hxp as [->| ->]; auto.
Qed.

(** C4. For the calls of a strictly linear chain through L + 1 distinct
    (canonical, non-empty) addresses, L >= 1, listed in any order, the built
    graph has depth exactly L and breadth exactly 1. *)
Theorem linear_chain_depth_and_breadth
    (b : GraphBuilder) (d : TraceDocument) (addrs : list string) :
  document_of b = Some d ->
  NoDup addrs ->
  "" ∉ addrs ->
  (2 <= length addrs)%nat ->
  map call_pair (calls_of d) ≡ₚ consecutive addrs ->
  exists g b',
    build_graph b = (Ok g, b')
    /\ (length (calls_of d) + 1 = length addrs)%nat
    /\ length (edges g) = length (calls_of d)
    /\ calculate_graph_depth b' = (Ok (Z.of_nat (length (calls_of d))), b')
    /\ calculate_graph_breadth b' = (Ok 1, b').
Proof.
  intros Hd Hnd Hne Hlen Hperm.
  exists (build_from_calls (calls_of d)),
         (with_graph (with_trace_data b d) (build_from_calls (calls_of d))).
  split; [apply build_graph_loaded, Hd|].
  destruct (build_chain (calls_of d) addrs Hnd Hne Hlen Hperm) as [Hnodes Hedges].
  assert (Hcalls : (length (calls_of d) + 1 = length addrs)%nat).
  { rewrite <- (length_map call_pair), (Permutation_length Hperm), consecutive_length. lia. }
  split; [exact Hcalls|].
  split. { rewrite <- (length_map edge_pair), (Permutation_length Hedges),
             <- (Permutation_length Hperm), length_map. reflexivity. }
  destruct addrs as [|a0 rest] eqn:Haddrs; [simpl in Hlen; lia|].
  assert (Hrest : rest <> []) by (destruct rest; [simpl in Hlen; lia|discriminate]).
  unfold calculate_graph_depth, calculate_graph_breadth, mbind, M_bind, get_self, mret, M_ret.
  cbn [graph with_graph].
  rewrite (chain_graph_depth _ (a0 :: rest) Hnd Hnodes Hedges a0 rest eq_refl Hrest).
  rewrite (chain_graph_breadth _ (a0 :: rest) Hnd Hnodes Hedges a0 rest eq_refl Hrest).
  simpl in Hcalls. assert (length rest = length (calls_of d)) as -> by lia.
  split; reflexivity.
Qed.

Lemma linear_chain_depth_and_breadth_witness :
  exists g b',
    build_graph (example_builder [example_call "0xA" "0xB"; example_call "0xB" "0xC";
                                  example_call "0xC" "0xD"]) = (Ok g, b')
    /\ calculate_graph_depth b' = (Ok 3, b')
    /\ calculate_graph_breadth b' = (Ok 1, b').
Proof.
  destruct (linear_chain_depth_and_breadth
              (example_builder [example_call "0xA" "0xB"; example_call "0xB" "0xC";
                                example_call "0xC" "0xD"])
              (example_document [example_call "0xA" "0xB"; example_call "0xB" "0xC";
                                 example_call "0xC" "0xD"])
              ["0xa"; "0xb"; "0xc"; "0xd"])
    as (g & b' & Hb & _ & _ & Hdepth & Hbreadth).
  - reflexivity.
  - compute_done.
  - compute_done.
  - simpl. lia.
  - reflexivity.
  - exists g, b'. split; [exact Hb|]. split; [exact Hdepth|exact Hbreadth].
Defined.


(** * Further properties of the code *)

(** ** Graph construction on arbitrary documents *)

(** [s.upper()] on ASCII text, used to state case-insensitivity. *)
Definition upper_ascii (c : ascii) : ascii :=
  let n := nat_of_ascii c in
  if ((97 <=? n)%nat && (n <=? 122)%nat)%bool then ascii_of_nat (n - 32) else c.

Fixpoint upper (s : string) : string :=
  match s with
  | EmptyString => EmptyString
  | String c s' => String (upper_ascii c) (upper s')
  end.

Lemma lower_ascii_idem c : PyStr.lower_ascii (PyStr.lower_ascii c) = PyStr.lower_ascii c.
Proof. destruct c as [[] [] [] [] [] [] [] []]; reflexivity. Qed.

Lemma lower_idem s : PyStr.lower (PyStr.lower s) = PyStr.lower s.
Proof. induction s as [|c s IH]; simpl; [reflexivity|]. rewrite lower_ascii_idem, IH. reflexivity. Qed.

Lemma lower_upper_ascii c : PyStr.lower_ascii (upper_ascii c) = PyStr.lower_ascii c.
Proof. destruct c as [[] [] [] [] [] [] [] []]; reflexivity. Qed.

Lemma lower_upper s : PyStr.lower (upper s) = PyStr.lower s.
Proof. induction s as [|c s IH]; simpl; [reflexivity|]. rewrite lower_upper_ascii, IH. reflexivity. Qed.

Lemma lower_length s : String.length (PyStr.lower s) = String.length s.
Proof. induction s as [|c s IH]; simpl; congruence. Qed.

Lemma first_seen_length_le seen l : (length (nx.first_seen seen l) <= length l)%nat.
Proof.
  revert seen. induction l as [|x l IH]; intros seen; simpl; [lia|].
  destruct (bool_decide (x ∈ seen)); simpl;
    [specialize (IH seen)|specialize (IH ({[x]} ∪ seen))]; lia.
Qed.

Lemma first_seen_nil seen l : (forall x, x ∈ l -> x ∈ seen) -> nx.first_seen seen l = [].
Proof.
  induction l as [|x l IH]; intros Hl; simpl; [reflexivity|].
  rewrite bool_decide_eq_true_2 by (apply Hl; left).
  apply IH. intros y Hy. apply Hl. right. exact Hy.
Qed.

Lemma kept_kept calls : kept (kept calls) = kept calls.
Proof.
  unfold kept. induction calls as [|c calls IH]; simpl; [reflexivity|].
  destruct (negb _) eqn:Hc; simpl; [rewrite Hc, IH|]; auto.
Qed.

Lemma build_from_calls_kept calls : build_from_calls calls = build_from_calls (kept calls).
Proof. rewrite !build_from_calls_fold. apply fold_add_call_kept. Qed.

(** What [build_graph] did when it returned normally. *)
Lemma build_graph_returns b g b' :
  build_graph b = (Ok g, b') ->
  exists d, document_of b = Some d /\ g = build_from_calls (calls_of d)
            /\ b' = with_graph (with_trace_data b d) g.
Proof.
  destruct (document_of b) as [d|] eqn:Hd.
  - rewrite (build_graph_loaded b d Hd). intros [= <- <-]. exists d. auto.
  - destruct b as [p f gr [t|]]; unfold document_of in Hd; simpl in Hd; [discriminate|].
    subst f. discriminate.
Qed.

(** X1. Whenever [build_graph] returns a graph, it has skipped the entries
    of the call list that lack a [from] or a [to] (key absent or empty
    string), and no other entry, without any further effect: the graph is
    the one built from the remaining entries alone, with one edge per
    remaining entry, in order and carrying its data. *)
Theorem build_graph_skips_incomplete_entries (b b' : GraphBuilder) (g : MultiDiGraph) :
  build_graph b = (Ok g, b') ->
  exists d,
    document_of b = Some d
    /\ b' = with_graph (with_trace_data b d) g
    /\ g = build_from_calls (kept (calls_of d))
    /\ map edge_data (edges g) = map call_data (kept (calls_of d))
    /\ (length (edges g) <= length (calls_of d))%nat
    /\ (forall c, c ∈ calls_of d ->
                  (c ∉ kept (calls_of d) <-> from_addr c = "" \/ to_addr c = "")).
Proof.
  intros Hb. destruct (build_graph_returns b g b' Hb) as (d & Hd & Hg & Hb').
  exists d. split; [exact Hd|]. split; [exact Hb'|].
  destruct (build_from_calls_spec (calls_of d)) as (_ & He & _). rewrite <- Hg in He.
  split; [|split; [|split]].
  - rewrite Hg. apply build_from_calls_kept.
  - exact He.
  - rewrite <- (length_map edge_data), He, length_map. unfold kept. apply List.filter_length_le.
  - intros c Hc. unfold kept. rewrite list_elem_of_In, filter_In, <- list_elem_of_In.
    rewrite negb_true_iff, orb_false_iff, !bool_decide_eq_false.
    destruct (decide (from_addr c = "")), (decide (to_addr c = "")); tauto.
Qed.

Definition incomplete_call : CallEntry :=
  {| call_from := Some "0xA"; call_to := None; call_type := None;
     call_function_signature := None; call_function_selector := None;
     call_value := None; call_depth := None |}.

Lemma build_graph_skips_incomplete_entries_witness :
  build_graph (example_builder [incomplete_call; example_call "0xA" "0xB"])
  = (Ok (build_from_calls [incomplete_call; example_call "0xA" "0xB"]),
     with_graph (example_builder [incomplete_call; example_call "0xA" "0xB"])
       (build_from_calls [incomplete_call; example_call "0xA" "0xB"]))
  /\ build_from_calls [incomplete_call; example_call "0xA" "0xB"]
     = build_from_calls [example_call "0xA" "0xB"].
Proof.
  split; [reflexivity|].
  destruct (build_graph_skips_incomplete_entries
              (example_builder [incomplete_call; example_call "0xA" "0xB"])
              (with_graph (example_builder [incomplete_call; example_call "0xA" "0xB"])
                 (build_from_calls [incomplete_call; example_call "0xA" "0xB"]))
              (build_from_calls [incomplete_call; example_call "0xA" "0xB"]))
    as (d & Hd & _ & Hk & _).
  - reflexivity.
  - injection Hd as <-. exact Hk.
Defined.

(** X2. Whatever the document holds, a graph returned by [build_graph] has
    distinct nodes, each a non-empty lower-case string that is an endpoint
    of some edge; every edge joins two nodes; no two edges share source,
    target and key; and there are at most twice as many nodes as edges. *)
Theorem build_graph_invariants (b b' : GraphBuilder) (g : MultiDiGraph) :
  build_graph b = (Ok g, b') ->
  NoDup (nodes g)
  /\ (forall e, e ∈ edges g -> e_from e ∈ nodes g /\ e_to e ∈ nodes g)
  /\ NoDup (map edge_id (edges g))
  /\ (forall n, n ∈ nodes g ->
        n <> "" /\ PyStr.lower n = n /\ exists e, e ∈ edges g /\ (n = e_from e \/ n = e_to e))
  /\ (length (nodes g) <= 2 * length (edges g))%nat.
Proof.
  intros (d & _ & -> & _)%build_graph_returns.
  destruct (build_from_calls_spec (calls_of d)) as (Hn & He & Hk).
  destruct (build_from_calls_well_formed (calls_of d)) as [Hnd Hwf].
  pose proof (kept_valid (calls_of d)) as Hv. rewrite Forall_forall in Hv.
  split; [exact Hnd|]. split; [exact Hwf|]. split; [apply keys_count_NoDup, Hk|]. split.
  - intros n Hin. rewrite Hn in Hin. apply first_seen_subset in Hin.
    apply list_elem_of_In, in_flat_map in Hin as (c & Hc & Hin).
    assert (Hcd : call_data c ∈ map edge_data (edges (build_from_calls (calls_of d)))).
    { rewrite He. apply list_elem_of_In, in_map, Hc. }
    apply list_elem_of_In, in_map_iff in Hcd as (e & Hee & Hine).
    unfold edge_data, call_data in Hee. injection Hee as H1 H2 _.
    apply list_elem_of_In in Hc. destruct (Hv c Hc) as [Hf Ht].
    simpl in Hin. destruct Hin as [<-|[<-|[]]].
    + split; [exact Hf|]. split; [apply lower_idem|].
      exists e. split; [apply list_elem_of_In, Hine|]. left. symmetry. exact H1.
    + split; [exact Ht|]. split; [apply lower_idem|].
      exists e. split; [apply list_elem_of_In, Hine|]. right. symmetry. exact H2.
  - rewrite Hn. etransitivity; [apply first_seen_length_le|].
    rewrite <- (length_map edge_data (edges _)), He, length_map.
    generalize (kept (calls_of d)). intros l. induction l as [|c l IH]; simpl; lia.
Qed.

Lemma build_graph_invariants_witness :
  NoDup (nodes (build_from_calls [example_call "0xA" "0xB"]))
  /\ (length (nodes (build_from_calls [example_call "0xA" "0xB"])) <= 2 * 1)%nat.
Proof.
  destruct (build_graph_invariants (example_builder [example_call "0xA" "0xB"])
              (with_graph (example_builder [example_call "0xA" "0xB"])
                          (build_from_calls [example_call "0xA" "0xB"]))
              (build_from_calls [example_call "0xA" "0xB"]))
    as (H1 & _ & _ & _ & H5).
  - reflexivity.
  - split; [exact H1|exact H5].
Defined.

(** X3. Building again does not accumulate: [build_graph] starts from a
    fresh graph each time, so a second call on the builder left by the
    first returns the same graph and leaves the builder as it is. *)
Theorem build_graph_twice (b b' : GraphBuilder) (g : MultiDiGraph) :
  build_graph b = (Ok g, b') -> build_graph b' = (Ok g, b').
Proof.
  intros (d & _ & -> & ->)%build_graph_returns.
  rewrite (build_graph_loaded _ d) by reflexivity. reflexivity.
Qed.

Lemma build_graph_twice_witness :
  build_graph (with_graph (example_builder [example_call "0xA" "0xB"])
                          (build_from_calls [example_call "0xA" "0xB"]))
  = (Ok (build_from_calls [example_call "0xA" "0xB"]),
     with_graph (example_builder [example_call "0xA" "0xB"])
                (build_from_calls [example_call "0xA" "0xB"])).
Proof.
  apply (build_graph_twice (example_builder [example_call "0xA" "0xB"])). reflexivity.
Defined.

(** The same entry with its two addresses in upper case. *)
Definition upper_addresses (c : CallEntry) : CallEntry :=
  {| call_from := upper <$> call_from c; call_to := upper <$> call_to c;
     call_type := call_type c; call_function_signature := call_function_signature c;
     call_function_selector := call_function_selector c;
     call_value := call_value c; call_depth := call_depth c |}.

Lemma call_data_upper c : call_data (upper_addresses c) = call_data c.
Proof.
  unfold call_data, from_addr, to_addr, edge_attrs_of, call_function, upper_addresses. simpl.
  destruct (call_from c), (call_to c); simpl; rewrite ?lower_upper; reflexivity.
Qed.

Lemma add_call_data g c c' : call_data c = call_data c' -> add_call g c = add_call g c'.
Proof.
  intros H.
  pose proof (f_equal (fun x => fst (fst x)) H) as H1.
  pose proof (f_equal (fun x => snd (fst x)) H) as H2.
  pose proof (f_equal snd H) as H3. simpl in H1, H2, H3.
  unfold add_call. rewrite H1, H2, H3. reflexivity.
Qed.

Lemma fold_add_call_data calls calls' g :
  map call_data calls = map call_data calls' ->
  fold_left add_call calls g = fold_left add_call calls' g.
Proof.
  revert calls' g. induction calls as [|c calls IH]; intros [|c' calls'] g; simpl;
    try discriminate; [reflexivity|].
  intros H. pose proof (f_equal (fun l => hd (call_data c) l) H) as Hc.
  pose proof (f_equal (@tl _) H) as Hr. simpl in Hc, Hr.
  rewrite (add_call_data g c c' Hc). apply IH, Hr.
Qed.

(** X4. Addresses are compared without regard to letter case: writing every
    address of the call list in upper case gives the same graph, and adding
    the upper-case copies to the list adds edges but no node. *)
Theorem build_graph_ignores_address_case (calls : list CallEntry) :
  build_from_calls (map upper_addresses calls) = build_from_calls calls
  /\ nodes (build_from_calls (calls ++ map upper_addresses calls))
     = nodes (build_from_calls calls)
  /\ length (edges (build_from_calls (calls ++ map upper_addresses calls)))
     = (2 * length (edges (build_from_calls calls)))%nat.
Proof.
  assert (Hmap : map call_data (map upper_addresses calls) = map call_data calls).
  { rewrite map_map. apply map_ext. apply call_data_upper. }
  assert (Hkept : forall l l', map call_data l = map call_data l' ->
                    map call_data (kept l) = map call_data (kept l')).
  { induction l as [|c l IH]; intros [|c' l']; simpl; try discriminate; [reflexivity|].
    intros H. pose proof (f_equal (fun l => hd (call_data c) l) H) as Hc.
    pose proof (f_equal (@tl _) H) as Hr. simpl in Hc, Hr.
    pose proof (f_equal (fun x => fst (fst x)) Hc) as H1.
    pose proof (f_equal (fun x => snd (fst x)) Hc) as H2. simpl in H1, H2.
    rewrite H1, H2. destruct (negb _); simpl; [|apply IH, Hr].
    rewrite Hc. f_equal. apply IH, Hr. }
  split; [|split].
  - rewrite !build_from_calls_fold. apply fold_add_call_data, Hmap.
  - destruct (build_from_calls_spec (calls ++ map upper_addresses calls)) as (Hn & _ & _).
    destruct (build_from_calls_spec calls) as (Hn' & _ & _).
    rewrite Hn, Hn'. unfold kept. rewrite List.filter_app, flat_map_app, first_seen_app.
    fold (kept calls). fold (kept (map upper_addresses calls)).
    assert (Hnil : nx.first_seen (list_to_set (flat_map endpoints (kept calls)) ∪ ∅)
                     (flat_map endpoints (kept (map upper_addresses calls))) = []).
    { apply first_seen_nil. intros x Hx. apply elem_of_union_l, elem_of_list_to_set.
      apply list_elem_of_In, in_flat_map in Hx as (c & Hc & Hx).
      assert (Hcd : call_data c ∈ map call_data (kept calls)).
      { rewrite <- (Hkept _ _ Hmap). apply list_elem_of_In, in_map, Hc. }
      apply list_elem_of_In, in_map_iff in Hcd as (c0 & Hc0 & Hin0).
      apply list_elem_of_In, in_flat_map. exists c0. split; [exact Hin0|].
      unfold call_data in Hc0. injection Hc0 as H1 H2 _.
      unfold endpoints in *. rewrite H1, H2. exact Hx. }
    rewrite Hnil, app_nil_r. reflexivity.
  - destruct (build_from_calls_spec (calls ++ map upper_addresses calls)) as (_ & He & _).
    destruct (build_from_calls_spec calls) as (_ & He' & _).
    rewrite <- (length_map edge_data), He, <- (length_map edge_data (edges _)), He'.
    unfold kept. rewrite List.filter_app, map_app, length_app.
    fold (kept calls). fold (kept (map upper_addresses calls)).
    rewrite (Hkept _ _ Hmap). lia.
Qed.


(** ** Fan-out from a single caller *)

(** Successors met for the first time during one pop of the depth loop are
    all recorded one hop below the popped node and queued in order. *)
Lemma relax_fold_fresh g current cd l s :
  (forall v, v ∈ l -> v <> current /\ v ∉ visited_in_path s) ->
  queue (fold_left (relax g current cd) l s) = queue s ++ l
  /\ visited_in_path (fold_left (relax g current cd) l s) = visited_in_path s
  /\ max_depth (fold_left (relax g current cd) l s) = max_depth s
  /\ (forall v, v ∈ l -> depths (fold_left (relax g current cd) l s) !! v = Some (cd + 1))
  /\ (forall v, v ∉ l -> depths (fold_left (relax g current cd) l s) !! v = depths s !! v).
Proof.
  revert s. induction l as [|x l IH]; intros s Hl; simpl.
  - rewrite app_nil_r. repeat split; auto. intros v Hv. inversion Hv.
  - destruct (Hl x) as [Hx1 Hx2]; [left|].
    assert (Hr : relax g current cd s x
                 = {| depths := <[x := cd + 1]> (depths s); queue := queue s ++ [x];
                      visited_in_path := visited_in_path s; max_depth := max_depth s |}).
    { unfold relax. rewrite bool_decide_eq_false_2 by exact Hx1.
      rewrite (bool_decide_eq_false_2 (x ∈ visited_in_path s)) by exact Hx2. reflexivity. }
    rewrite Hr.
    destruct (IH {| depths := <[x := cd + 1]> (depths s); queue := queue s ++ [x];
                    visited_in_path := visited_in_path s; max_depth := max_depth s |})
      as (Hq & Hv & Hm & Hd & Hd').
    { intros v Hv. simpl. apply Hl. right. exact Hv. }
    rewrite Hq, Hv, Hm. simpl. rewrite <- app_assoc. simpl.
    repeat split; auto.
    + intros v Hvin. destruct (decide (v ∈ l)) as [Hin|Hnin]; [apply Hd, Hin|].
      rewrite Hd' by exact Hnin. simpl.
      apply elem_of_cons in Hvin as [->|Hvin]; [|contradiction]. apply lookup_insert_eq.
    + intros v Hvn. apply not_elem_of_cons in Hvn as [Hv1 Hv2].
      rewrite Hd' by exact Hv2. simpl. apply lookup_insert_ne. congruence.
Qed.

(** The same for the breadth loop: they all join the next level. *)
Lemma discover_fold_fresh current level l s :
  NoDup l ->
  (forall v, v ∈ l -> v <> current /\ v ∉ visited s) ->
  level_at (levels (fold_left (discover current level) l s)) (level + 1)
  = level_at (levels s) (level + 1) ++ l
  /\ (forall k, k <> level + 1 ->
        levels (fold_left (discover current level) l s) !! k = levels s !! k)
  /\ level_queue (fold_left (discover current level) l s)
     = level_queue s ++ map (fun v => (v, level + 1)) l
  /\ max_breadth (fold_left (discover current level) l s) = max_breadth s.
Proof.
  revert s. induction l as [|x l IH]; intros s Hnd Hl; simpl.
  - rewrite !app_nil_r. auto.
  - apply NoDup_cons in Hnd as [Hxl Hnd]. destruct (Hl x) as [Hx1 Hx2]; [left|].
    assert (Hr : discover current level s x
                 = {| levels := <[level + 1 := level_at (levels s) (level + 1) ++ [x]]> (levels s);
                      visited := {[x]} ∪ visited s;
                      level_queue := level_queue s ++ [(x, level + 1)];
                      max_breadth := max_breadth s |}).
    { unfold discover. rewrite bool_decide_eq_false_2 by exact Hx1.
      rewrite (bool_decide_eq_false_2 (x ∈ visited s)) by exact Hx2. reflexivity. }
    rewrite Hr.
    destruct (IH {| levels := <[level + 1 := level_at (levels s) (level + 1) ++ [x]]> (levels s);
                    visited := {[x]} ∪ visited s;
                    level_queue := level_queue s ++ [(x, level + 1)];
                    max_breadth := max_breadth s |} Hnd) as (Hlv & Hk & Hq & Hm).
    { intros v Hv. simpl. destruct (Hl v) as [H1 H2]; [right; exact Hv|].
      split; [exact H1|]. intros [Hc|Hc]%elem_of_union; [|contradiction].
      apply elem_of_singleton in Hc. subst v. contradiction. }
    rewrite Hlv, Hq, Hm. simpl. rewrite <- !app_assoc. simpl. repeat split; auto.
    + unfold level_at at 1. rewrite lookup_insert_eq. simpl. rewrite <- app_assoc. reflexivity.
    + intros k Hne. rewrite Hk by exact Hne. simpl. apply lookup_insert_ne. congruence.
Qed.

Section FanOut.

Variable g : MultiDiGraph.
Variable root : string.
Hypothesis fan_nodes_distinct : NoDup (nodes g).
Hypothesis fan_nodes : forall n, n ∈ nodes g <-> n = root \/ n ∈ map e_to (edges g).
Hypothesis fan_edges : forall e, e ∈ edges g -> e_from e = root /\ e_to e <> root.
Hypothesis fan_nonempty : edges g <> [].

Lemma fan_successors_root x : x ∈ nx.successors g root <-> x ∈ map e_to (edges g).
Proof.
  unfold nx.successors. rewrite first_seen_elem.
  assert (Hf : List.filter (fun e => bool_decide (e_from e = root)) (edges g) = edges g).
  { apply forallb_filter_id. apply forallb_forall. intros e He.
    apply bool_decide_eq_true, fan_edges, list_elem_of_In, He. }
  rewrite Hf. set_solver.
Qed.

Lemma fan_successors_leaf t : t <> root -> nx.successors g t = [].
Proof.
  intros Ht. unfold nx.successors. rewrite filter_none; [reflexivity|].
  intros e He. apply bool_decide_eq_false. destruct (fan_edges e He) as [-> _]. congruence.
Qed.

Lemma fan_successors_not_root x : x ∈ nx.successors g root -> x <> root.
Proof.
  intros Hx%fan_successors_root. apply list_elem_of_In, in_map_iff in Hx as (e & <- & He).
  apply fan_edges, list_elem_of_In, He.
Qed.

Lemma fan_successors_nonempty : nx.successors g root <> [].
Proof.
  intros Hnil.
  assert (Hall : forall e, e ∈ edges g -> False).
  { intros e He. assert (Hin : e_to e ∈ nx.successors g root).
    { apply fan_successors_root, list_elem_of_In, in_map, list_elem_of_In, He. }
    rewrite Hnil in Hin. inversion Hin. }
  apply fan_nonempty. destruct (edges g) as [|e l]; [reflexivity|].
  exfalso. apply (Hall e). left.
Qed.

Lemma fan_nodes_perm : nodes g ≡ₚ root :: nx.successors g root.
Proof.
  apply NoDup_Permutation; [exact fan_nodes_distinct| |].
  - apply NoDup_cons. split; [|apply first_seen_NoDup].
    intros H%fan_successors_not_root. congruence.
  - intros x. rewrite fan_nodes, elem_of_cons, fan_successors_root. reflexivity.
Qed.

Lemma fan_in_degree x : nx.in_degree g x = 0 <-> x ∉ map e_to (edges g).
Proof.
  unfold nx.in_degree. split.
  - intros H Hin. apply list_elem_of_In, in_map_iff in Hin as (e & Hx & He).
    destruct (List.filter (fun e => bool_decide (e_to e = x)) (edges g)) as [|e' l] eqn:Hf;
      [|simpl in H; lia].
    assert (Hc : In e []) by (rewrite <- Hf; apply filter_In; split;
                              [exact He|apply bool_decide_eq_true, Hx]).
    destruct Hc.
  - intros Hnin. rewrite filter_none; [reflexivity|].
    intros e He. apply bool_decide_eq_false. intros Hx. apply Hnin.
    apply list_elem_of_In, in_map_iff. exists e. split; [exact Hx|apply list_elem_of_In, He].
Qed.

Lemma fan_roots : roots g = [root].
Proof.
  assert (Hf : List.filter (fun n => nx.in_degree g n =? 0) (nodes g) = [root]).
  { apply Permutation_singleton_r. apply NoDup_Permutation.
    - apply NoDup_ListNoDup, List.NoDup_filter, NoDup_ListNoDup, fan_nodes_distinct.
    - apply NoDup_singleton.
    - intros x. rewrite list_elem_of_In, filter_In, <- list_elem_of_In, fan_nodes,
        Z.eqb_eq, fan_in_degree, list_elem_of_singleton.
      split; [tauto|]. intros ->. split; [auto|].
      intros Hin. apply list_elem_of_In, in_map_iff in Hin as (e & Hx & He).
      apply list_elem_of_In, fan_edges in He. tauto. }
  unfold roots. rewrite Hf. reflexivity.
Qed.

Lemma fan_nonempty_nodes : (nx.number_of_nodes g =? 0) = false.
Proof.
  apply Z.eqb_neq. unfold nx.number_of_nodes. rewrite fan_nodes_perm. simpl. lia.
Qed.

Lemma fan_depth_drain q : forall d vis m,
  (forall t, t ∈ q -> d !! t = Some 1 /\ t <> root) ->
  max_depth (depth_while g {| depths := d; queue := q; visited_in_path := vis;
                              max_depth := m |})
  = match q with [] => m | _ => Z.max m 1 end.
Proof.
  induction q as [|t q IH]; intros d vis m Hq.
  - rewrite depth_while_done. reflexivity.
  - destruct (Hq t) as [Hd Ht]; [left|].
    rewrite (depth_while_step _ _ _ _ _ _ 1 Hd).
    unfold depth_body. rewrite (fan_successors_leaf t Ht). simpl.
    rewrite IH by (intros t' Ht'; apply Hq; right; exact Ht').
    destruct q; lia.
Qed.

Lemma fan_graph_depth : graph_depth g = 1.
Proof.
  unfold graph_depth. rewrite fan_nonempty_nodes, fan_roots. simpl.
  unfold depth_run.
  rewrite (depth_while_step _ _ _ _ _ _ 0) by apply lookup_singleton_eq.
  unfold depth_body.
  destruct (relax_fold_fresh g root 0 (nx.successors g root)
              {| depths := {[root := 0]}; queue := []; visited_in_path := {[root]} ∪ ∅;
                 max_depth := 0 |}) as (Hq & Hv & Hm & Hd & _).
  { intros v Hv. split; [apply fan_successors_not_root, Hv|].
    simpl. apply fan_successors_not_root in Hv. set_solver. }
  cbn [depths queue visited_in_path max_depth] in *.
  rewrite Hq, Hv, Hm. simpl.
  rewrite fan_depth_drain.
  - pose proof fan_successors_nonempty. destruct (nx.successors g root); [congruence|reflexivity].
  - intros t Ht. split; [apply Hd, Ht|apply fan_successors_not_root, Ht].
Qed.

Lemma fan_breadth_drain q : forall lv vis m,
  (forall p, p ∈ q -> fst p <> root /\ snd p = 1) ->
  max_breadth (breadth_while g {| levels := lv; visited := vis; level_queue := q;
                                  max_breadth := m |})
  = match q with [] => m | _ => Z.max m (Z.of_nat (length (level_at lv 1))) end.
Proof.
  induction q as [|[t k] q IH]; intros lv vis m Hq.
  - rewrite breadth_while_done. reflexivity.
  - destruct (Hq (t, k)) as [Ht Hk]; [left|]. simpl in Ht, Hk. subst k.
    rewrite breadth_while_step. unfold breadth_body.
    rewrite (fan_successors_leaf t Ht). simpl.
    rewrite IH by (intros p Hp; apply Hq; right; exact Hp).
    destruct q; lia.
Qed.

Lemma fan_graph_breadth : graph_breadth g = Z.of_nat (length (nx.successors g root)).
Proof.
  unfold graph_breadth. rewrite fan_nonempty_nodes, fan_roots. simpl.
  unfold breadth_run. rewrite breadth_while_step. unfold breadth_body.
  destruct (discover_fold_fresh root 0 (nx.successors g root)
              {| levels := {[0 := [root]]}; visited := {[root]}; level_queue := [];
                 max_breadth := 0 |}) as (Hlv & Hk & Hq & Hm).
  { apply first_seen_NoDup. }
  { intros v Hv. split; [apply fan_successors_not_root, Hv|].
    simpl. apply fan_successors_not_root in Hv. set_solver. }
  cbn [levels visited level_queue max_breadth] in *.
  rewrite Hq, Hm. simpl.
  assert (H0 : level_at (levels (fold_left (discover root 0) (nx.successors g root)
                  {| levels := {[0 := [root]]}; visited := {[root]}; level_queue := [];
                     max_breadth := 0 |})) 0 = [root]).
  { unfold level_at. rewrite Hk by lia. rewrite lookup_singleton_eq. reflexivity. }
  rewrite H0. rewrite fan_breadth_drain.
  - change (0 + 1) with 1 in Hlv. rewrite Hlv. unfold level_at at 1. rewrite lookup_singleton_ne by lia. simpl.
    pose proof fan_successors_nonempty.
    destruct (nx.successors g root) as [|x l]; [congruence|]. simpl. lia.
  - intros p Hp. apply list_elem_of_In, in_map_iff in Hp as (v & <- & Hv). simpl.
    split; [|reflexivity]. apply fan_successors_not_root, list_elem_of_In, Hv.
Qed.

End FanOut.

(** X5. When every call of the document is made by one and the same
    address [root] to some other address, the graph has depth 1 and its
    breadth is the number of distinct callees, which is the number of
    nodes less one; parallel calls to the same callee do not count
    twice. *)
Theorem fan_out_depth_and_breadth (b : GraphBuilder) (d : TraceDocument) (root : string) :
  document_of b = Some d ->
  calls_of d <> [] ->
  root <> "" ->
  (forall c, c ∈ calls_of d -> from_addr c = root /\ to_addr c <> root /\ to_addr c <> "") ->
  exists g b',
    build_graph b = (Ok g, b')
    /\ calculate_graph_depth b' = (Ok 1, b')
    /\ calculate_graph_breadth b' = (Ok (nx.number_of_nodes g - 1), b')
    /\ nx.number_of_nodes g - 1
       = Z.of_nat (size (list_to_set (map to_addr (calls_of d)) : gset string)).
Proof.
  intros Hd Hne Hroot Hcalls.
  exists (build_from_calls (calls_of d)), (with_graph (with_trace_data b d)
                                             (build_from_calls (calls_of d))).
  split; [apply build_graph_loaded, Hd|].
  set (g := build_from_calls (calls_of d)).
  destruct (build_from_calls_spec (calls_of d)) as (Hn & He & _).
  assert (Hk : kept (calls_of d) = calls_of d).
  { apply kept_all_canonical. apply Forall_forall. intros c Hc.
    destruct (Hcalls c Hc) as (H1 & _ & H3). split; congruence. }
  rewrite Hk in Hn, He. fold g in Hn, He.
  assert (Hto : map e_to (edges g) = map to_addr (calls_of d)).
  { pose proof (f_equal (map (fun x => snd (fst x))) He) as H. rewrite !map_map in H. exact H. }
  assert (Hfrom : map e_from (edges g) = map from_addr (calls_of d)).
  { pose proof (f_equal (map (fun x => fst (fst x))) He) as H. rewrite !map_map in H. exact H. }
  assert (Hnodes : forall n, n ∈ nodes g <-> n = root \/ n ∈ map e_to (edges g)).
  { intros n. rewrite Hn, first_seen_elem, Hto. split.
    - intros [Hin _]. apply list_elem_of_In, in_flat_map in Hin as (c & Hc & Hin).
      apply list_elem_of_In in Hc. destruct (Hcalls c Hc) as (H1 & _).
      simpl in Hin. destruct Hin as [<-|[<-|[]]]; [left; exact H1|right].
      apply list_elem_of_In, in_map, list_elem_of_In, Hc.
    - intros Hor. split; [|set_solver]. apply list_elem_of_In, in_flat_map.
      destruct Hor as [->|Hin].
      + destruct (calls_of d) as [|c l] eqn:Hl; [congruence|]. exists c.
        split; [left; reflexivity|]. left. apply Hcalls. left.
      + apply list_elem_of_In, in_map_iff in Hin as (c & <- & Hc). exists c.
        split; [exact Hc|]. right. left. reflexivity. }
  assert (Hedges : forall e, e ∈ edges g -> e_from e = root /\ e_to e <> root).
  { intros e Hin.
    assert (Hcd : edge_data e ∈ map call_data (calls_of d)).
    { rewrite <- He. apply list_elem_of_In, in_map, list_elem_of_In, Hin. }
    apply list_elem_of_In, in_map_iff in Hcd as (c & Hc & Hinc).
    apply list_elem_of_In in Hinc. destruct (Hcalls c Hinc) as (H1 & H2 & _).
    unfold edge_data, call_data in Hc.
    pose proof (f_equal (fun x => fst (fst x)) Hc) as Hf.
    pose proof (f_equal (fun x => snd (fst x)) Hc) as Ht. simpl in Hf, Ht.
    rewrite <- Hf, <- Ht. auto. }
  assert (Hnonempty : edges g <> []).
  { intros Hnil. rewrite Hnil in Hto. destruct (calls_of d); [congruence|discriminate]. }
  assert (Hnd : NoDup (nodes g)) by (rewrite Hn; apply first_seen_NoDup).
  assert (Hcount : nx.number_of_nodes g - 1 = Z.of_nat (length (nx.successors g root))).
  { unfold nx.number_of_nodes.
    rewrite (fan_nodes_perm g root Hnd Hnodes Hedges Hnonempty). simpl length. lia. }
  split; [|split].
  - unfold calculate_graph_depth, mbind, M_bind, get_self, mret, M_ret. simpl.
    rewrite (fan_graph_depth g root Hnd Hnodes Hedges Hnonempty). reflexivity.
  - unfold calculate_graph_breadth, mbind, M_bind, get_self, mret, M_ret. simpl.
    rewrite (fan_graph_breadth g root Hnd Hnodes Hedges Hnonempty), Hcount. reflexivity.
  - rewrite Hcount. f_equal. unfold nx.successors.
    rewrite first_seen_length. f_equal.
    assert (Hf : List.filter (fun e => bool_decide (e_from e = root)) (edges g) = edges g).
    { apply forallb_filter_id. apply forallb_forall. intros e Hin.
      apply bool_decide_eq_true, Hedges, list_elem_of_In, Hin. }
    rewrite Hf, Hto. reflexivity.
Qed.

Lemma fan_out_depth_and_breadth_witness :
  exists g b',
    build_graph (example_builder [example_call "0xA" "0xB"; example_call "0xA" "0xC";
                                  example_call "0xA" "0xB"]) = (Ok g, b')
    /\ calculate_graph_depth b' = (Ok 1, b')
    /\ calculate_graph_breadth b' = (Ok 2, b').
Proof.
  destruct (fan_out_depth_and_breadth
              (example_builder [example_call "0xA" "0xB"; example_call "0xA" "0xC";
                                example_call "0xA" "0xB"])
              (example_document [example_call "0xA" "0xB"; example_call "0xA" "0xC";
                                 example_call "0xA" "0xB"]) "0xa")
    as (g & b' & Hg & Hdepth & Hbreadth & Hn).
  - reflexivity.
  - discriminate.
  - discriminate.
  - intros c Hc. repeat (apply elem_of_cons in Hc as [->|Hc]; [vm_compute; repeat split; discriminate|]).
    inversion Hc.
  - exists g, b'. split; [exact Hg|]. split; [exact Hdepth|].
    rewrite Hbreadth, Hn. vm_compute. reflexivity.
Defined.


(** ** Range of the breadth *)

(** The invariant of the breadth loop: a level never lists a node twice,
    only visited nodes are listed, and only nodes of [U] are visited. *)
Definition levels_within (U : gset string) (s : BreadthState) : Prop :=
  (forall k, NoDup (level_at (levels s) k))
  /\ (forall k x, x ∈ level_at (levels s) k -> x ∈ visited s)
  /\ visited s ⊆ U
  /\ max_breadth s <= Z.of_nat (size U).

Lemma NoDup_length_le_size (U : gset string) (l : list string) :
  NoDup l -> (forall x, x ∈ l -> x ∈ U) -> (length l <= size U)%nat.
Proof.
  intros Hnd Hsub. rewrite <- (size_list_to_set (C := gset string) l Hnd).
  apply subseteq_size. intros x Hx. apply Hsub. apply elem_of_list_to_set in Hx. exact Hx.
Qed.

Lemma discover_within U current level s x :
  x ∈ U -> levels_within U s -> levels_within U (discover current level s x).
Proof.
  intros Hx (Hnd & Hin & Hsub & Hm). unfold discover.
  destruct (bool_decide (x = current)); [repeat split; assumption|].
  destruct (bool_decide (x ∈ visited s)) eqn:Hv; [repeat split; assumption|].
  apply bool_decide_eq_false in Hv.
  repeat split; simpl.
  - intros k. unfold level_at at 1. destruct (decide (k = level + 1)) as [->|Hne].
    + rewrite lookup_insert_eq. simpl. apply NoDup_app. split; [apply Hnd|].
      split; [|apply NoDup_singleton].
      intros y Hy Hy'. apply list_elem_of_singleton in Hy'. subst y.
      apply Hv, (Hin _ _ Hy).
    + rewrite lookup_insert_ne by congruence. apply Hnd.
  - intros k y. unfold level_at at 1. destruct (decide (k = level + 1)) as [->|Hne].
    + rewrite lookup_insert_eq. simpl. intros [Hy|Hy]%elem_of_app.
      * apply elem_of_union_r, (Hin _ _ Hy).
      * apply list_elem_of_singleton in Hy. subst y. apply elem_of_union_l, elem_of_singleton.
        reflexivity.
    + rewrite lookup_insert_ne by congruence. intros Hy. apply elem_of_union_r, (Hin _ _ Hy).
  - intros y [Hy|Hy]%elem_of_union; [|apply Hsub, Hy].
    apply elem_of_singleton in Hy. subst y. exact Hx.
  - exact Hm.
Qed.

Lemma discover_fold_within U current level l s :
  (forall x, x ∈ l -> x ∈ U) -> levels_within U s ->
  levels_within U (fold_left (discover current level) l s).
Proof.
  revert s. induction l as [|x l IH]; intros s Hl Hs; simpl; [exact Hs|].
  apply IH; [intros y Hy; apply Hl; right; exact Hy|].
  apply discover_within; [apply Hl; left|exact Hs].
Qed.

Lemma breadth_body_within U g current level s :
  (forall e, e ∈ edges g -> e_to e ∈ U) -> levels_within U s ->
  levels_within U (breadth_body g current level s).
Proof.
  intros Hg Hs. unfold breadth_body.
  destruct (discover_fold_within U current level (nx.successors g current) s)
    as (Hnd & Hin & Hsub & Hm); [|exact Hs|].
  { intros x Hx. apply successors_target in Hx.
    apply list_elem_of_In, in_map_iff in Hx as (e & <- & He). apply Hg, list_elem_of_In, He. }
  repeat split; simpl; try assumption.
  apply Z.max_lub; [exact Hm|]. apply inj_le.
  apply NoDup_length_le_size; [apply Hnd|].
  intros x Hx. apply Hsub, (Hin _ _ Hx).
Qed.

Lemma breadth_while_within U g s :
  (forall e, e ∈ edges g -> e_to e ∈ U) -> levels_within U s ->
  levels_within U (breadth_while g s).
Proof.
  funelim (breadth_while g s); simp breadth_while; intros Hg Hs; try exact Hs.
  match goal with IH : forall U', _ -> levels_within U' _ -> _ |- _ => apply IH end;
    [exact Hg|].
  apply breadth_body_within; [exact Hg|].
  destruct Hs as (H1 & H2 & H3 & H4). repeat split; assumption.
Qed.

Lemma discover_fold_other_levels current level l s k :
  k <> level + 1 -> levels (fold_left (discover current level) l s) !! k = levels s !! k.
Proof.
  intros Hk. revert s. induction l as [|x l IH]; intros s; simpl; [reflexivity|].
  rewrite IH. unfold discover. destruct (bool_decide (x = current)); [reflexivity|].
  destruct (bool_decide (x ∈ visited s)); [reflexivity|].
  simpl. apply lookup_insert_ne. congruence.
Qed.

Lemma roots_subset g x : x ∈ roots g -> x ∈ nodes g.
Proof.
  unfold roots. destruct (List.filter _ (nodes g)) as [|y l] eqn:Hf; [auto|].
  rewrite <- Hf. intros Hx. apply list_elem_of_In, filter_In in Hx as [Hx _].
  apply list_elem_of_In, Hx.
Qed.

Lemma roots_nonempty g : nodes g <> [] -> roots g <> [].
Proof.
  unfold roots. destruct (List.filter _ (nodes g)) as [|y l]; [auto|discriminate].
Qed.

(** X6. On a graph whose edges join nodes of the graph (every graph
    [build_graph] makes is one), the breadth lies between 1 and the number
    of nodes, except that it is 0 for the graph without nodes; so the
    breadth is 0 exactly when the graph is empty. *)
Theorem graph_breadth_range (g : MultiDiGraph) :
  (forall e, e ∈ edges g -> e_to e ∈ nodes g) ->
  graph_breadth g <= nx.number_of_nodes g
  /\ (nodes g <> [] -> 1 <= graph_breadth g)
  /\ (graph_breadth g = 0 <-> nodes g = []).
Proof.
  intros Hwf.
  assert (Hlow : nodes g <> [] -> 1 <= graph_breadth g).
  { intros Hne. unfold graph_breadth.
    assert (Hnz : (nx.number_of_nodes g =? 0) = false).
    { apply Z.eqb_neq. unfold nx.number_of_nodes. destruct (nodes g); [congruence|simpl; lia]. }
    rewrite Hnz. pose proof (roots_nonempty g Hne) as Hr.
    destruct (roots g) as [|r rs]; [congruence|]. simpl.
    etransitivity; [|apply fold_breadth_ge].
    unfold breadth_run. rewrite breadth_while_step.
    etransitivity; [|apply breadth_while_max_ge].
    unfold breadth_body. cbn [max_breadth]. unfold level_at.
    rewrite discover_fold_other_levels by lia. simpl.
    rewrite lookup_singleton_eq. simpl. lia. }
  assert (Hup : graph_breadth g <= nx.number_of_nodes g).
  { unfold graph_breadth. destruct (nx.number_of_nodes g =? 0) eqn:Hz; [lia|].
    set (U := list_to_set (nodes g) : gset string).
    assert (HU : Z.of_nat (size U) <= nx.number_of_nodes g).
    { unfold nx.number_of_nodes. apply inj_le.
      subst U. rewrite <- first_seen_length. apply first_seen_length_le. }
    etransitivity; [|exact HU].
    assert (Hfold : forall l m, (forall x, x ∈ l -> x ∈ nodes g) -> m <= Z.of_nat (size U) ->
              fold_left (fun m start_node => max_breadth (breadth_run g start_node m)) l m
              <= Z.of_nat (size U)).
    { induction l as [|r l IH]; intros m Hl Hm; simpl; [exact Hm|].
      apply IH; [intros y Hy; apply Hl; right; exact Hy|].
      unfold breadth_run.
      assert (Hr : r ∈ U) by (apply elem_of_list_to_set, Hl; left).
      apply (breadth_while_within U g).
      - intros e He. apply elem_of_list_to_set, Hwf, He.
      - repeat split; simpl.
        + intros k. unfold level_at. destruct (decide (k = 0)) as [->|Hk].
          * rewrite lookup_singleton_eq. simpl. apply NoDup_singleton.
          * rewrite lookup_singleton_ne by congruence. simpl. apply NoDup_nil_2.
        + intros k x. unfold level_at. destruct (decide (k = 0)) as [->|Hk].
          * rewrite lookup_singleton_eq. simpl. intros Hx. apply list_elem_of_singleton in Hx.
            subst x. apply elem_of_singleton. reflexivity.
          * rewrite lookup_singleton_ne by congruence. simpl. intros Hx. inversion Hx.
        + intros y Hy. apply elem_of_singleton in Hy. subst y. exact Hr.
        + exact Hm. }
    apply Hfold; [apply roots_subset|lia]. }
  split; [exact Hup|]. split; [exact Hlow|]. split.
  - intros H0. destruct (nodes g) as [|x l] eqn:Hn; [reflexivity|].
    assert (H1 : 1 <= graph_breadth g) by (apply Hlow; discriminate). lia.
  - intros Hn. unfold graph_breadth, nx.number_of_nodes. rewrite Hn. reflexivity.
Qed.

Lemma graph_breadth_range_witness :
  graph_breadth reentrancy_cycle <= 3 /\ 1 <= graph_breadth reentrancy_cycle.
Proof.
  destruct (graph_breadth_range reentrancy_cycle) as (H1 & H2 & _).
  - intros e He. vm_compute in He.
    repeat (apply elem_of_cons in He as [->|He]; [vm_compute; set_solver|]).
    inversion He.
  - split; [exact H1|]. apply H2. vm_compute. discriminate.
Defined.


(** ** When the depth is zero *)

(** Recorded hop counts are never negative, and some queued node is
    recorded at one hop or more unless [max_depth] already is. *)
Definition hop_pending (s : DepthState) : Prop :=
  exists x d, x ∈ queue s /\ depths s !! x = Some d /\ 1 <= d.

Definition hops_nonneg (s : DepthState) : Prop :=
  forall x d, depths s !! x = Some d -> 0 <= d.

Lemma relax_hops_nonneg g current cd s v :
  0 <= cd -> hops_nonneg s -> hops_nonneg (relax g current cd s v).
Proof.
  intros Hcd Hs. unfold relax. destruct (bool_decide (v = current)); [exact Hs|].
  destruct (_ && _)%bool; [exact Hs|].
  intros x d. simpl. destruct (decide (x = v)) as [->|Hne].
  - rewrite lookup_insert_eq. intros [= <-]. lia.
  - rewrite lookup_insert_ne by congruence. apply Hs.
Qed.

Lemma relax_hop_pending g current cd s v :
  0 <= cd -> hop_pending s -> hop_pending (relax g current cd s v).
Proof.
  intros Hcd (x & d & Hq & Hd & Hge). unfold relax.
  destruct (bool_decide (v = current)); [exists x, d; auto|].
  destruct (_ && _)%bool; [exists x, d; auto|].
  assert (Hq' : x ∈ (if bool_decide (v ∈ visited_in_path s) then queue s else queue s ++ [v])).
  { destruct (bool_decide (v ∈ visited_in_path s)); [exact Hq|].
    apply elem_of_app. left. exact Hq. }
  destruct (decide (x = v)) as [->|Hne].
  - exists v, (cd + 1). simpl. rewrite lookup_insert_eq. split; [exact Hq'|]. split; [reflexivity|lia].
  - exists x, d. simpl. rewrite lookup_insert_ne by congruence. auto.
Qed.

Lemma relax_fold_hops g current cd l s :
  0 <= cd ->
  (hops_nonneg s -> hops_nonneg (fold_left (relax g current cd) l s))
  /\ (hop_pending s -> hop_pending (fold_left (relax g current cd) l s)).
Proof.
  intros Hcd. revert s. induction l as [|v l IH]; intros s; simpl; [auto|].
  destruct (IH (relax g current cd s v)) as [H1 H2]. split; intros Hs.
  - apply H1, relax_hops_nonneg; assumption.
  - apply H2, relax_hop_pending; assumption.
Qed.

Lemma relax_fold_first_hop g current cd l s v :
  0 <= cd -> v ∈ l -> v <> current -> v ∉ visited_in_path s ->
  hop_pending (fold_left (relax g current cd) l s).
Proof.
  intros Hcd Hin Hne Hnv. apply list_elem_of_split in Hin as (l1 & l2 & ->).
  rewrite fold_left_app. simpl. apply relax_fold_hops; [exact Hcd|].
  destruct (relax_fold_queue g current cd l1 s) as (app & Hq & Hv & _ & _).
  revert Hv. generalize (fold_left (relax g current cd) l1 s). intros s1 Hv.
  unfold relax. rewrite bool_decide_eq_false_2 by exact Hne.
  rewrite Hv. rewrite (bool_decide_eq_false_2 (v ∈ visited_in_path s)) by exact Hnv.
  simpl. exists v, (cd + 1). simpl. rewrite lookup_insert_eq.
  split; [apply elem_of_app; right; left|]. split; [reflexivity|lia].
Qed.

Lemma depth_while_hop g s :
  queue_recorded s -> hops_nonneg s -> 1 <= max_depth s \/ hop_pending s ->
  1 <= max_depth (depth_while g s).
Proof.
  funelim (depth_while g s); simp depth_while; intros Hrec Hnn Hor.
  - destruct Hor as [Hm|(x & dx & Hx & _)]; [exact Hm|]. simpl in Hx. inversion Hx.
  - match goal with IH : queue_recorded _ -> _ |- _ => apply IH end.
    + apply depth_body_recorded, Hrec.
    + unfold depth_body, hops_nonneg. cbn [depths].
      apply relax_fold_hops; [apply (Hnn current); assumption|]. exact Hnn.
    + assert (Hcd : 0 <= current_depth) by (apply (Hnn current); assumption).
      destruct Hor as [Hm|(x & dx & Hx & Hdx & Hge)].
      * left. rewrite depth_body_max. simpl in *. lia.
      * simpl in Hx, Hdx. destruct (decide (x = current)) as [->|Hne].
        { left. rewrite depth_body_max. simpl.
          assert (dx = current_depth) by congruence. lia. }
        right. apply elem_of_cons in Hx as [Hx|Hx]; [congruence|].
        unfold depth_body.
        destruct (relax_fold_hops g current current_depth (nx.successors g current)
                    {| depths := d; queue := rest; visited_in_path := {[current]} ∪ v;
                       max_depth := m |} Hcd) as [_ Hp].
        destruct Hp as (y & dy & Hy & Hdy & Hgey); [exists x, dx; auto|].
        exists y, dy. auto.
  - exfalso. destruct (Hrec current) as [x Hx]; [left|]. simpl in Hx. congruence.
Qed.

Lemma depth_run_hop g r m v :
  v ∈ nx.successors g r -> v <> r -> 1 <= max_depth (depth_run g r m).
Proof.
  intros Hv Hne. unfold depth_run.
  rewrite (depth_while_step _ _ _ _ _ _ 0) by apply lookup_singleton_eq.
  assert (Hrec : queue_recorded
                   {| depths := {[r := 0]}; queue := [r]; visited_in_path := ∅; max_depth := m |}).
  { intros x Hx. simpl in *. apply list_elem_of_singleton in Hx. subst x.
    rewrite lookup_singleton_eq. eauto. }
  assert (Hnn : hops_nonneg
                  {| depths := {[r := 0]}; queue := []; visited_in_path := {[r]} ∪ ∅;
                     max_depth := m |}).
  { intros x d. simpl. intros [_ <-]%lookup_singleton_Some. lia. }
  apply depth_while_hop.
  - apply depth_body_recorded, Hrec.
  - unfold depth_body, hops_nonneg. cbn [depths]. apply relax_fold_hops; [lia|exact Hnn].
  - right. unfold depth_body.
    destruct (relax_fold_first_hop g r 0 (nx.successors g r)
                {| depths := {[r := 0]}; queue := []; visited_in_path := {[r]} ∪ ∅;
                   max_depth := m |} v) as (y & dy & Hy & Hdy & Hgey); try assumption; try lia.
    { simpl. set_solver. }
    exists y, dy. auto.
Qed.

Lemma relax_fold_self g current cd l s :
  (forall v, v ∈ l -> v = current) -> fold_left (relax g current cd) l s = s.
Proof.
  revert s. induction l as [|v l IH]; intros s Hl; simpl; [reflexivity|].
  unfold relax at 2. rewrite bool_decide_eq_true_2 by (apply Hl; left).
  apply IH. intros y Hy. apply Hl. right. exact Hy.
Qed.

Lemma successors_elem g u v :
  v ∈ nx.successors g u <-> exists e, e ∈ edges g /\ e_from e = u /\ e_to e = v.
Proof.
  unfold nx.successors. rewrite first_seen_elem, list_elem_of_In, in_map_iff. split.
  - intros [(e & <- & He) _]. apply filter_In in He as [He Hu].
    apply bool_decide_eq_true in Hu. exists e. split; [apply list_elem_of_In, He|auto].
  - intros (e & He & Hu & Hv). split; [|set_solver]. exists e. split; [exact Hv|].
    apply filter_In. split; [apply list_elem_of_In, He|apply bool_decide_eq_true, Hu].
Qed.

(** X7. On a graph in which every node is an endpoint of an edge and every
    edge starts at a node (every graph [build_graph] makes is one), the
    depth is 0 exactly when no edge joins two different nodes: one call
    between distinct addresses is enough for a depth of at least 1, and
    self-calls alone never count. *)
Theorem graph_depth_zero_iff (g : MultiDiGraph) :
  (forall e, e ∈ edges g -> e_from e ∈ nodes g) ->
  (forall n, n ∈ nodes g -> exists e, e ∈ edges g /\ (n = e_from e \/ n = e_to e)) ->
  (graph_depth g = 0 <-> forall e, e ∈ edges g -> e_from e = e_to e).
Proof.
  intros Hfrom Hend. split.
  - intros H0 e He. destruct (decide (e_from e = e_to e)) as [Heq|Hne]; [exact Heq|exfalso].
    assert (Hroot : exists r v, r ∈ roots g /\ v ∈ nx.successors g r /\ v <> r).
    { unfold roots.
      destruct (List.filter (fun n => nx.in_degree g n =? 0) (nodes g)) as [|r l] eqn:Hf.
      - exists (e_from e), (e_to e). split; [apply Hfrom, He|].
        split; [|congruence]. apply successors_elem. exists e. auto.
      - assert (Hr : In r (List.filter (fun n => nx.in_degree g n =? 0) (nodes g)))
          by (rewrite Hf; left; reflexivity).
        apply filter_In in Hr as [Hr Hdeg]. apply Z.eqb_eq in Hdeg.
        assert (Hnot : forall e', e' ∈ edges g -> e_to e' <> r).
        { intros e' He' Heq. unfold nx.in_degree in Hdeg.
          assert (Hin : In e' (List.filter (fun e0 => bool_decide (e_to e0 = r)) (edges g))).
          { apply filter_In. split; [apply list_elem_of_In, He'|apply bool_decide_eq_true, Heq]. }
          destruct (List.filter _ (edges g)); [destruct Hin|simpl in Hdeg; lia]. }
        destruct (Hend r) as (e' & He' & Hor); [apply list_elem_of_In, Hr|].
        destruct Hor as [Hor|Hor]; [|exfalso; apply (Hnot e' He'); congruence].
        exists r, (e_to e'). split; [left|]. split; [|apply Hnot, He'].
        apply successors_elem. exists e'. auto. }
    destruct Hroot as (r & v & Hr & Hv & Hvr).
    assert (Hnz : (nx.number_of_nodes g =? 0) = false).
    { apply Z.eqb_neq. unfold nx.number_of_nodes.
      pose proof (Hfrom e He) as Hin. destruct (nodes g); [inversion Hin|simpl; lia]. }
    unfold graph_depth in H0. rewrite Hnz in H0.
    assert (Hfold : forall l m, r ∈ l ->
              1 <= fold_left (fun m start_node => max_depth (depth_run g start_node m)) l m).
    { induction l as [|x l IH]; intros m Hin; [inversion Hin|]. simpl.
      apply elem_of_cons in Hin as [<-|Hin]; [|apply IH, Hin].
      etransitivity; [|apply fold_depth_ge]. apply (depth_run_hop g r m v Hv Hvr). }
    specialize (Hfold (roots g) 0 Hr). lia.
  - intros Hself. unfold graph_depth. destruct (nx.number_of_nodes g =? 0); [reflexivity|].
    assert (Hfold : forall l, fold_left (fun m start_node => max_depth (depth_run g start_node m)) l 0
                              = 0).
    { induction l as [|r l IH]; simpl; [reflexivity|].
      assert (Hr : max_depth (depth_run g r 0) = 0).
      { unfold depth_run.
        rewrite (depth_while_step _ _ _ _ _ _ 0) by apply lookup_singleton_eq.
        unfold depth_body. rewrite relax_fold_self.
        - cbn [depths queue visited_in_path max_depth]. rewrite depth_while_done. reflexivity.
        - intros v (e & He & Hu & Hv)%successors_elem. rewrite <- Hu, <- Hv. symmetry.
          apply Hself, He. }
      rewrite Hr. exact IH. }
    apply Hfold.
Qed.

Lemma graph_depth_zero_iff_witness :
  graph_depth (build_from_calls [example_call "0xa" "0xa"]) = 0.
Proof.
  apply (graph_depth_zero_iff (build_from_calls [example_call "0xa" "0xa"])).
  - intros e He. vm_compute in He. apply list_elem_of_singleton in He. subst e.
    vm_compute. left.
  - intros n Hn. vm_compute in Hn. apply list_elem_of_singleton in Hn. subst n.
    eexists. split; [vm_compute; left|]. left. reflexivity.
  - intros e He. vm_compute in He. apply list_elem_of_singleton in He. subst e. reflexivity.
Defined.


(** ** In-degrees against the number of edges *)

(** The counts of a ranking, added up. *)
Definition total_count (l : list (string * Z)) : Z :=
  fold_right (fun p acc => snd p + acc) 0 l.

Lemma total_count_app l1 l2 : total_count (l1 ++ l2) = total_count l1 + total_count l2.
Proof. induction l1 as [|p l1 IH]; simpl; lia. Qed.

Lemma total_count_perm l l' : l ≡ₚ l' -> total_count l = total_count l'.
Proof. induction 1; simpl; lia. Qed.

Lemma total_count_nonneg l : Forall (fun p => 0 <= snd p) l -> 0 <= total_count l.
Proof. induction 1; simpl; lia. Qed.

Lemma total_count_take k l :
  Forall (fun p => 0 <= snd p) l -> total_count (take k l) <= total_count l.
Proof.
  intros Hl. rewrite <- (take_drop k l) at 2. rewrite total_count_app.
  assert (0 <= total_count (drop k l)) by (apply total_count_nonneg, Forall_drop, Hl). lia.
Qed.

Lemma total_count_positive_part l :
  Forall (fun p => 0 <= snd p) l ->
  total_count (List.filter (fun p => 0 <? snd p) l) = total_count l.
Proof.
  induction 1 as [|p l Hp Hl IH]; simpl; [reflexivity|].
  destruct (0 <? snd p) eqn:Hpos; simpl; [lia|]. apply Z.ltb_ge in Hpos. lia.
Qed.

(** Sorting a list by one of finitely many distinct keys: the classes add
    up to the list. *)
Lemma count_by_key {A} (f : A -> string) (ks : list string) (l : list A) :
  NoDup ks -> (forall x, x ∈ l -> f x ∈ ks) ->
  list_sum (map (fun k => length (List.filter (fun x => bool_decide (f x = k)) l)) ks)
  = length l.
Proof.
  intros Hnd. induction l as [|x l IH]; intros Hl.
  - simpl. clear. induction ks as [|k ks IHk]; simpl; [reflexivity|exact IHk].
  - simpl length. rewrite <- IH by (intros y Hy; apply Hl; right; exact Hy).
    assert (Hx : f x ∈ ks) by (apply Hl; left).
    clear IH Hl. revert Hx. induction Hnd as [|k ks Hk Hnd IHk]; intros Hx; [inversion Hx|].
    simpl. destruct (decide (f x = k)) as [Heq|Hne].
    + rewrite (bool_decide_eq_true_2 _ Heq). simpl. f_equal. f_equal.
      f_equal. apply map_ext_in. intros k' Hk'.
      rewrite bool_decide_eq_false_2; [reflexivity|].
      intros Heq'. apply Hk. rewrite <- Heq, Heq'. apply list_elem_of_In, Hk'.
    + rewrite (bool_decide_eq_false_2 _ Hne).
      apply elem_of_cons in Hx as [Hx|Hx]; [contradiction|].
      rewrite (IHk Hx). simpl. lia.
Qed.

Lemma in_degree_total g :
  NoDup (nodes g) -> (forall e, e ∈ edges g -> e_to e ∈ nodes g) ->
  total_count (map (fun n => (n, nx.in_degree g n)) (nodes g)) = nx.number_of_edges g.
Proof.
  intros Hnd Hwf. unfold nx.number_of_edges.
  rewrite <- (count_by_key e_to (nodes g) (edges g) Hnd Hwf).
  unfold nx.in_degree. generalize (nodes g). intros l.
  induction l as [|n l IH]; simpl; [reflexivity|]. rewrite IH. lia.
Qed.

(** X8. On a graph with distinct nodes whose edges end at nodes of the
    graph (every graph [build_graph] makes is one), the list returned for
    [top_k] has at most [top_k] entries and at most one per node, every
    count in it is at least 1, and the counts add up to at most the number
    of edges; with [top_k] not below the number of nodes they add up to
    exactly the number of edges. *)
Theorem central_nodes_counts (g : MultiDiGraph) (top_k : nat) :
  NoDup (nodes g) ->
  (forall e, e ∈ edges g -> e_to e ∈ nodes g) ->
  (length (central_nodes g top_k) <= top_k)%nat
  /\ (length (central_nodes g top_k) <= length (nodes g))%nat
  /\ Forall (fun p => 1 <= snd p) (central_nodes g top_k)
  /\ total_count (central_nodes g top_k) <= nx.number_of_edges g
  /\ ((length (nodes g) <= top_k)%nat ->
      total_count (central_nodes g top_k) = nx.number_of_edges g).
Proof.
  intros Hnd Hwf. unfold central_nodes, most_common.
  assert (Hpos : Forall (fun p : string * Z => 1 <= snd p) (sort_by_count (in_degree_counter g))).
  { apply Forall_forall. intros [a n] Hin. rewrite sort_by_count_perm in Hin.
    apply in_degree_counter_elem in Hin. simpl. lia. }
  assert (Hlen : (length (sort_by_count (in_degree_counter g)) <= length (nodes g))%nat).
  { rewrite sort_by_count_perm. unfold in_degree_counter.
    etransitivity; [apply List.filter_length_le|]. rewrite length_map. lia. }
  assert (Htot : total_count (sort_by_count (in_degree_counter g)) = nx.number_of_edges g).
  { rewrite (total_count_perm _ _ (sort_by_count_perm _)). unfold in_degree_counter.
    rewrite total_count_positive_part; [apply in_degree_total; assumption|].
    apply Forall_forall. intros p Hp. apply list_elem_of_In, in_map_iff in Hp as (n & <- & _).
    simpl. unfold nx.in_degree. lia. }
  assert (Hnn : Forall (fun p : string * Z => 0 <= snd p) (sort_by_count (in_degree_counter g))).
  { eapply Forall_impl; [exact Hpos|]. simpl. intros. lia. }
  repeat split.
  - rewrite length_take. lia.
  - rewrite length_take. lia.
  - apply Forall_take, Hpos.
  - rewrite <- Htot. apply total_count_take, Hnn.
  - intros Hk. rewrite take_ge by lia. exact Htot.
Qed.

Lemma central_nodes_counts_witness :
  total_count (central_nodes reentrancy_cycle 5) = 4.
Proof.
  destruct (central_nodes_counts reentrancy_cycle 5) as (_ & _ & _ & _ & H).
  - vm_compute. repeat constructor; set_solver.
  - intros e He. vm_compute in He.
    repeat (apply elem_of_cons in He as [->|He]; [vm_compute; set_solver|]).
    inversion He.
  - rewrite H; [reflexivity|]. vm_compute. lia.
Defined.


(** ** Function semantics *)

Lemma prefix_app_l p q s : String.prefix (p ++ q)%string s = true -> String.prefix p s = true.
Proof.
  revert s. induction p as [|a p IH]; intros s; [destruct s; reflexivity|].
  change (String a p ++ q)%string with (String a (p ++ q)%string).
  destruct s as [|b s]; [discriminate|]. cbn [String.prefix].
  destruct (ascii_dec a b); [apply IH|discriminate].
Qed.

Lemma contains_app_l p q s :
  PyStr.contains (p ++ q)%string s = true -> PyStr.contains p s = true.
Proof.
  induction s as [|b s IH].
  - change (PyStr.contains (p ++ q)%string "")
      with (String.prefix (p ++ q)%string "" || false)%bool.
    change (PyStr.contains p "") with (String.prefix p "" || false)%bool.
    rewrite !orb_false_r. apply prefix_app_l.
  - change (PyStr.contains (p ++ q)%string (String b s))
      with (String.prefix (p ++ q)%string (String b s) || PyStr.contains (p ++ q)%string s)%bool.
    change (PyStr.contains p (String b s))
      with (String.prefix p (String b s) || PyStr.contains p s)%bool.
    intros [H|H]%orb_true_iff; apply orb_true_iff; [left|right].
    + eapply prefix_app_l, H.
    + apply IH, H.
Qed.

(** The label found for a lower-cased function name. *)
Definition semantic_of_name (lowered : string) : option string :=
  snd <$> List.find (fun pd => PyStr.contains (PyStr.lower (fst pd)) lowered) FUNCTION_PATTERNS.

Lemma identify_function_semantic_name f :
  identify_function_semantic f = semantic_of_name (PyStr.lower (function_name f)).
Proof.
  unfold identify_function_semantic.
  destruct (bool_decide (f = "")) eqn:H1; simpl.
  - apply bool_decide_eq_true in H1. subst f. reflexivity.
  - destruct (bool_decide (f = "unknown")) eqn:H2; simpl; [|reflexivity].
    apply bool_decide_eq_true in H2. subst f. reflexivity.
Qed.

(** X9. The table of function patterns is searched in order and the entry
    [upgradeTo] stands before [upgradeToAndCall], so the label of the
    latter is never returned: every name containing [upgradeToAndCall]
    contains [upgradeTo] as well and gets that entry's label or an earlier
    one. *)
Theorem upgrade_and_call_label_unreachable (function_signature : string) :
  identify_function_semantic function_signature <> Some "Proxy: Upgrade and call"
  /\ (PyStr.contains "upgradetoandcall" (PyStr.lower (function_name function_signature)) = true ->
      exists label, identify_function_semantic function_signature = Some label
                    /\ label <> "Proxy: Upgrade and call").
Proof.
  rewrite identify_function_semantic_name.
  generalize (PyStr.lower (function_name function_signature)). intros s.
  assert (Hsub : PyStr.contains "upgradetoandcall" s = true -> PyStr.contains "upgradeto" s = true).
  { apply (contains_app_l "upgradeto" "andcall"). }
  unfold semantic_of_name, FUNCTION_PATTERNS. cbn [List.find fst snd].
  change (PyStr.lower "execTransaction") with "exectransaction".
  change (PyStr.lower "propose") with "propose".
  change (PyStr.lower "execute") with "execute".
  change (PyStr.lower "castVote") with "castvote".
  change (PyStr.lower "getPastVotes") with "getpastvotes".
  change (PyStr.lower "delegate") with "delegate".
  change (PyStr.lower "upgradeTo") with "upgradeto".
  change (PyStr.lower "upgradeToAndCall") with "upgradetoandcall".
  destruct (PyStr.contains "exectransaction" s);
    [split; [discriminate|intros _; eexists; split; [reflexivity|discriminate]]|].
  destruct (PyStr.contains "propose" s);
    [split; [discriminate|intros _; eexists; split; [reflexivity|discriminate]]|].
  destruct (PyStr.contains "execute" s);
    [split; [discriminate|intros _; eexists; split; [reflexivity|discriminate]]|].
  destruct (PyStr.contains "castvote" s);
    [split; [discriminate|intros _; eexists; split; [reflexivity|discriminate]]|].
  destruct (PyStr.contains "getpastvotes" s);
    [split; [discriminate|intros _; eexists; split; [reflexivity|discriminate]]|].
  destruct (PyStr.contains "delegate" s);
    [split; [discriminate|intros _; eexists; split; [reflexivity|discriminate]]|].
  destruct (PyStr.contains "upgradeto" s);
    [split; [discriminate|intros _; eexists; split; [reflexivity|discriminate]]|].
  destruct (PyStr.contains "upgradetoandcall" s).
  - specialize (Hsub eq_refl). discriminate.
  - split; [discriminate|]. intros H. discriminate.
Qed.

Lemma lower_ascii_paren c :
  Ascii.eqb (PyStr.lower_ascii c) "("%char = Ascii.eqb c "("%char.
Proof. destruct c as [[] [] [] [] [] [] [] []]; reflexivity. Qed.

Lemma contains_paren s :
  PyStr.contains "(" s = existsb (fun c => Ascii.eqb c "("%char) (list_ascii_of_string s).
Proof.
  induction s as [|c s IH]; [reflexivity|].
  change (PyStr.contains "(" (String c s))
    with (String.prefix "(" (String c s) || PyStr.contains "(" s)%bool.
  rewrite IH.
  change (String.prefix "(" (String c s))
    with (if ascii_dec "(" c then String.prefix "" s else false).
  change (list_ascii_of_string (String c s)) with (c :: list_ascii_of_string s).
  cbn [existsb]. f_equal.
  destruct (ascii_dec "(" c) as [<-|Hne].
  - destruct s; reflexivity.
  - symmetry. apply Ascii.eqb_neq. congruence.
Qed.

Lemma contains_paren_lower s : PyStr.contains "(" (PyStr.lower s) = PyStr.contains "(" s.
Proof.
  rewrite !contains_paren. induction s as [|c s IH]; simpl; [reflexivity|].
  rewrite lower_ascii_paren, IH. reflexivity.
Qed.

Lemma split_head_lower s :
  PyStr.split_head "("%char (PyStr.lower s) = PyStr.lower (PyStr.split_head "("%char s).
Proof.
  induction s as [|c s IH]; simpl; [reflexivity|].
  rewrite lower_ascii_paren. destruct (Ascii.eqb c "("%char); simpl; [reflexivity|].
  rewrite IH. reflexivity.
Qed.

Lemma function_name_lower f : function_name (PyStr.lower f) = PyStr.lower (function_name f).
Proof.
  unfold function_name. rewrite contains_paren_lower.
  destruct (PyStr.contains "(" f); [apply split_head_lower|reflexivity].
Qed.

Lemma append_cons c s t : (String c s ++ t)%string = String c (s ++ t)%string.
Proof. reflexivity. Qed.

Lemma function_name_arguments name args :
  PyStr.contains "(" name = false ->
  function_name (name ++ "(" ++ args)%string = name /\ function_name name = name.
Proof.
  intros Hname. unfold function_name. rewrite Hname. split; [|reflexivity].
  change ("(" ++ args)%string with (String "(" args).
  rewrite contains_paren in Hname.
  assert (Hc : PyStr.contains "(" (name ++ String "(" args)%string = true).
  { rewrite contains_paren. clear Hname. induction name as [|c name IH].
    - reflexivity.
    - rewrite append_cons.
      change (list_ascii_of_string (String c (name ++ String "(" args)%string))
        with (c :: list_ascii_of_string (name ++ String "(" args)%string).
      cbn [existsb]. rewrite IH. apply orb_true_r. }
  rewrite Hc. clear Hc. induction name as [|c name IH]; [reflexivity|].
  change (list_ascii_of_string (String c name)) with (c :: list_ascii_of_string name) in Hname.
  cbn [existsb] in Hname. apply orb_false_iff in Hname as [H1 H2].
  rewrite append_cons. cbn [PyStr.split_head]. rewrite H1, (IH H2). reflexivity.
Qed.

(** X10. The label depends only on the function's name, read without regard
    to letter case: two signatures that differ in letter case alone get the
    same answer, and so do a name and the same name followed by a
    parenthesised argument list. *)
Theorem function_semantic_by_name :
  (forall f f', PyStr.lower f = PyStr.lower f' ->
                identify_function_semantic f = identify_function_semantic f')
  /\ (forall f, identify_function_semantic (upper f) = identify_function_semantic f)
  /\ (forall name args, PyStr.contains "(" name = false ->
        identify_function_semantic (name ++ "(" ++ args)%string
        = identify_function_semantic name).
Proof.
  assert (Hcase : forall f f', PyStr.lower f = PyStr.lower f' ->
                    identify_function_semantic f = identify_function_semantic f').
  { intros f f' Hff. rewrite !identify_function_semantic_name, <- !function_name_lower, Hff.
    reflexivity. }
  split; [exact Hcase|]. split.
  - intros f. apply Hcase, lower_upper.
  - intros name args Hname. rewrite !identify_function_semantic_name.
    destruct (function_name_arguments name args Hname) as [-> ->]. reflexivity.
Qed.

(** ** Call paths *)

(** The path of deepest calls that opens the list. *)
Definition deepest_path (calls : list CallEntry) : list (list CallEntry) :=
  match calls with
  | [] => []
  | c :: cs =>
      [take 3 (List.filter
                 (fun c' => call_depth_of c' =? fold_left Z.max (map call_depth_of cs) (call_depth_of c))
                 calls)]
  end.

Lemma important_fold max_paths calls paths :
  fold_left (fun paths call =>
               if is_important_call call then
                 if (length paths <? max_paths)%nat then paths ++ [[call]] else paths
               else paths) calls paths
  = paths ++ take (max_paths - length paths)
                  (map (fun c => [c]) (List.filter is_important_call calls)).
Proof.
  revert paths. induction calls as [|c calls IH]; intros paths; simpl.
  - rewrite take_nil, app_nil_r. reflexivity.
  - rewrite IH. destruct (is_important_call c); [|reflexivity].
    destruct (length paths <? max_paths)%nat eqn:Hlt.
    + apply Nat.ltb_lt in Hlt. rewrite length_app. simpl.
      replace (max_paths - length paths)%nat with (S (max_paths - (length paths + 1)))%nat by lia.
      simpl. rewrite <- app_assoc. reflexivity.
    + apply Nat.ltb_ge in Hlt.
      replace (max_paths - length paths)%nat with 0%nat by lia. reflexivity.
Qed.

Lemma fold_max_ge l a : a <= fold_left Z.max l a /\ Forall (fun x => x <= fold_left Z.max l a) l.
Proof.
  revert a. induction l as [|x l IH]; intros a; simpl; [split; [lia|constructor]|].
  destruct (IH (Z.max a x)) as [H1 H2]. split; [lia|]. constructor; [lia|exact H2].
Qed.

(** X11. [extract_call_paths] returns the first [max_paths] entries of the
    list made of one path holding up to three calls of the largest depth
    found in the call list, followed by one single-call path for each call
    to an important function, in call order. So it returns at most
    [max_paths] paths, each of at most three calls taken from the call
    list, and nothing for an empty call list; and where the other analysis
    methods raise for want of a graph, it returns the empty list. *)
Theorem call_paths_shape (calls : list CallEntry) (max_paths : nat) :
  call_paths calls max_paths
  = take max_paths (deepest_path calls
                    ++ map (fun c => [c]) (List.filter is_important_call calls))
  /\ (length (call_paths calls max_paths) <= max_paths)%nat
  /\ (forall path, path ∈ call_paths calls max_paths ->
        (1 <= length path <= 3)%nat /\ forall c, c ∈ path -> c ∈ calls)
  /\ (forall path c c', path ∈ deepest_path calls -> c ∈ path -> c' ∈ calls ->
        call_depth_of c' <= call_depth_of c)
  /\ call_paths [] max_paths = []
  /\ (forall b, graph b = None \/ trace_data b = None ->
        extract_call_paths max_paths b = (Ok [], b)).
Proof.
  assert (Hform : call_paths calls max_paths
    = take max_paths (deepest_path calls
                      ++ map (fun c => [c]) (List.filter is_important_call calls))).
  { unfold call_paths. fold (deepest_path calls). rewrite important_fold.
    rewrite !take_app, take_take, Nat.min_id. reflexivity. }
  assert (Hdeep : forall path, path ∈ deepest_path calls ->
            (1 <= length path <= 3)%nat /\ (forall c, c ∈ path -> c ∈ calls)
            /\ forall c c', c ∈ path -> c' ∈ calls -> call_depth_of c' <= call_depth_of c).
  { intros path Hp. unfold deepest_path in Hp. destruct calls as [|c0 cs]; [inversion Hp|].
    apply list_elem_of_singleton in Hp.
    set (m := fold_left Z.max (map call_depth_of cs) (call_depth_of c0)) in *.
    destruct (fold_max_ge (map call_depth_of cs) (call_depth_of c0)) as [Hm0 Hm]. fold m in Hm0, Hm.
    assert (Hmem : forall c, c ∈ path -> c ∈ c0 :: cs /\ call_depth_of c = m).
    { intros c Hc. rewrite Hp in Hc. apply elem_of_take in Hc as (i & Hc & _).
      apply list_elem_of_lookup_2, list_elem_of_In, filter_In in Hc as [Hc Hd].
      split; [apply list_elem_of_In, Hc|apply Z.eqb_eq, Hd]. }
    assert (Hall : forall c', c' ∈ c0 :: cs -> call_depth_of c' <= m).
    { intros c' [->|Hc']%elem_of_cons; [exact Hm0|].
      rewrite Forall_forall in Hm. apply Hm, list_elem_of_In, in_map, list_elem_of_In, Hc'. }
    assert (Hex : exists c, c ∈ c0 :: cs /\ call_depth_of c = m).
    { clear -cs. subst m. revert c0. induction cs as [|c cs IH]; intros c0; simpl.
      - exists c0. split; [left|reflexivity].
      - destruct (Z.max_spec (call_depth_of c0) (call_depth_of c)) as [[_ Hmx]|[_ Hmx]].
        + destruct (IH c) as (x & Hx & Hxm). exists x. split; [right; exact Hx|].
          rewrite Hmx. exact Hxm.
        + destruct (IH c0) as (x & Hx & Hxm). exists x.
          split; [|rewrite Hmx; exact Hxm].
          apply elem_of_cons in Hx as [->|Hx]; [left|right; right; exact Hx]. }
    split; [|split].
    - rewrite Hp, length_take. split; [|lia].
      destruct Hex as (x & Hx & Hxm).
      assert (Hin : In x (List.filter (fun c' => call_depth_of c' =? m) (c0 :: cs))).
      { apply filter_In. split; [apply list_elem_of_In, Hx|apply Z.eqb_eq, Hxm]. }
      revert Hin. generalize (List.filter (fun c' => call_depth_of c' =? m) (c0 :: cs)).
      intros fl Hin. destruct fl; [destruct Hin|simpl; lia].
    - intros c Hc. apply Hmem, Hc.
    - intros c c' Hc Hc'. destruct (Hmem c Hc) as [_ ->]. apply Hall, Hc'. }
  split; [exact Hform|]. split; [|split; [|split; [|split]]].
  - rewrite Hform, length_take. lia.
  - intros path Hp. rewrite Hform in Hp. apply elem_of_take in Hp as (i & Hp & _).
    apply list_elem_of_lookup_2, elem_of_app in Hp as [Hp|Hp].
    + destruct (Hdeep path Hp) as (H1 & H2 & _). auto.
    + apply list_elem_of_In, in_map_iff in Hp as (c & <- & Hc). simpl. split; [lia|].
      intros c' Hc'. apply list_elem_of_singleton in Hc'. subst c'.
      apply filter_In in Hc as [Hc _]. apply list_elem_of_In, Hc.
  - intros path c c' Hp Hc Hc'. destruct (Hdeep path Hp) as (_ & _ & H3). eauto.
  - destruct max_paths; reflexivity.
  - intros b Hb. unfold extract_call_paths, mbind, M_bind, get_self. simpl.
    destruct (graph b), (trace_data b); try reflexivity. destruct Hb; discriminate.
Qed.

(** ** A report that cannot be found *)

(** X12. On a builder that holds no document and whose report file does not
    exist, [load_trace_report], [get_trace_summary] and [build_graph] raise
    [FileNotFoundError] naming the path, and so does [generate_description]
    when a graph is present; each leaves the builder as it was, so a graph
    built or loaded earlier is still there after a failed [build_graph]. *)
Theorem missing_report_raises (b : GraphBuilder) (set_iter : list string -> list string) :
  trace_data b = None ->
  trace_report_file b = None ->
  let e := FileNotFoundError ("Trace report not found: " ++ trace_report_path b) in
  load_trace_report b = (Raise e, b)
  /\ get_trace_summary b = (Raise e, b)
  /\ build_graph b = (Raise e, b)
  /\ (is_Some (graph b) -> generate_description set_iter b = (Raise e, b)).
Proof.
  destruct b as [p f g t]. simpl. intros -> ->. repeat split.
  intros [g' ->]. reflexivity.
Qed.

Definition lost_builder : GraphBuilder :=
  {| trace_report_path := "data/traces/trace_report.json"; trace_report_file := None;
     graph := Some nx.empty; trace_data := None |}.

Lemma missing_report_raises_witness :
  build_graph lost_builder
  = (Raise (FileNotFoundError "Trace report not found: data/traces/trace_report.json"),
     lost_builder).
Proof.
  destruct (missing_report_raises lost_builder (fun l => l)) as (_ & _ & H & _);
    [reflexivity|reflexivity|exact H].
Defined.


(** ** Calls and transfers of the simulator *)

(** The transfer recorded for a call. *)
Definition transfer_of (c : CallInfo) : TransferInfo :=
  {| ti_from := ci_from c; ti_to := ci_to c; ti_value := ci_value c;
     ti_call_type := ci_type c; ti_depth := ci_depth c |}.

Definition moves_value (c : CallInfo) : bool := 0 <? ci_value c.

(** What the two traversals report about a call in common. *)
Definition call_key (c : CallInfo) : string * string * string * string * string * Z :=
  (ci_type c, ci_from c, ci_to c, PyStr.of_int (ci_value c), ci_input c, ci_depth c).

Definition traced_key (c : TracedCall) : string * string * string * string * string * Z :=
  (tc_type c, tc_from c, tc_to c, tc_value c, tc_input c, tc_depth c).

Definition not_callcode (c : CallInfo) : bool := negb (bool_decide (ci_type c = "CALLCODE")).

Definition within_cap (c : TracedCall) : bool := tc_depth c <=? 50.

Lemma sum_positive l :
  Forall (fun x => 0 < x) l ->
  forall a, a <= fold_left Z.add l a /\ (fold_left Z.add l a = a <-> l = []).
Proof.
  induction 1 as [|x l Hx Hl IH]; intros a; simpl.
  - split; [lia|tauto].
  - destruct (IH (a + x)) as [H1 H2]. split; [lia|]. split; [lia|discriminate].
Qed.

Section TracerCalls.

Variable py_int : Z -> string -> option Z.
Variable resolve_function_signature : string -> string.

Lemma traverse_trace_transfers node :
  forall depth acc res,
    traverse_trace py_int node depth acc = Ok res ->
    exists new, fst res = fst acc ++ new
                /\ snd res = snd acc ++ map transfer_of (List.filter moves_value new)
                /\ Forall (fun c => ci_type c ∈ call_kinds) new.
Proof.
  induction node as [type from to value input output gas_used gas error children IH]
    using TraceNode_nested_ind.
  intros depth acc res. cbn [traverse_trace].
  destruct (50 <? depth) eqn:Hcap.
  { intros [= <-]. exists []. simpl. rewrite !app_nil_r. auto. }
  destruct (parse_num py_int (default (RawStr "0x0") value)) as [v|]; [|discriminate].
  destruct (parse_num py_int (default (RawStr "0x0") gas_used)) as [gu|]; [|discriminate].
  match goal with |- context [match children with Some _ => _ | None => Ok ?a end] =>
    set (acc1 := a) end.
  assert (H1 : exists new, fst acc1 = fst acc ++ new
                 /\ snd acc1 = snd acc ++ map transfer_of (List.filter moves_value new)
                 /\ Forall (fun c => ci_type c ∈ call_kinds) new).
  { unfold acc1. destruct (bool_decide _) eqn:Hk; simpl.
    - apply bool_decide_eq_true in Hk. eexists [_]. split; [reflexivity|]. split.
      + unfold moves_value. cbn [List.filter ci_value].
        destruct (0 <? v); simpl; [reflexivity|rewrite app_nil_r; reflexivity].
      + constructor; [exact Hk|constructor].
    - exists []. simpl. rewrite !app_nil_r. auto. }
  clearbody acc1. destruct H1 as (new1 & Hn1 & Ht1 & Hf1).
  destruct children as [l|].
  - specialize (IH l eq_refl). revert acc1 new1 Hn1 Ht1 Hf1.
    induction IH as [|child l Hchild _ IHl]; intros acc1 new1 Hn1 Ht1 Hf1.
    + intros [= <-]. exists new1. auto.
    + destruct (traverse_trace py_int child (depth + 1) acc1) as [a'|e] eqn:Hc;
        [|discriminate].
      destruct (Hchild _ _ _ Hc) as (new2 & Hn2 & Ht2 & Hf2).
      apply (IHl a' (new1 ++ new2)).
      * rewrite Hn2, Hn1, app_assoc. reflexivity.
      * rewrite Ht2, Ht1, List.filter_app, map_app, app_assoc. reflexivity.
      * apply Forall_app. split; assumption.
  - intros [= <-]. exists new1. auto.
Qed.

(** [traverse] only adds calls, each at the depth it was started at or
    deeper and of one of the three traced kinds. *)
Lemma traverse_appends node :
  forall depth acc res,
    traverse py_int resolve_function_signature node depth acc = Ok res ->
    exists new, res = acc ++ new
                /\ Forall (fun c => depth <= tc_depth c /\ tc_type c ∈ traced_kinds) new.
Proof.
  induction node as [type from to value input output gas_used gas error children IH]
    using TraceNode_nested_ind.
  intros depth acc res. cbn [traverse].
  match goal with |- context [match ?s with Raise _ => _ | Ok _ => _ end] =>
    set (step := s) end.
  assert (H1 : forall acc1, step = Ok acc1 ->
            exists new, acc1 = acc ++ new
              /\ Forall (fun c => depth <= tc_depth c /\ tc_type c ∈ traced_kinds) new).
  { unfold step. destruct (bool_decide _) eqn:Hk.
    - apply bool_decide_eq_true in Hk.
      destruct (parse_num py_int _) as [v|]; [|discriminate].
      destruct (parse_gas py_int _) as [gs|]; [|discriminate].
      intros acc1 [= <-]. eexists [_]. split; [reflexivity|].
      constructor; [|constructor]. split; [simpl; lia|exact Hk].
    - intros acc1 [= <-]. exists []. rewrite app_nil_r. auto. }
  clearbody step. destruct step as [acc1|e]; [|discriminate].
  destruct (H1 acc1 eq_refl) as (new1 & Hn1 & Hf1). clear H1.
  destruct children as [l|].
  - specialize (IH l eq_refl). revert acc1 new1 Hn1 Hf1.
    induction IH as [|child l Hchild _ IHl]; intros acc1 new1 Hn1 Hf1.
    + intros [= <-]. exists new1. auto.
    + destruct (traverse py_int resolve_function_signature child (depth + 1) acc1)
        as [a'|e] eqn:Hc; [|discriminate].
      destruct (Hchild _ _ _ Hc) as (new2 & Hn2 & Hf2).
      apply (IHl a' (new1 ++ new2)).
      * rewrite Hn2, Hn1, app_assoc. reflexivity.
      * apply Forall_app. split; [exact Hf1|].
        eapply Forall_impl; [exact Hf2|]. simpl. intros c [Hd Ht]. split; [lia|exact Ht].
  - intros [= <-]. exists new1. auto.
Qed.

Lemma traversals_agree node :
  forall depth acc res tacc tres,
    traverse_trace py_int node depth acc = Ok res ->
    traverse py_int resolve_function_signature node depth tacc = Ok tres ->
    exists new tnew,
      fst res = fst acc ++ new /\ tres = tacc ++ tnew
      /\ map call_key (List.filter not_callcode new)
         = map traced_key (List.filter within_cap tnew).
Proof.
  induction node as [type from to value input output gas_used gas error children IH]
    using TraceNode_nested_ind.
  intros depth acc res tacc tres Hres Htres.
  destruct (50 <? depth) eqn:Hcap.
  { cbn [traverse_trace] in Hres. rewrite Hcap in Hres. injection Hres as <-.
    destruct (traverse_appends _ _ _ _ Htres) as (tnew & -> & Hf).
    exists [], tnew. rewrite app_nil_r. split; [reflexivity|]. split; [reflexivity|].
    simpl. rewrite filter_none; [reflexivity|].
    intros c Hc. rewrite Forall_forall in Hf. destruct (Hf c Hc) as [Hd _].
    apply Z.ltb_lt in Hcap. apply Z.leb_gt. lia. }
  revert Hres Htres. cbn [traverse_trace traverse]. rewrite Hcap.
  destruct (parse_num py_int (default (RawStr "0x0") value)) as [v|]; [|discriminate].
  destruct (parse_num py_int (default (RawStr "0x0") gas_used)) as [gu|]; [|discriminate].
  match goal with |- context [match children with Some _ => _ | None => Ok ?a end] =>
    set (acc1 := a) end.
  match goal with |- _ -> match ?s with Raise _ => _ | Ok _ => _ end = _ -> _ =>
    set (step := s) end.
  assert (H1 : forall tacc1, step = Ok tacc1 ->
            exists new tnew, fst acc1 = fst acc ++ new /\ tacc1 = tacc ++ tnew
              /\ map call_key (List.filter not_callcode new)
                 = map traced_key (List.filter within_cap tnew)).
  { unfold step, acc1. apply Z.ltb_ge in Hcap.
    destruct (decide (default "" type ∈ traced_kinds)) as [Hk|Hk].
    - rewrite (bool_decide_eq_true_2 _ Hk).
      assert (Hk' : default "" type ∈ call_kinds).
      { unfold traced_kinds, call_kinds in *. set_solver. }
      rewrite (bool_decide_eq_true_2 _ Hk').
      destruct (parse_gas py_int _) as [gs|]; [|discriminate].
      intros tacc1 [= <-]. eexists [_], [_]. split; [reflexivity|]. split; [reflexivity|].
      unfold not_callcode, within_cap. simpl.
      assert (Hnc : default "" type <> "CALLCODE").
      { intros Heq. rewrite Heq in Hk. unfold traced_kinds in Hk. set_solver. }
      rewrite (bool_decide_eq_false_2 _ Hnc). simpl.
      assert (Hle : (depth <=? 50) = true) by (apply Z.leb_le; lia).
      rewrite Hle. reflexivity.
    - rewrite (bool_decide_eq_false_2 _ Hk). intros tacc1 [= <-].
      destruct (decide (default "" type ∈ call_kinds)) as [Hk'|Hk'].
      + rewrite (bool_decide_eq_true_2 _ Hk'). eexists [_], []. simpl.
        rewrite app_nil_r. split; [reflexivity|]. split; [reflexivity|].
        unfold not_callcode. simpl.
        assert (Hcc : default "" type = "CALLCODE").
        { unfold traced_kinds, call_kinds in *. set_solver. }
        rewrite (bool_decide_eq_true_2 _ Hcc). reflexivity.
      + rewrite (bool_decide_eq_false_2 _ Hk'). exists [], []. rewrite !app_nil_r. auto. }
  clearbody acc1 step. intros Hres Htres.
  destruct step as [tacc1|e]; [|discriminate].
  destruct (H1 tacc1 eq_refl) as (new1 & tnew1 & Hn1 & Ht1 & Hk1). clear H1.
  destruct children as [l|].
  - specialize (IH l eq_refl). revert acc1 tacc1 new1 tnew1 Hn1 Ht1 Hk1 Hres Htres.
    induction IH as [|child l Hchild _ IHl]; intros acc1 tacc1 new1 tnew1 Hn1 Ht1 Hk1.
    + intros [= <-] [= <-]. exists new1, tnew1. auto.
    + destruct (traverse_trace py_int child (depth + 1) acc1) as [a'|e] eqn:Hc;
        [|discriminate].
      destruct (traverse py_int resolve_function_signature child (depth + 1) tacc1)
        as [ta'|e] eqn:Htc; [|discriminate].
      destruct (Hchild _ _ _ _ _ Hc Htc) as (new2 & tnew2 & Hn2 & Ht2 & Hk2).
      apply (IHl a' ta' (new1 ++ new2) (tnew1 ++ tnew2)).
      * rewrite Hn2, Hn1, app_assoc. reflexivity.
      * rewrite Ht2, Ht1, app_assoc. reflexivity.
      * rewrite !List.filter_app, !map_app, Hk1, Hk2. reflexivity.
  - injection Hres as <-. injection Htres as <-. exists new1, tnew1. auto.
Qed.

End TracerCalls.

(** X13. In the summary of [extract_calls_and_transfers] the transfers are
    exactly the reported calls with a positive value, in the same order and
    with the call's endpoints, value, kind and depth; every reported call
    is of one of the four call kinds; the two totals are the lengths of the
    two lists; and the value total is non-negative, and zero only when there
    is no transfer. *)
Theorem transfers_are_calls_with_value
    (py_int : Z -> string -> option Z) (trace : TraceNode)
    (summary : TraceSummary) (log : list LogRecord) :
  extract_calls_and_transfers py_int trace = (Ok summary, log) ->
  ts_transfers summary = map transfer_of (List.filter moves_value (ts_calls summary))
  /\ Forall (fun c => ci_type c ∈ call_kinds) (ts_calls summary)
  /\ Forall (fun t => 0 < ti_value t) (ts_transfers summary)
  /\ ts_total_calls summary = Z.of_nat (length (ts_calls summary))
  /\ ts_total_transfers summary = Z.of_nat (length (ts_transfers summary))
  /\ ts_total_transfers summary <= ts_total_calls summary
  /\ 0 <= ts_total_value_transferred summary
  /\ (ts_total_value_transferred summary = 0 <-> ts_transfers summary = []).
Proof.
  unfold extract_calls_and_transfers.
  destruct (traverse_trace py_int trace 0 ([], [])) as [[calls transfers]|e] eqn:H;
    [|discriminate].
  intros [= <- <-]. simpl.
  destruct (traverse_trace_transfers py_int trace 0 _ _ H) as (new & Hn & Ht & Hf).
  simpl in Hn, Ht. subst calls transfers.
  assert (Hpos : Forall (fun x => 0 < x) (map ti_value (map transfer_of (List.filter moves_value new)))).
  { apply Forall_forall. intros x Hx. rewrite map_map in Hx.
    apply list_elem_of_In, in_map_iff in Hx as (c & <- & Hc). apply filter_In in Hc as [_ Hc].
    simpl. apply Z.ltb_lt, Hc. }
  destruct (sum_positive _ Hpos 0) as [H0 Hz].
  repeat split; try assumption; try reflexivity.
  - apply Forall_forall. intros t Ht. apply list_elem_of_In, in_map_iff in Ht as (c & <- & Hc).
    apply filter_In in Hc as [_ Hc]. simpl. apply Z.ltb_lt, Hc.
  - rewrite length_map. apply inj_le, List.filter_length_le.
  - intros Hsum. apply Hz in Hsum. apply map_eq_nil in Hsum. exact Hsum.
  - intros Hnil. rewrite Hnil. reflexivity.
Qed.

(** A call of 5 wei that makes a static call and a code call. *)
Definition paying_call : TraceNode :=
  {| node_type := Some "CALL"; node_from := Some "0xa"; node_to := Some "0xb";
     node_value := Some (RawInt 5); node_input := None; node_output := None;
     node_gasUsed := Some (RawInt 0); node_gas := Some (RawInt 0); node_error := None;
     node_calls := Some [
       {| node_type := Some "STATICCALL"; node_from := Some "0xb"; node_to := Some "0xc";
          node_value := None; node_input := None; node_output := None;
          node_gasUsed := Some (RawInt 0); node_gas := Some (RawInt 0); node_error := None;
          node_calls := None |};
       {| node_type := Some "CALLCODE"; node_from := Some "0xb"; node_to := Some "0xd";
          node_value := Some (RawInt 0); node_input := None; node_output := None;
          node_gasUsed := Some (RawInt 0); node_gas := Some (RawInt 0); node_error := None;
          node_calls := None |} ] |}.

(** [int(s, 16)] on the one string the example needs. *)
Definition int_of_zero (base : Z) (s : string) : option Z :=
  if bool_decide (s = "0x0") then Some 0 else None.

Lemma transfers_are_calls_with_value_witness :
  exists summary log,
    extract_calls_and_transfers int_of_zero paying_call = (Ok summary, log)
    /\ ts_total_calls summary = 3
    /\ ts_transfers summary = map transfer_of (List.filter moves_value (ts_calls summary))
    /\ ts_total_value_transferred summary = 5.
Proof.
  eexists. eexists. split; [vm_compute; reflexivity|]. split; [reflexivity|].
  split; [|reflexivity].
  eapply (transfers_are_calls_with_value int_of_zero paying_call). vm_compute. reflexivity.
Defined.

(** X14. When both flattening traversals of the simulator succeed on a call
    tree, the calls [_extract_calls_from_call_tracer] reports at depth 50
    or less are the calls [extract_calls_and_transfers] reports other than
    [CALLCODE] ones: the same number, in the same order, with the same
    kind, endpoints, value, input and depth. *)
Theorem flattening_traversals_agree
    (py_int : Z -> string -> option Z) (resolve_function_signature : string -> string)
    (trace : TraceNode) (summary : TraceSummary) (log : list LogRecord)
    (calls : list TracedCall) :
  extract_calls_and_transfers py_int trace = (Ok summary, log) ->
  _extract_calls_from_call_tracer py_int resolve_function_signature trace = Ok calls ->
  map traced_key (List.filter within_cap calls)
  = map call_key (List.filter not_callcode (ts_calls summary)).
Proof.
  unfold extract_calls_and_transfers, _extract_calls_from_call_tracer.
  destruct (traverse_trace py_int trace 0 ([], [])) as [[cs ts]|e] eqn:H; [|discriminate].
  intros [= <- <-] Ht. simpl.
  destruct (traversals_agree py_int resolve_function_signature trace 0 _ _ _ _ H Ht)
    as (new & tnew & Hn & Htn & Hk).
  simpl in Hn, Htn. subst cs calls. symmetry. exact Hk.
Qed.

Lemma flattening_traversals_agree_witness :
  exists summary log calls,
    extract_calls_and_transfers int_of_zero paying_call = (Ok summary, log)
    /\ _extract_calls_from_call_tracer int_of_zero (fun selector => selector) paying_call
       = Ok calls
    /\ length calls = 2%nat
    /\ map traced_key (List.filter within_cap calls)
       = map call_key (List.filter not_callcode (ts_calls summary)).
Proof.
  eexists. eexists. eexists. split; [vm_compute; reflexivity|].
  split; [vm_compute; reflexivity|]. split; [reflexivity|].
  eapply (flattening_traversals_agree int_of_zero (fun selector => selector) paying_call);
    vm_compute; reflexivity.
Defined.


(** ** What the metrics read of the graph *)

Lemma depth_while_stuck g d current rest vis m :
  d !! current = None ->
  depth_while g {| depths := d; queue := current :: rest; visited_in_path := vis;
                   max_depth := m |}
  = {| depths := d; queue := rest; visited_in_path := vis; max_depth := m |}.
Proof. intros H. simp depth_while. rewrite H. reflexivity. Qed.

Lemma depth_while_successors g g' s :
  (forall u, nx.successors g u = nx.successors g' u) ->
  depth_while g s = depth_while g' s.
Proof.
  intros Hs. funelim (depth_while g s).
  - rewrite depth_while_done. reflexivity.
  - rewrite (depth_while_step g' _ _ _ _ _ current_depth) by assumption.
    match goal with IH : forall g0, _ -> depth_while g _ = _ |- _ => rewrite (IH g' Hs) end.
    unfold depth_body. rewrite Hs. reflexivity.
  - rewrite depth_while_stuck by assumption. reflexivity.
Qed.

Lemma breadth_while_successors g g' s :
  (forall u, nx.successors g u = nx.successors g' u) ->
  breadth_while g s = breadth_while g' s.
Proof.
  intros Hs. funelim (breadth_while g s).
  - rewrite breadth_while_done. reflexivity.
  - rewrite (breadth_while_step g').
    match goal with IH : forall g0, _ -> breadth_while g _ = _ |- _ => rewrite (IH g' Hs) end.
    unfold breadth_body. rewrite Hs. reflexivity.
Qed.

Lemma successors_pairs g u :
  nx.successors g u
  = nx.first_seen ∅ (map snd (List.filter (fun p => bool_decide (fst p = u))
                                           (map edge_pair (edges g)))).
Proof.
  unfold nx.successors. f_equal.
  rewrite (filter_map_swap (fun p : string * string => bool_decide (fst p = u)) edge_pair).
  rewrite map_map. reflexivity.
Qed.

Lemma in_degree_pairs g n :
  nx.in_degree g n
  = Z.of_nat (length (List.filter (fun p => bool_decide (snd p = n)) (map edge_pair (edges g)))).
Proof.
  unfold nx.in_degree. f_equal.
  rewrite (filter_map_swap (fun p : string * string => bool_decide (snd p = n)) edge_pair).
  rewrite length_map. reflexivity.
Qed.

(** Depth, breadth and ranking read the nodes and the endpoints of the
    edges, nothing else. *)
Lemma metrics_by_endpoints g g' :
  nodes g = nodes g' ->
  map edge_pair (edges g) = map edge_pair (edges g') ->
  graph_depth g = graph_depth g'
  /\ graph_breadth g = graph_breadth g'
  /\ forall top_k, central_nodes g top_k = central_nodes g' top_k.
Proof.
  intros Hn He.
  assert (Hs : forall u, nx.successors g u = nx.successors g' u).
  { intros u. rewrite !successors_pairs, He. reflexivity. }
  assert (Hd : forall n, nx.in_degree g n = nx.in_degree g' n).
  { intros n. rewrite !in_degree_pairs, He. reflexivity. }
  assert (Hr : roots g = roots g').
  { unfold roots. rewrite Hn.
    rewrite (List.filter_ext (fun n => nx.in_degree g n =? 0) (fun n => nx.in_degree g' n =? 0));
      [reflexivity|]. intros n. rewrite Hd. reflexivity. }
  assert (Hc : nx.number_of_nodes g = nx.number_of_nodes g').
  { unfold nx.number_of_nodes. rewrite Hn. reflexivity. }
  split; [|split].
  - unfold graph_depth. rewrite Hc, Hr. destruct (nx.number_of_nodes g' =? 0); [reflexivity|].
    assert (Hf : forall l m,
              fold_left (fun m start_node => max_depth (depth_run g start_node m)) l m
              = fold_left (fun m start_node => max_depth (depth_run g' start_node m)) l m).
    { induction l as [|r l IH]; intros m; simpl; [reflexivity|].
      unfold depth_run at 2 4. rewrite (depth_while_successors g g' _ Hs). apply IH. }
    apply Hf.
  - unfold graph_breadth. rewrite Hc, Hr. destruct (nx.number_of_nodes g' =? 0); [reflexivity|].
    assert (Hf : forall l m,
              fold_left (fun m start_node => max_breadth (breadth_run g start_node m)) l m
              = fold_left (fun m start_node => max_breadth (breadth_run g' start_node m)) l m).
    { induction l as [|r l IH]; intros m; simpl; [reflexivity|].
      unfold breadth_run at 2 4. rewrite (breadth_while_successors g g' _ Hs). apply IH. }
    apply Hf.
  - intros top_k. unfold central_nodes, in_degree_counter. rewrite Hn. f_equal. f_equal.
    apply map_ext. intros n. rewrite Hd. reflexivity.
Qed.

Lemma kept_pairs calls :
  map call_pair (kept calls)
  = List.filter (fun p => negb (bool_decide (fst p = "") || bool_decide (snd p = "")))
                (map call_pair calls).
Proof.
  unfold kept.
  rewrite (filter_map_swap
             (fun p : string * string => negb (bool_decide (fst p = "") || bool_decide (snd p = "")))
             call_pair).
  reflexivity.
Qed.

Lemma build_from_calls_pairs calls :
  nodes (build_from_calls calls)
  = nx.first_seen ∅ (flat_map (fun p => [fst p; snd p]) (map call_pair (kept calls)))
  /\ map edge_pair (edges (build_from_calls calls)) = map call_pair (kept calls).
Proof.
  destruct (build_from_calls_spec calls) as (Hn & He & _). split.
  - rewrite Hn. f_equal. generalize (kept calls). intros l.
    induction l as [|c l IH]; simpl; [reflexivity|]. rewrite IH. reflexivity.
  - pose proof (f_equal (map (fun x : string * string * EdgeAttrs => fst x)) He) as H.
    rewrite !map_map in H. exact H.
Qed.

(** X15. Depth, breadth and the ranking of central nodes depend only on who
    calls whom, in which order: two call lists with the same sequence of
    (from, to) pairs get the same three results, whatever the kind,
    function, value and recorded depth of their entries. In particular the
    [depth] the tracer recorded on each call plays no part in
    [calculate_graph_depth]. *)
Theorem metrics_depend_on_endpoints_only (calls calls' : list CallEntry) :
  map call_pair calls = map call_pair calls' ->
  nodes (build_from_calls calls) = nodes (build_from_calls calls')
  /\ graph_depth (build_from_calls calls) = graph_depth (build_from_calls calls')
  /\ graph_breadth (build_from_calls calls) = graph_breadth (build_from_calls calls')
  /\ forall top_k, central_nodes (build_from_calls calls) top_k
                   = central_nodes (build_from_calls calls') top_k.
Proof.
  intros Hp.
  destruct (build_from_calls_pairs calls) as [Hn He].
  destruct (build_from_calls_pairs calls') as [Hn' He'].
  assert (Hk : map call_pair (kept calls) = map call_pair (kept calls')).
  { rewrite !kept_pairs, Hp. reflexivity. }
  assert (Hnodes : nodes (build_from_calls calls) = nodes (build_from_calls calls')).
  { rewrite Hn, Hn', Hk. reflexivity. }
  split; [exact Hnodes|].
  apply metrics_by_endpoints; [exact Hnodes|]. rewrite He, He', Hk. reflexivity.
Qed.

(** A call of the given kind, recorded at the given depth. *)
Definition typed_call (from to kind : string) (depth : Z) : CallEntry :=
  {| call_from := Some from; call_to := Some to; call_type := Some kind;
     call_function_signature := None; call_function_selector := None;
     call_value := None; call_depth := Some depth |}.

Lemma metrics_depend_on_endpoints_only_witness :
  graph_depth (build_from_calls [typed_call "0xa" "0xb" "DELEGATECALL" 7;
                                 typed_call "0xb" "0xc" "STATICCALL" 9])
  = graph_depth (build_from_calls [example_call "0xa" "0xb"; example_call "0xb" "0xc"]).
Proof.
  apply (metrics_depend_on_endpoints_only
           [typed_call "0xa" "0xb" "DELEGATECALL" 7; typed_call "0xb" "0xc" "STATICCALL" 9]
           [example_call "0xa" "0xb"; example_call "0xb" "0xc"]).
  reflexivity.
Defined.

(** ** Which summary feeds the graph *)

(** X16. [build_graph] reads the calls of [trace_summary] whenever that key
    holds a non-empty object, even one without a [calls] key, in which case
    the graph is empty whatever [summary] holds; it reads the calls of
    [summary] only when [trace_summary] is absent or an empty object, and
    builds the empty graph when neither key gives a call list. *)
Theorem build_graph_summary_precedence (b : GraphBuilder) (d : TraceDocument) :
  document_of b = Some d ->
  exists calls,
    build_graph b = (Ok (build_from_calls calls),
                     with_graph (with_trace_data b d) (build_from_calls calls))
    /\ (forall ts, doc_trace_summary d = Some ts -> summary_truthy ts = true ->
          calls = default [] (summary_calls ts))
    /\ (doc_trace_summary d = None \/ doc_trace_summary d = Some empty_summary ->
        calls = match doc_summary d with
                | Some s => default [] (summary_calls s)
                | None => []
                end)
    /\ (doc_trace_summary d = None -> doc_summary d = None -> build_from_calls calls = nx.empty).
Proof.
  intros Hd. exists (calls_of d). split; [apply build_graph_loaded, Hd|].
  unfold calls_of, summary_of. split; [|split].
  - intros ts -> ->. reflexivity.
  - intros [-> | ->]; simpl; destruct (doc_summary d); reflexivity.
  - intros -> ->. reflexivity.
Qed.

(** A document whose [trace_summary] has another key but no [calls], beside
    a [summary] with one call. *)
Definition shadowed_document : TraceDocument :=
  {| doc_trace_summary := Some {| summary_calls := None; summary_other_keys := true |};
     doc_summary := Some {| summary_calls := Some [example_call "0xa" "0xb"];
                            summary_other_keys := false |};
     doc_original_transaction := None; doc_trace := None |}.

Definition shadowed_builder : GraphBuilder :=
  {| trace_report_path := "data/traces/trace_report.json"; trace_report_file := None;
     graph := None; trace_data := Some shadowed_document |}.

Lemma build_graph_summary_precedence_witness :
  build_graph shadowed_builder = (Ok nx.empty, with_graph shadowed_builder nx.empty).
Proof.
  destruct (build_graph_summary_precedence shadowed_builder shadowed_document)
    as (calls & Hb & Hts & _); [reflexivity|].
  rewrite Hb, (Hts _ eq_refl eq_refl). reflexivity.
Defined.


(** ** Selector resolution *)

Lemma slice_to_all n s : (String.length s <= n)%nat -> PyStr.slice_to n s = s.
Proof.
  unfold PyStr.slice_to. revert n. induction s as [|c s IH]; intros n Hn.
  - destruct n; reflexivity.
  - destruct n as [|n]; [simpl in Hn; lia|]. simpl. rewrite IH; [reflexivity|].
    simpl in Hn. lia.
Qed.

Lemma slice_to_length n s :
  String.length (PyStr.slice_to n s) = Nat.min n (String.length s).
Proof.
  unfold PyStr.slice_to. revert n. induction s as [|c s IH]; intros n.
  - destruct n; reflexivity.
  - destruct n as [|n]; [reflexivity|]. simpl. rewrite IH. reflexivity.
Qed.

Lemma slice_to_app k rest : PyStr.slice_to (String.length k) (k ++ rest)%string = k.
Proof.
  unfold PyStr.slice_to. induction k as [|c k IH].
  - destruct rest; reflexivity.
  - rewrite append_cons. simpl. rewrite IH. reflexivity.
Qed.

Lemma upper_length s : String.length (upper s) = String.length s.
Proof. induction s as [|c s IH]; simpl; congruence. Qed.

Lemma append_length s t : String.length (s ++ t)%string = (String.length s + String.length t)%nat.
Proof. induction s as [|c s IH]; [reflexivity|]. rewrite append_cons. simpl. rewrite IH. reflexivity. Qed.

(** Every key of the built-in table is a canonical selector and leads to
    its own entry. *)
Lemma common_signatures_canonical :
  Forall (fun kv => String.length (fst kv) = 10%nat
                    /\ PyStr.lower (fst kv) = fst kv
                    /\ dict_get (fst kv) COMMON_FUNCTION_SIGNATURES = Some (snd kv))
         COMMON_FUNCTION_SIGNATURES.
Proof. repeat constructor. Qed.

Lemma resolve_long requests_get s :
  (10 <= String.length s)%nat ->
  resolve_function_signature requests_get s
  = match dict_get (PyStr.lower (PyStr.slice_to 10 s)) COMMON_FUNCTION_SIGNATURES with
    | Some signature => signature
    | None => resolve_function_signature requests_get (PyStr.lower (PyStr.slice_to 10 s))
    end.
Proof.
  intros Hlen.
  assert (Hguard : forall t, (10 <= String.length t)%nat ->
            (bool_decide (t = "") || bool_decide (t = "0x") || (String.length t <? 10)%nat)%bool
            = false).
  { intros t Ht. rewrite !orb_false_iff. repeat split.
    - apply bool_decide_eq_false. intros ->. simpl in Ht. lia.
    - apply bool_decide_eq_false. intros ->. simpl in Ht. lia.
    - apply Nat.ltb_ge, Ht. }
  set (sel := PyStr.lower (PyStr.slice_to 10 s)).
  assert (Hsel : String.length sel = 10%nat).
  { unfold sel. rewrite lower_length, slice_to_length. lia. }
  assert (Hcanon : PyStr.lower (PyStr.slice_to 10 sel) = sel).
  { rewrite slice_to_all by lia. apply lower_idem. }
  unfold resolve_function_signature at 1. rewrite (Hguard s Hlen). fold sel.
  destruct (dict_get sel COMMON_FUNCTION_SIGNATURES) as [signature|] eqn:Hd; [reflexivity|].
  unfold resolve_function_signature. rewrite (Hguard sel) by lia.
  rewrite Hcanon, Hd. reflexivity.
Qed.

(** X17. [resolve_function_signature] returns a selector of fewer than ten
    characters unchanged; of a longer one it reads the first ten characters
    only, without regard to letter case; each of the 23 built-in selectors,
    in either case and whatever follows it, gets its built-in signature
    without the web service being consulted; and a selector that is not
    built in comes back as those ten characters in lower case when the
    service has no answer. *)
Theorem resolve_function_signature_selector (requests_get : string -> option ApiResponse) :
  (forall s, (String.length s < 10)%nat -> resolve_function_signature requests_get s = s)
  /\ (forall s, (10 <= String.length s)%nat ->
        resolve_function_signature requests_get s
        = resolve_function_signature requests_get (PyStr.lower (PyStr.slice_to 10 s)))
  /\ (forall k v rest requests_get',
        (k, v) ∈ COMMON_FUNCTION_SIGNATURES ->
        resolve_function_signature requests_get' (k ++ rest)%string = v
        /\ resolve_function_signature requests_get' (upper k ++ rest)%string = v)
  /\ (forall s, (10 <= String.length s)%nat ->
        dict_get (PyStr.lower (PyStr.slice_to 10 s)) COMMON_FUNCTION_SIGNATURES = None ->
        (forall url, requests_get url = None) ->
        resolve_function_signature requests_get s = PyStr.lower (PyStr.slice_to 10 s)).
Proof.
  split; [|split; [|split]].
  - intros s Hs. unfold resolve_function_signature.
    apply Nat.ltb_lt in Hs. rewrite Hs, orb_true_r. reflexivity.
  - intros s Hs. rewrite (resolve_long requests_get s Hs).
    set (sel := PyStr.lower (PyStr.slice_to 10 s)).
    assert (Hsel : String.length sel = 10%nat).
    { unfold sel. rewrite lower_length, slice_to_length. lia. }
    destruct (dict_get sel COMMON_FUNCTION_SIGNATURES) as [signature|] eqn:Hd; [|reflexivity].
    assert (Hcanon : PyStr.lower (PyStr.slice_to 10 sel) = sel).
    { rewrite slice_to_all by lia. apply lower_idem. }
    rewrite (resolve_long requests_get sel) by lia.
    rewrite Hcanon, Hd. reflexivity.
  - intros k v rest requests_get' Hin.
    pose proof common_signatures_canonical as Hall. rewrite Forall_forall in Hall.
    destruct (Hall (k, v) Hin) as (Hlen & Hlow & Hget). cbn [fst snd] in Hlen, Hlow, Hget.
    split.
    + rewrite resolve_long by (rewrite append_length; lia).
      rewrite <- Hlen at 1. rewrite slice_to_app, Hlow, Hget. reflexivity.
    + rewrite resolve_long by (rewrite append_length, upper_length; lia).
      rewrite <- (upper_length k) in Hlen. rewrite <- Hlen at 1.
      rewrite slice_to_app, lower_upper, Hlow, Hget. reflexivity.
  - intros s Hs Hd Hnone. unfold resolve_function_signature.
    assert (Hguard : (bool_decide (s = "") || bool_decide (s = "0x")
                      || (String.length s <? 10)%nat)%bool = false).
    { rewrite !orb_false_iff. repeat split.
      - apply bool_decide_eq_false. intros ->. simpl in Hs. lia.
      - apply bool_decide_eq_false. intros ->. simpl in Hs. lia.
      - apply Nat.ltb_ge, Hs. }
    rewrite Hguard, Hd, Hnone. reflexivity.
Qed.
